(** * Neuroanatomical index engine: report parser, z-scores, percentiles
      and index calculators (DKT analysis)

    Shallow embedding of the TypeScript sources
    - the type-definition module, imported by the others as [./types]
      (reference tables, [zScore], [compositeZScore], [zToPercentile],
      [parseDKTStats]),
    - the module of the cognitive ability indices,
    - the module of the basic lateralization indices.

    Numbers.  A JavaScript [number] is modelled by [num]: the real numbers
    extended with [NaN], [+Infinity] and [-Infinity].  Arithmetic on finite
    values is exact real arithmetic, the special values follow IEEE 754 as
    JavaScript does.  Rounding of the arithmetic to binary64, overflow of
    an operation to an infinity and the sign of zero are not modelled
    ([-0] is identified with [+0]); [parseFloat] does return an infinity on
    a literal beyond the binary64 range and 0 on one below it.  Statements
    about computed values are therefore made for measurements of moderate
    size ([moderateData]) and up to a tolerance that absorbs the rounding
    of binary64, or as inequalities that rounding preserves.

    Strings.  A [string] is the UTF-8 encoding of the JavaScript string;
    [trim] and the split on [/\s+/] recognise the white space of
    ECMAScript, the characters beyond ASCII included.

    Objects used as dictionaries ([Record<string, _>]) are [gmap string _],
    holding the own properties of the object; object literals that the code
    iterates with [Object.entries] or [for of] are lists in source order. *)

From Stdlib Require Import Reals Lra Lia ZArith Ranalysis MVT Ascii String.
From stdpp Require Import base option list gmap strings.

#[local] Open Scope R_scope.

(* ===================================================================== *)
(** ** JavaScript numbers *)
(* ===================================================================== *)

Inductive num : Type :=
  | NaN
  | PInf
  | NInf
  | Fin (r : R).

#[global] Instance Rlt_decision (x y : R) : Decision (x < y) := Rlt_dec x y.
#[global] Instance Rle_decision (x y : R) : Decision (x <= y) := Rle_dec x y.
#[global] Instance Req_decision : EqDecision R := Req_dec_T.

Definition isFinite (a : num) : bool :=
  match a with Fin _ => true | _ => false end.

Definition isNaN (a : num) : bool :=
  match a with NaN => true | _ => false end.

(** Unary minus. *)
Definition neg (a : num) : num :=
  match a with
  | NaN => NaN
  | PInf => NInf
  | NInf => PInf
  | Fin x => Fin (- x)
  end.

(** [a + b] *)
Definition add (a b : num) : num :=
  match a, b with
  | Fin x, Fin y => Fin (x + y)
  | NaN, _ | _, NaN => NaN
  | PInf, NInf | NInf, PInf => NaN
  | PInf, _ | _, PInf => PInf
  | NInf, _ | _, NInf => NInf
  end.

(** [a - b] *)
Definition sub (a b : num) : num := add a (neg b).

Definition signedInf (positive : bool) : num :=
  if positive then PInf else NInf.

(** An infinity of the given sign times [b]. *)
Definition mulInf (positive : bool) (b : num) : num :=
  match b with
  | NaN => NaN
  | PInf => signedInf positive
  | NInf => signedInf (negb positive)
  | Fin y =>
      if decide (y = 0) then NaN
      else if decide (0 < y) then signedInf positive
      else signedInf (negb positive)
  end.

(** [a * b] *)
Definition mul (a b : num) : num :=
  match a, b with
  | Fin x, Fin y => Fin (x * y)
  | NaN, _ | _, NaN => NaN
  | PInf, _ => mulInf true b
  | NInf, _ => mulInf false b
  | _, PInf => mulInf true a
  | _, NInf => mulInf false a
  end.

(** [a / b].  A finite non-zero number divided by zero is an infinity,
    [0 / 0] is [NaN]; nothing is raised. *)
Definition div (a b : num) : num :=
  match a, b with
  | Fin x, Fin y =>
      if decide (y = 0) then
        if decide (x = 0) then NaN
        else if decide (0 < x) then PInf else NInf
      else Fin (x / y)
  | NaN, _ | _, NaN => NaN
  | Fin _, _ => Fin 0
  | _, PInf | _, NInf => NaN
  | PInf, Fin y => if decide (y < 0) then NInf else PInf
  | NInf, Fin y => if decide (y < 0) then PInf else NInf
  end.

(** [a < b]; every comparison with [NaN] is false. *)
Definition ltb (a b : num) : bool :=
  match a, b with
  | Fin x, Fin y => bool_decide (x < y)
  | NaN, _ | _, NaN => false
  | _, NInf => false
  | PInf, _ => false
  | NInf, _ => true
  | _, PInf => true
  end.

(** [a <= b] *)
Definition leb (a b : num) : bool :=
  match a, b with
  | Fin x, Fin y => bool_decide (x <= y)
  | NaN, _ | _, NaN => false
  | NInf, _ => true
  | _, PInf => true
  | PInf, _ => false
  | _, NInf => false
  end.

(** [a > b] and [a >= b] *)
Definition gtb (a b : num) : bool := ltb b a.
Definition geb (a b : num) : bool := leb b a.

Declare Scope num_scope.
Delimit Scope num_scope with num.
Bind Scope num_scope with num.
Notation "a + b" := (add a b) : num_scope.
Notation "a - b" := (sub a b) : num_scope.
Notation "a * b" := (mul a b) : num_scope.
Notation "a / b" := (div a b) : num_scope.
Notation "- a" := (neg a) : num_scope.
Notation "a <? b" := (ltb a b) (at level 70) : num_scope.
Notation "a <=? b" := (leb a b) (at level 70) : num_scope.
Notation "a >? b" := (gtb a b) (at level 70) : num_scope.
Notation "a >=? b" := (geb a b) (at level 70) : num_scope.

(** [Math.abs] *)
Definition Math_abs (a : num) : num :=
  match a with
  | NaN => NaN
  | PInf | NInf => PInf
  | Fin x => Fin (Rabs x)
  end.

(** [Math.round]: nearest integer, a tie goes towards [+Infinity]. *)
Definition Math_round (a : num) : num :=
  match a with
  | Fin x => Fin (IZR (Zfloor (x + 1 / 2)))
  | _ => a
  end.

(** [Math.min] and [Math.max] of two arguments; [NaN] if either is. *)
Definition Math_min (a b : num) : num :=
  match a, b with
  | NaN, _ | _, NaN => NaN
  | _, _ => if (a <? b)%num then a else b
  end.

Definition Math_max (a b : num) : num :=
  match a, b with
  | NaN, _ | _, NaN => NaN
  | _, _ => if (a >? b)%num then a else b
  end.

(** [Math.exp] *)
Definition Math_exp (a : num) : num :=
  match a with
  | NaN => NaN
  | PInf => PInf
  | NInf => Fin 0
  | Fin x => Fin (exp x)
  end.

(** [Number(a.toFixed(3))]: the nearest multiple of [1/1000], a tie going
    away from zero; values of magnitude [1e21] or more and the special
    values are printed and read back unchanged. *)
Definition toFixed3 (a : num) : num :=
  match a with
  | Fin x =>
      if decide (1e21 <= Rabs x) then Fin x
      else if decide (x < 0)
      then Fin (- (IZR (Zfloor (Rabs x * 1000 + 1 / 2)) / 1000))
      else Fin (IZR (Zfloor (x * 1000 + 1 / 2)) / 1000)
  | _ => a
  end.

(* ===================================================================== *)
(** ** Data model ([types.ts]) *)
(* ===================================================================== *)

(** [{ mean: number; std: number }] *)
Record MeanStd : Type := { mean : num; std : num }.

(** An entry of [REFERENCE_DATA_MALE]. *)
Record RefEntry : Type := {
  ref_thickness : MeanStd;
  ref_surfArea : MeanStd;
  ref_volume : MeanStd
}.

(** An entry of [BA_CURVATURE_REFERENCE]. *)
Record CurvRefEntry : Type := {
  ref_meanCurv : MeanStd;
  ref_foldInd : MeanStd
}.

(** [interface DKTRegionData]; the optional fields are [None] when the
    property is [undefined]. *)
Record DKTRegionData : Type := {
  thickness : num;
  surfArea : num;
  volume : num;
  meanCurv : option num;
  gausCurv : option num;
  foldInd : option num;
  curvInd : option num
}.

(** [interface DKTData] *)
Record DKTData : Type := {
  lh : gmap string DKTRegionData;
  rh : gmap string DKTRegionData;
  lhBA : option (gmap string DKTRegionData);
  rhBA : option (gmap string DKTRegionData)
}.

(** [interface RegionDetail], without the display string [weightsUsed]. *)
Record RegionDetail : Type := {
  region : string;
  regionWeight : num;
  zL : num;
  zR : num;
  contribL : num;
  contribR : num
}.

(** [interface IndexResult]: the computed fields.  The constant texts
    ([threshold], [formula], [references], [regions], [weights]) and the
    localized [interpretation] are presentation only and are left out. *)
Record IndexResult : Type := {
  name : string;
  value : num;
  percentile : num;
  zScore_field : option num;
  details : list RegionDetail
}.

Definition ms (m s : R) : MeanStd := {| mean := Fin m; std := Fin s |}.

Definition refEntry (t a v : MeanStd) : RefEntry :=
  {| ref_thickness := t; ref_surfArea := a; ref_volume := v |}.

(** The object literal [REFERENCE_DATA_MALE], in source order. *)
Definition REFERENCE_DATA_MALE_entries : list (string * RefEntry) := [
  ("precentral", refEntry (ms 2.65 0.18) (ms 5400 650) (ms 16500 2200));
  ("postcentral", refEntry (ms 2.15 0.16) (ms 5200 600) (ms 13500 1800));
  ("paracentral", refEntry (ms 2.45 0.17) (ms 1700 280) (ms 4800 700));
  ("pericalcarine", refEntry (ms 1.55 0.14) (ms 1900 320) (ms 2400 400));
  ("cuneus", refEntry (ms 1.95 0.15) (ms 2300 380) (ms 4600 650));
  ("lingual", refEntry (ms 2.05 0.15) (ms 3800 500) (ms 8200 1100));
  ("entorhinal", refEntry (ms 3.20 0.35) (ms 480 100) (ms 1600 350));
  ("parahippocampal", refEntry (ms 2.75 0.22) (ms 700 120) (ms 2200 380));
  ("medialorbitofrontal", refEntry (ms 2.45 0.20) (ms 1800 300) (ms 5000 750));
  ("superiortemporal", refEntry (ms 2.85 0.20) (ms 5800 700) (ms 19000 2500));
  ("parsopercularis", refEntry (ms 2.55 0.16) (ms 1600 250) (ms 4500 650));
  ("parstriangularis", refEntry (ms 2.40 0.17) (ms 1550 280) (ms 4000 600));
  ("middletemporal", refEntry (ms 2.85 0.19) (ms 5000 650) (ms 16000 2200));
  ("fusiform", refEntry (ms 2.70 0.18) (ms 3300 450) (ms 9500 1300));
  ("supramarginal", refEntry (ms 2.60 0.17) (ms 3800 500) (ms 11500 1600));
  ("inferiorparietal", refEntry (ms 2.50 0.16) (ms 5500 700) (ms 15500 2100));
  ("rostralanteriorcingulate",
     refEntry (ms 2.85 0.22) (ms 1100 200) (ms 3500 550));
  ("insula", refEntry (ms 3.05 0.22) (ms 2500 350) (ms 7800 1000));
  ("posteriorcingulate", refEntry (ms 2.45 0.20) (ms 1500 250) (ms 4000 600));
  ("superiorfrontal", refEntry (ms 2.75 0.18) (ms 9500 1200) (ms 30000 4000));
  ("rostralmiddlefrontal",
     refEntry (ms 2.40 0.17) (ms 4700 600) (ms 13000 1800));
  ("caudalmiddlefrontal",
     refEntry (ms 2.65 0.17) (ms 2600 400) (ms 7500 1000));
  ("superiorparietal", refEntry (ms 2.25 0.15) (ms 5200 650) (ms 13000 1700));
  ("precuneus", refEntry (ms 2.40 0.16) (ms 4600 580) (ms 12000 1600));
  ("lateraloccipital", refEntry (ms 2.20 0.16) (ms 6300 800) (ms 15000 2000));
  ("lateralorbitofrontal",
     refEntry (ms 2.55 0.20) (ms 3500 480) (ms 9800 1400));
  ("inferiortemporal", refEntry (ms 2.80 0.20) (ms 3900 520) (ms 12500 1700));
  ("BA3b_exvivo", refEntry (ms 2.15 0.18) (ms 2000 350) (ms 4500 700));
  ("BA4a_exvivo", refEntry (ms 2.85 0.20) (ms 1300 250) (ms 4300 650));
  ("BA4p_exvivo", refEntry (ms 2.80 0.19) (ms 1000 200) (ms 2700 450));
  ("BA44_exvivo", refEntry (ms 2.80 0.18) (ms 1650 300) (ms 5200 750));
  ("BA45_exvivo", refEntry (ms 2.50 0.18) (ms 2250 400) (ms 6200 900))
]%string.

Definition REFERENCE_DATA_MALE : gmap string RefEntry :=
  list_to_map REFERENCE_DATA_MALE_entries.

(** The object literal [BA_CURVATURE_REFERENCE], in source order. *)
Definition BA_CURVATURE_REFERENCE_entries : list (string * CurvRefEntry) := [
  ("BA3b_exvivo",
     {| ref_meanCurv := ms 0.118 0.015; ref_foldInd := ms 30 8 |});
  ("BA4a_exvivo",
     {| ref_meanCurv := ms 0.091 0.012; ref_foldInd := ms 23 6 |});
  ("BA4p_exvivo",
     {| ref_meanCurv := ms 0.098 0.013; ref_foldInd := ms 8 3 |});
  ("BA44_exvivo",
     {| ref_meanCurv := ms 0.113 0.014; ref_foldInd := ms 26 7 |});
  ("BA45_exvivo",
     {| ref_meanCurv := ms 0.132 0.018; ref_foldInd := ms 42 10 |})
]%string.

Definition BA_CURVATURE_REFERENCE : gmap string CurvRefEntry :=
  list_to_map BA_CURVATURE_REFERENCE_entries.

(* ===================================================================== *)
(** ** Z-score primitives and percentile converter ([types.ts]) *)
(* ===================================================================== *)

#[local] Open Scope string_scope.
#[local] Open Scope num_scope.

(** [zScore(value, mean, std)] *)
Definition zScore (value mean std : num) : num :=
  (value - mean) / std.

(** [compositeZScore(data, ref, weights)] with
    [weights = [thickness, surfArea, volume]]. *)
Definition compositeZScore (data : DKTRegionData) (ref : RefEntry)
    (weights : num * num * num) : num :=
  let zThick := zScore data.(thickness)
                  ref.(ref_thickness).(mean) ref.(ref_thickness).(std) in
  let zSurf := zScore data.(surfArea)
                 ref.(ref_surfArea).(mean) ref.(ref_surfArea).(std) in
  let zVol := zScore data.(volume)
                ref.(ref_volume).(mean) ref.(ref_volume).(std) in
  let '(wT, wS, wV) :=
    (weights.1.1 / Fin 100, weights.1.2 / Fin 100, weights.2 / Fin 100) in
  zThick * wT + zSurf * wS + zVol * wV.

(** [zToPercentile(z)] *)
Definition zToPercentile (z : num) : num :=
  let a1 := Fin 0.254829592 in
  let a2 := Fin (-0.284496736) in
  let a3 := Fin 1.421413741 in
  let a4 := Fin (-1.453152027) in
  let a5 := Fin 1.061405429 in
  let p := Fin 0.3275911 in
  let sign := if z <? Fin 0 then Fin (-1) else Fin 1 in
  let absZ := Math_abs z in
  let t := Fin 1.0 / (Fin 1.0 + p * absZ) in
  let y := Fin 1.0
           - (((((a5 * t + a4) * t) + a3) * t + a2) * t + a1) * t
             * Math_exp (- absZ * absZ / Fin 2) in
  Math_round ((Fin 0.5 * (Fin 1.0 + sign * y)) * Fin 100).

(* ===================================================================== *)
(** ** Index calculators: shared loop shape *)
(* ===================================================================== *)

(** [array.push(x)] *)
Definition push {A : Type} (array : list A) (x : A) : list A := array ++ [x].

(** The guard that opens every region loop:
    [const ref = REFERENCE_DATA_MALE[name]]
    [if (!ref || !lhMap[name] || !rhMap[name]) continue]. *)
Definition available (lhMap rhMap : gmap string DKTRegionData)
    (regionName : string) : option (RefEntry * DKTRegionData * DKTRegionData) :=
  match REFERENCE_DATA_MALE !! regionName,
        lhMap !! regionName, rhMap !! regionName with
  | Some ref, Some l, Some r => Some (ref, l, r)
  | _, _, _ => None
  end.

(** [for (const cfg of configs) { guard; body }] over a mutable state. *)
Definition forAvailable {C S : Type} (nameOf : C → string)
    (lhMap rhMap : gmap string DKTRegionData)
    (body : C → RefEntry → DKTRegionData → DKTRegionData → S → S)
    (configs : list C) (init : S) : S :=
  fold_left
    (λ acc cfg,
       match available lhMap rhMap (nameOf cfg) with
       | Some (ref, l, r) => body cfg ref l r acc
       | None => acc
       end)
    configs init.

(** [details.push({ region, regionWeight, zL: Number(zL.toFixed(3)), ... })] *)
Definition mkDetail (regionName : string) (weight z_L z_R c_L c_R : num)
    : RegionDetail :=
  {| region := regionName; regionWeight := weight;
     zL := toFixed3 z_L; zR := toFixed3 z_R;
     contribL := toFixed3 c_L; contribR := toFixed3 c_R |}.

(** The loop body common to the calculators that iterate
    [Object.entries(regionWeights)]: composite z-scores of both
    hemispheres, [totalIndex += weight * blend(zL, zR)], one detail. *)
Definition blendBody (metricWeights : num * num * num)
    (blend : num → num → num) (cL cR : num → num → num)
    (cfg : string * num) (ref : RefEntry) (l r : DKTRegionData)
    (acc : num * list RegionDetail) : num * list RegionDetail :=
  let '(regionName, weight) := cfg in
  let '(totalIndex, details) := acc in
  let z_L := compositeZScore l ref metricWeights in
  let z_R := compositeZScore r ref metricWeights in
  (totalIndex + weight * blend z_L z_R,
   push details
            (mkDetail regionName weight z_L z_R (cL weight z_L) (cR weight z_R))).

(* ===================================================================== *)
(** ** Cognitive ability indices *)
(* ===================================================================== *)

(** Olfactory Function Index *)
Definition calculateOlfactoryIndex (data : DKTData) : IndexResult :=
  let regionWeights :=
    [("entorhinal", Fin 0.60); ("parahippocampal", Fin 0.20);
     ("medialorbitofrontal", Fin 0.20)] in
  let metricWeights := (Fin 80, Fin 10, Fin 10) in
  let '(totalIndex, details) :=
    forAvailable fst data.(lh) data.(rh)
      (blendBody metricWeights
         (λ z_L z_R, (z_L + z_R) / Fin 2)
         (λ weight z_L, weight * z_L)
         (λ weight z_R, weight * z_R))
      regionWeights (Fin 0, []) in
  {| name := "Olfactory Function Index";
     value := Math_round (totalIndex * Fin 100) / Fin 100;
     percentile := zToPercentile totalIndex;
     zScore_field := None;
     details := details |}.

(** Language Composite Index: DKT regions, then the Broca subregions when
    both subregion maps are present; renormalized under partial coverage. *)
Definition calculateLanguageIndex (data : DKTData) : IndexResult :=
  let dktRegionWeights :=
    [("superiortemporal", Fin 0.25); ("parsopercularis", Fin 0.15);
     ("parstriangularis", Fin 0.10); ("middletemporal", Fin 0.10);
     ("fusiform", Fin 0.10)] in
  let baRegionWeights :=
    [("BA44_exvivo", Fin 0.15); ("BA45_exvivo", Fin 0.15)] in
  let metricWeights := (Fin 45, Fin 30, Fin 25) in
  let afterDKT :=
    forAvailable fst data.(lh) data.(rh)
      (λ '(regionName, weight) ref l r '(totalIndex, totalWeight, details),
         let z_L := compositeZScore l ref metricWeights in
         let z_R := compositeZScore r ref metricWeights in
         (totalIndex + weight * (Fin 0.7 * z_L + Fin 0.3 * z_R),
          totalWeight + weight,
          push details
            (mkDetail regionName weight z_L z_R
                        (weight * Fin 0.7 * z_L) (weight * Fin 0.3 * z_R))))
      dktRegionWeights (Fin 0, Fin 0, []) in
  let '(totalIndex, totalWeight, details) :=
    match data.(lhBA), data.(rhBA) with
    | Some lhBAMap, Some rhBAMap =>
        forAvailable fst lhBAMap rhBAMap
          (λ '(regionName, weight) ref l r '(totalIndex, totalWeight, details),
             let z_L := compositeZScore l ref metricWeights in
             let z_R := compositeZScore r ref metricWeights in
             (totalIndex + weight * (Fin 0.8 * z_L + Fin 0.2 * z_R),
              totalWeight + weight,
              push details
            (mkDetail (regionName +:+ " (Broca)") weight z_L z_R
                            (weight * Fin 0.8 * z_L)
                            (weight * Fin 0.2 * z_R))))
          baRegionWeights afterDKT
    | _, _ => afterDKT
    end in
  let totalIndex :=
    if (totalWeight >? Fin 0) && (totalWeight <? Fin 1)
    then totalIndex / totalWeight else totalIndex in
  {| name := "Language Composite Index";
     value := Math_round (totalIndex * Fin 100) / Fin 100;
     percentile := zToPercentile totalIndex;
     zScore_field := None;
     details := details |}.

(** Reading Fluency Index *)
Definition calculateReadingIndex (data : DKTData) : IndexResult :=
  let regionWeights :=
    [("superiortemporal", Fin 0.40); ("supramarginal", Fin 0.25);
     ("inferiorparietal", Fin 0.20); ("fusiform", Fin 0.15)] in
  let metricWeights := (Fin 50, Fin 30, Fin 20) in
  let '(totalIndex, details) :=
    forAvailable fst data.(lh) data.(rh)
      (blendBody metricWeights
         (λ z_L z_R, Fin 0.75 * z_L + Fin 0.25 * z_R)
         (λ weight z_L, weight * Fin 0.75 * z_L)
         (λ weight z_R, weight * Fin 0.25 * z_R))
      regionWeights (Fin 0, []) in
  {| name := "Reading Fluency Index";
     value := Math_round (totalIndex * Fin 100) / Fin 100;
     percentile := zToPercentile totalIndex;
     zScore_field := None;
     details := details |}.

(** Empathy Index *)
Definition calculateEmpathyIndex (data : DKTData) : IndexResult :=
  let regionWeights :=
    [("rostralanteriorcingulate", Fin 0.45); ("medialorbitofrontal", Fin 0.25);
     ("insula", Fin 0.20); ("posteriorcingulate", Fin 0.10)] in
  let metricWeights := (Fin 80, Fin 10, Fin 10) in
  let '(totalIndex, details) :=
    forAvailable fst data.(lh) data.(rh)
      (blendBody metricWeights
         (λ z_L z_R, (z_L + z_R) / Fin 2)
         (λ weight z_L, weight * z_L / Fin 2)
         (λ weight z_R, weight * z_R / Fin 2))
      regionWeights (Fin 0, []) in
  {| name := "Empathy Index";
     value := Math_round (totalIndex * Fin 100) / Fin 100;
     percentile := zToPercentile totalIndex;
     zScore_field := None;
     details := details |}.

(** Executive Function Index *)
Definition calculateExecutiveIndex (data : DKTData) : IndexResult :=
  let regionWeights :=
    [("superiorfrontal", Fin 0.40); ("rostralmiddlefrontal", Fin 0.30);
     ("caudalmiddlefrontal", Fin 0.20); ("parsopercularis", Fin 0.10)] in
  let metricWeights := (Fin 35, Fin 25, Fin 40) in
  let '(totalIndex, details) :=
    forAvailable fst data.(lh) data.(rh)
      (blendBody metricWeights
         (λ z_L z_R, (z_L + z_R) / Fin 2)
         (λ weight z_L, weight * z_L / Fin 2)
         (λ weight z_R, weight * z_R / Fin 2))
      regionWeights (Fin 0, []) in
  {| name := "Executive Function Index";
     value := Math_round (totalIndex * Fin 100) / Fin 100;
     percentile := zToPercentile totalIndex;
     zScore_field := None;
     details := details |}.

(** Spatial Processing Index *)
Definition calculateSpatialIndex (data : DKTData) : IndexResult :=
  let regionWeights :=
    [("inferiorparietal", Fin 0.50); ("superiorparietal", Fin 0.35);
     ("precuneus", Fin 0.15)] in
  let metricWeights := (Fin 20, Fin 50, Fin 30) in
  let '(totalIndex, details) :=
    forAvailable fst data.(lh) data.(rh)
      (blendBody metricWeights
         (λ z_L z_R, Fin 0.4 * z_L + Fin 0.6 * z_R)
         (λ weight z_L, weight * Fin 0.4 * z_L)
         (λ weight z_R, weight * Fin 0.6 * z_R))
      regionWeights (Fin 0, []) in
  {| name := "Spatial Processing Index";
     value := Math_round (totalIndex * Fin 100) / Fin 100;
     percentile := zToPercentile totalIndex;
     zScore_field := None;
     details := details |}.

(** Fluid Intelligence Index (Structural) *)
Definition calculateFluidIntelligenceIndex (data : DKTData) : IndexResult :=
  let regionWeights :=
    [("superiorfrontal", Fin 0.25); ("inferiorparietal", Fin 0.20);
     ("superiortemporal", Fin 0.20); ("rostralmiddlefrontal", Fin 0.20);
     ("insula", Fin 0.15)] in
  let metricWeights := (Fin 30, Fin 30, Fin 40) in
  let '(totalIndex, details) :=
    forAvailable fst data.(lh) data.(rh)
      (blendBody metricWeights
         (λ z_L z_R, (z_L + z_R) / Fin 2)
         (λ weight z_L, weight * z_L / Fin 2)
         (λ weight z_R, weight * z_R / Fin 2))
      regionWeights (Fin 0, []) in
  {| name := "Fluid Intelligence Index (Structural)";
     value := Math_round (totalIndex * Fin 100) / Fin 100;
     percentile := zToPercentile totalIndex;
     zScore_field := None;
     details := details |}.

(** A region configuration with its own metric weights
    ([{ name, weight, wThick, wArea, wVol }]; for the subregion loops the
    third metric weight is [wFold]). *)
Record RegionConfig : Type := {
  cfg_name : string;
  cfg_weight : num;
  wThick : num;
  wArea : num;
  wThird : num
}.

Definition regionConfig (n : string) (w wT wA w3 : R) : RegionConfig :=
  {| cfg_name := n; cfg_weight := Fin w;
     wThick := Fin wT; wArea := Fin wA; wThird := Fin w3 |}.

(** Parietal IQ Prediction Index *)
Definition calculateParietalIQIndex (data : DKTData) : IndexResult :=
  let parietalRegions :=
    [regionConfig "supramarginal" 0.25 0.55 0.25 0.20;
     regionConfig "inferiorparietal" 0.25 0.50 0.28 0.22;
     regionConfig "superiorparietal" 0.22 0.52 0.28 0.20;
     regionConfig "precuneus" 0.18 0.48 0.30 0.22;
     regionConfig "posteriorcingulate" 0.10 0.45 0.30 0.25] in
  let '(totalIndex, totalWeight, details) :=
    forAvailable cfg_name data.(lh) data.(rh)
      (λ cfg ref l r '(totalIndex, totalWeight, details),
         let weight := cfg.(cfg_weight) in
         let zThick_L := (l.(thickness) - ref.(ref_thickness).(mean))
                         / ref.(ref_thickness).(std) in
         let zThick_R := (r.(thickness) - ref.(ref_thickness).(mean))
                         / ref.(ref_thickness).(std) in
         let zArea_L := (l.(surfArea) - ref.(ref_surfArea).(mean))
                        / ref.(ref_surfArea).(std) in
         let zArea_R := (r.(surfArea) - ref.(ref_surfArea).(mean))
                        / ref.(ref_surfArea).(std) in
         let zVol_L := (l.(volume) - ref.(ref_volume).(mean))
                       / ref.(ref_volume).(std) in
         let zVol_R := (r.(volume) - ref.(ref_volume).(mean))
                       / ref.(ref_volume).(std) in
         let z_L := cfg.(wThick) * zThick_L + cfg.(wArea) * zArea_L
                    + cfg.(wThird) * zVol_L in
         let z_R := cfg.(wThick) * zThick_R + cfg.(wArea) * zArea_R
                    + cfg.(wThird) * zVol_R in
         let avgZ := (z_L + z_R) / Fin 2 in
         (totalIndex + weight * avgZ,
          totalWeight + weight,
          push details
            (mkDetail cfg.(cfg_name) weight z_L z_R
                        (weight * z_L / Fin 2) (weight * z_R / Fin 2))))
      parietalRegions (Fin 0, Fin 0, []) in
  let zScore := if totalWeight >? Fin 0
                then totalIndex / totalWeight else Fin 0 in
  let correlationCoefficient := Fin 0.40 in
  let predictedIQ :=
    Math_round (Fin 100 + zScore * Fin 15 * correlationCoefficient) in
  let clampedIQ := Math_max (Fin 70) (Math_min (Fin 145) predictedIQ) in
  {| name := "Parietal IQ Prediction Index";
     value := clampedIQ;
     percentile := zToPercentile zScore;
     zScore_field := Some (Math_round (zScore * Fin 100) / Fin 100);
     details := details |}.

(* ===================================================================== *)
(** ** Basic lateralization indices *)
(* ===================================================================== *)

(** Folding-index z-scores of both hemispheres; zero when the curvature
    reference or either hemisphere's [foldInd] is absent:
    [if (curvRef && lh.foldInd !== undefined && rh.foldInd !== undefined)]. *)
Definition foldZScores (regionName : string) (l r : DKTRegionData)
    : num * num :=
  match BA_CURVATURE_REFERENCE !! regionName, l.(foldInd), r.(foldInd) with
  | Some curvRef, Some foldL, Some foldR =>
      ((foldL - curvRef.(ref_foldInd).(mean)) / curvRef.(ref_foldInd).(std),
       (foldR - curvRef.(ref_foldInd).(mean)) / curvRef.(ref_foldInd).(std))
  | _, _, _ => (Fin 0, Fin 0)
  end.

(** The result returned when [data.lhBA] or [data.rhBA] is missing. *)
Definition neutralResult (resultName : string) : IndexResult :=
  {| name := resultName; value := Fin 0; percentile := Fin 50;
     zScore_field := None; details := [] |}.

(** 1. Handedness Index, from the subregions BA4a, BA4p and BA3b. *)
Definition calculateHandednessIndex (data : DKTData) : IndexResult :=
  let baRegionConfigs :=
    [regionConfig "BA4a_exvivo" 0.35 0.35 0.35 0.30;
     regionConfig "BA4p_exvivo" 0.35 0.35 0.35 0.30;
     regionConfig "BA3b_exvivo" 0.30 0.40 0.30 0.30] in
  match data.(lhBA), data.(rhBA) with
  | Some lhBAMap, Some rhBAMap =>
      let '(totalIndex, totalWeight, details) :=
        forAvailable cfg_name lhBAMap rhBAMap
          (λ cfg ref l r '(totalIndex, totalWeight, details),
             let weight := cfg.(cfg_weight) in
             let zThick_L := (l.(thickness) - ref.(ref_thickness).(mean))
                             / ref.(ref_thickness).(std) in
             let zThick_R := (r.(thickness) - ref.(ref_thickness).(mean))
                             / ref.(ref_thickness).(std) in
             let zArea_L := (l.(surfArea) - ref.(ref_surfArea).(mean))
                            / ref.(ref_surfArea).(std) in
             let zArea_R := (r.(surfArea) - ref.(ref_surfArea).(mean))
                            / ref.(ref_surfArea).(std) in
             let '(zFold_L, zFold_R) := foldZScores cfg.(cfg_name) l r in
             let z_L := cfg.(wThick) * zThick_L + cfg.(wArea) * zArea_L
                        + cfg.(wThird) * zFold_L in
             let z_R := cfg.(wThick) * zThick_R + cfg.(wArea) * zArea_R
                        + cfg.(wThird) * zFold_R in
             let contribution := weight * (z_L - z_R) in
             (totalIndex + contribution,
              totalWeight + weight,
              push details
                (mkDetail cfg.(cfg_name) weight z_L z_R
                   (weight * z_L) (weight * z_R))))
          baRegionConfigs (Fin 0, Fin 0, []) in
      let finalIndex := if totalWeight >? Fin 0
                        then totalIndex / totalWeight else Fin 0 in
      {| name := "Handedness Index";
         value := Math_round (finalIndex * Fin 1000) / Fin 1000;
         percentile := zToPercentile finalIndex;
         zScore_field := None;
         details := details |}
  | _, _ => neutralResult "Handedness Index"
  end.

(** 2. Dominant Eye Index *)
Definition calculateDominantEyeIndex (data : DKTData) : IndexResult :=
  let regionWeights :=
    [("pericalcarine", Fin 0.70); ("cuneus", Fin 0.15);
     ("lingual", Fin 0.15)] in
  let metricWeights := (Fin 92, Fin 4, Fin 4) in
  let '(totalIndex, details) :=
    forAvailable fst data.(lh) data.(rh)
      (blendBody metricWeights
         (λ z_L z_R, z_L - z_R)
         (λ weight z_L, weight * z_L)
         (λ weight z_R, weight * z_R))
      regionWeights (Fin 0, []) in
  {| name := "Dominant Eye Index";
     value := Math_round (totalIndex * Fin 1000) / Fin 1000;
     percentile := zToPercentile totalIndex;
     zScore_field := None;
     details := details |}.

(** 3. Preferred Nostril Index; [piriform] is read from [entorhinal]. *)
Definition calculatePreferredNostrilIndex (data : DKTData) : IndexResult :=
  let regions :=
    [("entorhinal", Fin 0.45); ("parahippocampal", Fin 0.20);
     ("medialorbitofrontal", Fin 0.20); ("insula", Fin 0.10);
     ("piriform", Fin 0.05)] in
  let metricWeights := (Fin 70, Fin 20, Fin 10) in
  let actualName (r : string * num) :=
    if decide (r.1 = "piriform") then "entorhinal" else r.1 in
  let '(rawScore, details) :=
    forAvailable actualName data.(lh) data.(rh)
      (λ r norm l rhData '(rawScore, details),
         let z_L := compositeZScore l norm metricWeights in
         let z_R := compositeZScore rhData norm metricWeights in
         let contribution := r.2 * (z_R - z_L) in
         (rawScore + contribution,
          push details
            (mkDetail r.1 r.2 z_L z_R (r.2 * z_L) (r.2 * z_R))))
      regions (Fin 0, []) in
  let oli := rawScore in
  let percentile :=
    if oli >=? Fin 0
    then Math_min (Fin 99) (Math_round (Fin 50 + oli * Fin 40))
    else Math_max (Fin 1) (Math_round (Fin 50 + oli * Fin 40)) in
  {| name := "Preferred Nostril Index";
     value := toFixed3 oli;
     percentile := percentile;
     zScore_field := Some (toFixed3 rawScore);
     details := details |}.

(** The lateralization ratio
    [(sumContribL - sumContribR) / (|sumContribL| + |sumContribR| + 0.001)]. *)
Definition lateralizationRatio (sumContribL sumContribR : num) : num :=
  (sumContribL - sumContribR)
  / (Math_abs sumContribL + Math_abs sumContribR + Fin 0.001).

(** Percentile bands of the Language Output index, with the final
    [Math.round(Math.max(1, Math.min(99, percentile)))]. *)
Definition languageOutputPercentile (li : num) : num :=
  let percentile :=
    if li >=? Fin 0.25 then Math_min (Fin 99) (Fin 90 + (li - Fin 0.25) * Fin 30)
    else if li >=? Fin 0.10 then Fin 70 + (li - Fin 0.10) * Fin 133
    else if li >=? Fin (-0.10) then Fin 50 + li * Fin 100
    else if li >=? Fin (-0.25) then Fin 20 + (li + Fin 0.10) * Fin 200
    else Math_max (Fin 1) (Fin 5 + (li + Fin 0.25) * Fin 60) in
  Math_round (Math_max (Fin 1) (Math_min (Fin 99) percentile)).

(** 4. Language Output Lateralization Index, from BA44 and BA45. *)
Definition calculateLanguageOutputLateralization (data : DKTData)
    : IndexResult :=
  let baBrocaRegions :=
    [regionConfig "BA44_exvivo" 0.60 0.40 0.35 0.25;
     regionConfig "BA45_exvivo" 0.40 0.40 0.35 0.25] in
  match data.(lhBA), data.(rhBA) with
  | Some lhBAMap, Some rhBAMap =>
      let '(sumContribL, sumContribR, totalWeight, details) :=
        forAvailable cfg_name lhBAMap rhBAMap
          (λ cfg ref l r '(sumContribL, sumContribR, totalWeight, details),
             let weight := cfg.(cfg_weight) in
             let zThick_L := (l.(thickness) - ref.(ref_thickness).(mean))
                             / ref.(ref_thickness).(std) in
             let zThick_R := (r.(thickness) - ref.(ref_thickness).(mean))
                             / ref.(ref_thickness).(std) in
             let zArea_L := (l.(surfArea) - ref.(ref_surfArea).(mean))
                            / ref.(ref_surfArea).(std) in
             let zArea_R := (r.(surfArea) - ref.(ref_surfArea).(mean))
                            / ref.(ref_surfArea).(std) in
             let '(zFold_L, zFold_R) := foldZScores cfg.(cfg_name) l r in
             let z_L := cfg.(wThick) * zThick_L + cfg.(wArea) * zArea_L
                        + cfg.(wThird) * zFold_L in
             let z_R := cfg.(wThick) * zThick_R + cfg.(wArea) * zArea_R
                        + cfg.(wThird) * zFold_R in
             let c_L := weight * z_L in
             let c_R := weight * z_R in
             (sumContribL + c_L, sumContribR + c_R, totalWeight + weight,
              push details (mkDetail cfg.(cfg_name) weight z_L z_R c_L c_R)))
          baBrocaRegions (Fin 0, Fin 0, Fin 0, []) in
      let li := lateralizationRatio sumContribL sumContribR in
      {| name := "Language Output Lateralization Index";
         value := toFixed3 li;
         percentile := languageOutputPercentile li;
         zScore_field := None;
         details := details |}
  | _, _ => neutralResult "Language Output Lateralization Index"
  end.

(** [DKT_LANGUAGE_INPUT_REGIONS] *)
Definition DKT_LANGUAGE_INPUT_REGIONS : list RegionConfig :=
  [regionConfig "superiortemporal" 0.35 0.68 0.18 0.14;
   regionConfig "inferiorparietal" 0.20 0.55 0.32 0.13;
   regionConfig "middletemporal" 0.20 0.60 0.20 0.20;
   regionConfig "supramarginal" 0.15 0.48 0.38 0.14;
   regionConfig "fusiform" 0.10 0.45 0.20 0.35].

(** Percentile bands of the Language Input index. *)
Definition languageInputPercentile (li : num) : num :=
  let percentile :=
    if li >=? Fin 0.20 then Math_min (Fin 99) (Fin 90 + (li - Fin 0.20) * Fin 40)
    else if li >=? Fin 0.05 then Fin 70 + (li - Fin 0.05) * Fin 133
    else if li >=? Fin (-0.05) then Fin 50 + li * Fin 200
    else if li >=? Fin (-0.15) then Fin 20 + (li + Fin 0.05) * Fin 300
    else Math_max (Fin 1) (Fin 5 + (li + Fin 0.15) * Fin 100) in
  Math_round (Math_max (Fin 1) (Math_min (Fin 99) percentile)).

(** 5. Language Input Lateralization Index, from the DKT regions. *)
Definition calculateLanguageInputLateralization (data : DKTData)
    : IndexResult :=
  let '(sumContribL, sumContribR, totalStrength, details) :=
    forAvailable cfg_name data.(lh) data.(rh)
      (λ cfg norm l r '(sumContribL, sumContribR, totalStrength, details),
         let weight := cfg.(cfg_weight) in
         let z_L :=
           cfg.(wThick) * ((l.(thickness) - norm.(ref_thickness).(mean))
                           / norm.(ref_thickness).(std))
           + cfg.(wArea) * ((l.(surfArea) - norm.(ref_surfArea).(mean))
                            / norm.(ref_surfArea).(std))
           + cfg.(wThird) * ((l.(volume) - norm.(ref_volume).(mean))
                             / norm.(ref_volume).(std)) in
         let z_R :=
           cfg.(wThick) * ((r.(thickness) - norm.(ref_thickness).(mean))
                           / norm.(ref_thickness).(std))
           + cfg.(wArea) * ((r.(surfArea) - norm.(ref_surfArea).(mean))
                            / norm.(ref_surfArea).(std))
           + cfg.(wThird) * ((r.(volume) - norm.(ref_volume).(mean))
                             / norm.(ref_volume).(std)) in
         let c_L := weight * z_L in
         let c_R := weight * z_R in
         (sumContribL + c_L, sumContribR + c_R,
          totalStrength + (z_L + z_R) / Fin 2 * weight,
          push details (mkDetail cfg.(cfg_name) weight z_L z_R c_L c_R)))
      DKT_LANGUAGE_INPUT_REGIONS (Fin 0, Fin 0, Fin 0, []) in
  let li := lateralizationRatio sumContribL sumContribR in
  {| name := "Language Input Lateralization Index";
     value := toFixed3 li;
     percentile := languageInputPercentile li;
     zScore_field := Some (toFixed3 totalStrength);
     details := details |}.

(** Combined Language Lateralization Index: 60% output, 40% input. *)
Definition calculateLanguageLateralizationIndex (data : DKTData)
    : IndexResult :=
  let outputResult := calculateLanguageOutputLateralization data in
  let inputResult := calculateLanguageInputLateralization data in
  let combinedLI :=
    outputResult.(value) * Fin 0.6 + inputResult.(value) * Fin 0.4 in
  let tag (suffix : string) (d : RegionDetail) : RegionDetail :=
    {| region := d.(region) +:+ suffix; regionWeight := d.(regionWeight);
       zL := d.(zL); zR := d.(zR);
       contribL := d.(contribL); contribR := d.(contribR) |} in
  let allDetails :=
    (map (tag " (Output)") outputResult.(details)
     ++ map (tag " (Input)") inputResult.(details))%list in
  let percentile :=
    if combinedLI >=? Fin 0.20
    then Math_min (Fin 99) (Fin 95 + (combinedLI - Fin 0.20) * Fin 20)
    else if combinedLI >=? Fin 0.05
    then Fin 80 + (combinedLI - Fin 0.05) * Fin 100
    else if combinedLI >=? Fin (-0.05) then Fin 50 + combinedLI * Fin 300
    else if combinedLI >=? Fin (-0.15)
    then Fin 20 + (combinedLI + Fin 0.05) * Fin 300
    else Math_max (Fin 1) (Fin 5 + (combinedLI + Fin 0.15) * Fin 100) in
  {| name := "Language Lateralization Index";
     value := toFixed3 combinedLI;
     percentile := Math_round (Math_max (Fin 1) (Math_min (Fin 99) percentile));
     zScore_field := None;
     details := allDetails |}.

(* ===================================================================== *)
(** ** Report parser ([parseDKTStats]) *)
(* ===================================================================== *)

(** A [string] holds the UTF-8 encoding of the JavaScript string.  The
    white space of [trim], of [/\s/] and of [parseFloat] is the
    [WhiteSpace] and [LineTerminator] of ECMAScript: U+0009 to U+000D,
    U+0020, U+00A0, U+1680, U+2000 to U+200A, U+2028, U+2029, U+202F,
    U+205F, U+3000 and U+FEFF. *)

(** The number of bytes of the white-space character at the start of
    [s]; [0] when [s] does not start with one. *)
Definition whiteSpaceLength (s : string) : nat :=
  match s with
  | String c1 rest1 =>
      let a := Ascii.N_of_ascii c1 in
      if ((9 <=? a) && (a <=? 13) || (a =? 32))%N then 1%nat
      else
        match rest1 with
        | String c2 rest2 =>
            let b := Ascii.N_of_ascii c2 in
            if ((a =? 194) && (b =? 160))%N then 2%nat
            else
              match rest2 with
              | String c3 _ =>
                  let c := Ascii.N_of_ascii c3 in
                  if (((a =? 225) && (b =? 154) && (c =? 128))
                      || ((a =? 226) && (b =? 128)
                          && ((128 <=? c) && (c <=? 138) || (c =? 168)
                              || (c =? 169) || (c =? 175)))
                      || ((a =? 226) && (b =? 129) && (c =? 159))
                      || ((a =? 227) && (b =? 128) && (c =? 128))
                      || ((a =? 239) && (b =? 187) && (c =? 191)))%N
                  then 3%nat else 0%nat
              | EmptyString => 0%nat
              end
        | EmptyString => 0%nat
        end
  | EmptyString => 0%nat
  end.

(** [s.split(sep)] for a one-character separator. *)
Fixpoint split (sep : ascii) (s : string) : list string :=
  match s with
  | EmptyString => [EmptyString]
  | String c rest =>
      if decide (c = sep) then EmptyString :: split sep rest
      else match split sep rest with
           | cur :: others => String c cur :: others
           | [] => [String c EmptyString]
           end
  end.

(** [hay.includes(needle)] *)
Fixpoint includes (needle hay : string) : bool :=
  String.prefix needle hay
  || match hay with
     | EmptyString => false
     | String _ rest => includes needle rest
     end.

(** [s.startsWith(p)] *)
Definition startsWith (p s : string) : bool := String.prefix p s.

(** [s.trimStart()]; [skip] counts the bytes still to drop of the
    white-space character being removed. *)
Fixpoint trimStart_go (skip : nat) (s : string) : string :=
  match s with
  | String c rest =>
      match skip with
      | S k => trimStart_go k rest
      | O =>
          match whiteSpaceLength s with
          | S k => trimStart_go k rest
          | O => s
          end
      end
  | EmptyString => EmptyString
  end.

Definition trimStart (s : string) : string := trimStart_go 0 s.

(** [s.trimEnd()]: the string is cut where only white space follows. *)
Fixpoint trimEnd (s : string) : string :=
  match s with
  | String c rest =>
      if String.eqb (trimStart s) EmptyString then EmptyString
      else String c (trimEnd rest)
  | EmptyString => EmptyString
  end.

(** [s.trim()] *)
Definition trim (s : string) : string := trimEnd (trimStart s).

(** [s.split(/\s+/)]: [cur] is the current piece, reversed; [inSep] says
    that the previous character was white space; [skip] counts the bytes
    still to drop of the white-space character being read. *)
Fixpoint splitWhitespace_go (skip : nat) (inSep : bool) (cur s : string)
    : list string :=
  match s with
  | EmptyString => [String.rev cur]
  | String c rest =>
      match skip with
      | S k => splitWhitespace_go k inSep cur rest
      | O =>
          match whiteSpaceLength s with
          | S k =>
              if inSep then splitWhitespace_go k true cur rest
              else String.rev cur :: splitWhitespace_go k true EmptyString rest
          | O => splitWhitespace_go 0 false (String c cur) rest
          end
      end
  end.

Definition splitWhitespace (s : string) : list string :=
  splitWhitespace_go 0 false EmptyString s.

(** [parts[i]]; an index out of range yields [undefined], which both
    [parseFloat] and a property key turn into the string ["undefined"]. *)
Definition item (parts : list string) (i : nat) : string :=
  nth i parts "undefined".

(** The longest run of decimal digits at the start of [s], and the rest. *)
Fixpoint takeDigits (s : string) : list Z * string :=
  match s with
  | String c rest =>
      match Ascii.is_nat c with
      | Some d => let '(ds, rest') := takeDigits rest in (Z.of_nat d :: ds, rest')
      | None => ([], s)
      end
  | EmptyString => ([], EmptyString)
  end.

Definition digitsValue (ds : list Z) : Z :=
  fold_left (λ acc d, 10 * acc + d)%Z ds 0%Z.

(** The value of an [ExponentPart] at the start of [s]; [0] when [s] does
    not start with a complete one. *)
Definition parseExponent (s : string) : Z :=
  match s with
  | String c rest =>
      if decide (c = "e"%char ∨ c = "E"%char) then
        let '(sgn, rest') :=
          match rest with
          | String "+"%char r => (1, r)
          | String "-"%char r => (-1, r)
          | _ => (1, rest)
          end%Z in
        match takeDigits rest' with
        | ([], _) => 0
        | (ds, _) => sgn * digitsValue ds
        end%Z
      else 0%Z
  | EmptyString => 0%Z
  end.

(** [m * 10^e] as a real number. *)
Definition scale10 (m e : Z) : R :=
  if decide (0 ≤ e)%Z then IZR (m * 10 ^ e) else (IZR m / IZR (10 ^ (- e)))%R.

(** The bounds of the binary64 range: a literal of [2^1024 - 2^970] or
    more, half-way between the largest number and [2^1024], is read as
    [Infinity]; a literal of [2^-1075] or less, half the smallest
    positive number, is read as zero. *)
Definition overflowThreshold : Z := Eval vm_compute in (2 ^ 1024 - 2 ^ 970)%Z.

Definition underflowScale : Z := Eval vm_compute in (2 ^ 1075)%Z.

Definition overflows (m e : Z) : bool :=
  if decide (0 ≤ e)%Z then (overflowThreshold <=? m * 10 ^ e)%Z
  else (overflowThreshold * 10 ^ (- e) <=? m)%Z.

Definition underflows (m e : Z) : bool :=
  if decide (0 ≤ e)%Z then (m =? 0)%Z
  else (m * underflowScale <=? 10 ^ (- e))%Z.

(** The number that the decimal literal [m * 10^e] denotes: taken exactly
    inside the binary64 range. *)
Definition decimalValue (m e : Z) : num :=
  if overflows m e then PInf
  else if underflows m e then Fin 0
  else Fin (scale10 m e).

(** [StrUnsignedDecimalLiteral]: the value of the longest prefix of [s]
    that is one, if any. *)
Definition parseUnsigned (s : string) : option num :=
  if String.prefix "Infinity" s then Some PInf
  else
    let '(intDigits, rest1) := takeDigits s in
    match rest1 with
    | String "."%char rest2 =>
        let '(fracDigits, rest3) := takeDigits rest2 in
        match intDigits, fracDigits with
        | [], [] => None
        | _, _ =>
            Some (decimalValue (digitsValue (intDigits ++ fracDigits)%list)
                    (parseExponent rest3 - Z.of_nat (length fracDigits)))
        end
    | _ =>
        match intDigits with
        | [] => None
        | _ => Some (decimalValue (digitsValue intDigits) (parseExponent rest1))
        end
    end.

(** [parseFloat(s)]: leading white space is skipped, trailing text after
    the longest numeric prefix is ignored, no numeric prefix gives [NaN]. *)
Definition parseFloat (s : string) : num :=
  let trimmed := trimStart s in
  let '(negative, body) :=
    match trimmed with
    | String "-"%char r => (true, r)
    | String "+"%char r => (false, r)
    | _ => (false, trimmed)
    end in
  match parseUnsigned body with
  | Some v => if negative : bool then - v else v
  | None => NaN
  end.

(** The mutable locals of [parseDKTStats]. *)
Record ParseState : Type := {
  st_data : gmap string DKTRegionData;
  inTable : bool;
  hasExtendedCols : bool
}.

Definition initialParseState : ParseState :=
  {| st_data := ∅; inTable := false; hasExtendedCols := false |}.

(** One iteration of [for (const line of lines)].  The mapping holds the
    own entries of [data]: the assignment [data["__proto__"] = regionData]
    sets the prototype of the object and adds no entry. *)
Definition parseLine (st : ParseState) (line : string) : ParseState :=
  if includes "ColHeaders" line then
    {| st_data := st.(st_data);
       inTable := true;
       hasExtendedCols := includes "MeanCurv" line || includes "CurvInd" line |}
  else if st.(inTable) && negb (String.eqb (trim line) "")
          && negb (startsWith "#" line) then
    let parts := splitWhitespace (trim line) in
    if (5 <=? length parts)%nat then
      let regionName := item parts 0 in
      let extended := st.(hasExtendedCols) && (10 <=? length parts)%nat in
      let curv (i : nat) : option num :=
        if extended then Some (parseFloat (item parts i)) else None in
      let regionData :=
        {| surfArea := parseFloat (item parts 2);
           volume := parseFloat (item parts 3);
           thickness := parseFloat (item parts 4);
           meanCurv := curv 6%nat;
           gausCurv := curv 7%nat;
           foldInd := curv 8%nat;
           curvInd := curv 9%nat |} in
      if String.eqb regionName "__proto__" then st
      else
        {| st_data := <[regionName := regionData]> st.(st_data);
           inTable := st.(inTable);
           hasExtendedCols := st.(hasExtendedCols) |}
    else st
  else st.

(** [parseDKTStats(content)] *)
Definition parseDKTStats (content : string) : gmap string DKTRegionData :=
  let lines := split "010"%char content in
  (fold_left parseLine lines initialParseState).(st_data).

(* ===================================================================== *)
(** ** Inputs and reference quantities used in the statements *)
(* ===================================================================== *)

(** The line separator of [content.split('\n')]. *)
Definition newline : ascii := "010"%char.

(** The data row of the end-to-end parsing scenario and its measurement. *)
Definition entorhinalRow : string :=
  "entorhinal 120 480 1600 3.20 0.30 0.05 0.02 5 1".

Definition entorhinalData : DKTRegionData :=
  {| thickness := Fin 3.20; surfArea := Fin 480; volume := Fin 1600;
     meanCurv := Some (Fin 0.05); gausCurv := Some (Fin 0.02);
     foldInd := Some (Fin 5); curvInd := Some (Fin 1) |}.

(** A ten-column header line, and a report with a junk line before it. *)
Definition extendedHeader : string :=
  "# ColHeaders StructName NumVert SurfArea GrayVol ThickAvg ThickStd MeanCurv GausCurv FoldInd CurvInd".

Definition junkThenTable : string :=
  "stray 1 2 3 4 5" +:+ String newline
    (extendedHeader +:+ String newline entorhinalRow).


(** A reference pair with finite mean and positive finite deviation. *)
Definition positiveStd (m : MeanStd) : Prop :=
  ∃ mu sigma : R, m = ms mu sigma ∧ (0 < sigma)%R.

Definition validRef (e : RefEntry) : Prop :=
  positiveStd e.(ref_thickness) ∧ positiveStd e.(ref_surfArea)
  ∧ positiveStd e.(ref_volume).

Definition validCurvRef (e : CurvRefEntry) : Prop :=
  positiveStd e.(ref_meanCurv) ∧ positiveStd e.(ref_foldInd).


(** The polynomial and the tail term of the normal-CDF approximation in
    [zToPercentile], over the reals. *)
Definition erfPoly (t : R) : R :=
  (((((1.061405429 * t + -1.453152027) * t + 1.421413741) * t
     + -0.284496736) * t + 0.254829592) * t)%R.

Definition tailTerm (a : R) : R :=
  (erfPoly (1 / (1 + 0.3275911 * a)) * exp (- a * a / 2))%R.

Definition cdfApprox (z : R) : R :=
  (0.5 * (1 + (if decide (z < 0)%R then -1 else 1) * (1 - tailTerm (Rabs z))))%R.

(** Every region of [names] lacks a measurement in one hemisphere. *)
Definition regionsMissing (lhMap rhMap : gmap string DKTRegionData)
    (names : list string) : Prop :=
  Forall (λ n, lhMap !! n = None ∨ rhMap !! n = None) names.

(** The same for the subregion maps; also true when a map is absent. *)
Definition subregionsMissing (data : DKTData) (names : list string) : Prop :=
  match data.(lhBA), data.(rhBA) with
  | Some lhBAMap, Some rhBAMap => regionsMissing lhBAMap rhBAMap names
  | _, _ => True
  end.

(** Value 0, percentile 50, no details. *)
Definition neutral (r : IndexResult) : Prop :=
  r.(value) = Fin 0 ∧ r.(percentile) = Fin 50 ∧ r.(details) = [].

(** A dataset without any region. *)
Definition emptyData : DKTData :=
  {| lh := ∅; rh := ∅; lhBA := None; rhBA := None |}.


(** The end-to-end handedness scenario for one subregion: both
    hemispheres measured, the left thickness and surface area one
    standard deviation above the reference means, the right ones at the
    means, and the folding index missing in a hemisphere. *)
Definition leftOneStdAbove (lhBAMap rhBAMap : gmap string DKTRegionData)
    (regionName : string) : Prop :=
  ∃ (ref : RefEntry) (l r : DKTRegionData),
    REFERENCE_DATA_MALE !! regionName = Some ref
    ∧ lhBAMap !! regionName = Some l ∧ rhBAMap !! regionName = Some r
    ∧ l.(thickness) = ref.(ref_thickness).(mean) + ref.(ref_thickness).(std)
    ∧ l.(surfArea) = ref.(ref_surfArea).(mean) + ref.(ref_surfArea).(std)
    ∧ r.(thickness) = ref.(ref_thickness).(mean)
    ∧ r.(surfArea) = ref.(ref_surfArea).(mean)
    ∧ (l.(foldInd) = None ∨ r.(foldInd) = None).

(** A measurement without curvature fields. *)
Definition plainRegion (t a v : R) : DKTRegionData :=
  {| thickness := Fin t; surfArea := Fin a; volume := Fin v;
     meanCurv := None; gausCurv := None; foldInd := None; curvInd := None |}.

(** A dataset for the handedness scenario. *)
Definition handednessScenarioData : DKTData :=
  {| lh := ∅; rh := ∅;
     lhBA := Some (list_to_map
               [("BA4a_exvivo", plainRegion (2.85 + 0.20) (1300 + 250) 4300);
                ("BA4p_exvivo", plainRegion (2.80 + 0.19) (1000 + 200) 2700);
                ("BA3b_exvivo", plainRegion (2.15 + 0.18) (2000 + 350) 4500)]);
     rhBA := Some (list_to_map
               [("BA4a_exvivo", plainRegion 2.85 1300 4300);
                ("BA4p_exvivo", plainRegion 2.80 1000 2700);
                ("BA3b_exvivo", plainRegion 2.15 2000 4500)]) |}.


(** *** The direct sum of the specification

    The following definitions follow the words of the specification, not
    the code: the terms [(weight, zL, zR)] of the available regions of an
    index, their direct sum [Σ weight × (zL − zR)], and the total weight
    of the available regions. *)
Definition availableTerms {C : Type} (nameOf : C → string) (weightOf : C → num)
    (zOf : C → RefEntry → DKTRegionData → DKTRegionData → num * num)
    (lhMap rhMap : gmap string DKTRegionData) (configs : list C)
    : list (num * num * num) :=
  omap (λ cfg,
          match available lhMap rhMap (nameOf cfg) with
          | Some (ref, l, r) =>
              let '(z_L, z_R) := zOf cfg ref l r in
              Some (weightOf cfg, z_L, z_R)
          | None => None
          end)
       configs.

Definition directSum (terms : list (num * num * num)) : num :=
  foldr (λ '(weight, z_L, z_R) rest, weight * (z_L - z_R) + rest)
        (Fin 0) terms.

Definition weightSum (terms : list (num * num * num)) : num :=
  foldr (λ '(weight, _, _) rest, weight + rest) (Fin 0) terms.

(** Rounding to three decimals as the two calculators do it:
    [Math.round(x * 1000) / 1000]. *)
Definition round3 (x : num) : num := Math_round (x * Fin 1000) / Fin 1000.

(** The terms of the Dominant Eye index. *)
Definition dominantEyeTerms (data : DKTData) : list (num * num * num) :=
  availableTerms fst snd
    (λ _ ref l r,
       (compositeZScore l ref (Fin 92, Fin 4, Fin 4),
        compositeZScore r ref (Fin 92, Fin 4, Fin 4)))
    data.(lh) data.(rh)
    [("pericalcarine", Fin 0.70); ("cuneus", Fin 0.15); ("lingual", Fin 0.15)].

(** The terms of the Handedness index: thickness, surface area and
    folding-index z-scores blended with the weights of the region. *)
Definition handednessTerms (lhBAMap rhBAMap : gmap string DKTRegionData)
    : list (num * num * num) :=
  availableTerms cfg_name cfg_weight
    (λ cfg ref l r,
       let '(zFold_L, zFold_R) := foldZScores cfg.(cfg_name) l r in
       (cfg.(wThick) * zScore l.(thickness) ref.(ref_thickness).(mean)
                         ref.(ref_thickness).(std)
        + cfg.(wArea) * zScore l.(surfArea) ref.(ref_surfArea).(mean)
                          ref.(ref_surfArea).(std)
        + cfg.(wThird) * zFold_L,
        cfg.(wThick) * zScore r.(thickness) ref.(ref_thickness).(mean)
                         ref.(ref_thickness).(std)
        + cfg.(wArea) * zScore r.(surfArea) ref.(ref_surfArea).(mean)
                          ref.(ref_surfArea).(std)
        + cfg.(wThird) * zFold_R))
    lhBAMap rhBAMap
    [regionConfig "BA4a_exvivo" 0.35 0.35 0.35 0.30;
     regionConfig "BA4p_exvivo" 0.35 0.35 0.35 0.30;
     regionConfig "BA3b_exvivo" 0.30 0.40 0.30 0.30].

(** A dataset whose subregion maps hold BA4a only, the left thickness
    two standard deviations above the mean. *)
Definition ba4aLeft : gmap string DKTRegionData :=
  {[ "BA4a_exvivo" := plainRegion (2.85 + 2 * 0.20) 1300 4300 ]}.

Definition ba4aRight : gmap string DKTRegionData :=
  {[ "BA4a_exvivo" := plainRegion 2.85 1300 4300 ]}.

Definition handednessBA4aOnly : DKTData :=
  {| lh := ∅; rh := ∅; lhBA := Some ba4aLeft; rhBA := Some ba4aRight |}.

(** A dataset with the pericalcarine region only, the left thickness
    [k] standard deviations above the mean. *)
Definition pericalcarineOnly (k : R) : DKTData :=
  {| lh := {[ "pericalcarine" := plainRegion (1.55 + k * 0.14) 1900 2400 ]};
     rh := {[ "pericalcarine" := plainRegion 1.55 1900 2400 ]};
     lhBA := None; rhBA := None |}.


(** Finite measurements: every number of the dataset is finite. *)
Definition finiteOption (o : option num) : Prop :=
  match o with Some a => isFinite a = true | None => True end.

Definition finiteRegion (d : DKTRegionData) : Prop :=
  isFinite d.(thickness) = true ∧ isFinite d.(surfArea) = true
  ∧ isFinite d.(volume) = true
  ∧ finiteOption d.(meanCurv) ∧ finiteOption d.(gausCurv)
  ∧ finiteOption d.(foldInd) ∧ finiteOption d.(curvInd).

Definition finiteRegions (m : gmap string DKTRegionData) : Prop :=
  map_Forall (λ _ d, finiteRegion d) m.

Definition finiteData (data : DKTData) : Prop :=
  finiteRegions data.(lh) ∧ finiteRegions data.(rh)
  ∧ from_option finiteRegions True data.(lhBA)
  ∧ from_option finiteRegions True data.(rhBA).

(** Measurements of moderate size: finite numbers of magnitude at most
    one hundred thousand, far inside the range in which binary64
    arithmetic neither overflows nor loses the summand 0.001. *)
Definition moderate (a : num) : Prop :=
  ∃ x : R, a = Fin x ∧ (Rabs x <= 100000)%R.

Definition moderateOption (o : option num) : Prop :=
  match o with Some a => moderate a | None => True end.

Definition moderateRegion (d : DKTRegionData) : Prop :=
  moderate d.(thickness) ∧ moderate d.(surfArea) ∧ moderate d.(volume)
  ∧ moderateOption d.(meanCurv) ∧ moderateOption d.(gausCurv)
  ∧ moderateOption d.(foldInd) ∧ moderateOption d.(curvInd).

Definition moderateRegions (m : gmap string DKTRegionData) : Prop :=
  map_Forall (λ _ d, moderateRegion d) m.

Definition moderateData (data : DKTData) : Prop :=
  moderateRegions data.(lh) ∧ moderateRegions data.(rh)
  ∧ from_option moderateRegions True data.(lhBA)
  ∧ from_option moderateRegions True data.(rhBA).

(** *** The contribution sums of the specification

    [ΣcontribL] and [ΣcontribR]: the sums of [weight × zL] and of
    [weight × zR] over the terms of the available regions. *)
Definition contribSumL (terms : list (num * num * num)) : num :=
  foldr (λ '(weight, z_L, _) rest, weight * z_L + rest) (Fin 0) terms.

Definition contribSumR (terms : list (num * num * num)) : num :=
  foldr (λ '(weight, _, z_R) rest, weight * z_R + rest) (Fin 0) terms.

(** The terms of the Language Output index: thickness, surface area and
    folding-index z-scores of BA44 and BA45 blended with the weights of
    the region. *)
Definition languageOutputTerms (lhBAMap rhBAMap : gmap string DKTRegionData)
    : list (num * num * num) :=
  availableTerms cfg_name cfg_weight
    (λ cfg ref l r,
       let '(zFold_L, zFold_R) := foldZScores cfg.(cfg_name) l r in
       (cfg.(wThick) * zScore l.(thickness) ref.(ref_thickness).(mean)
                         ref.(ref_thickness).(std)
        + cfg.(wArea) * zScore l.(surfArea) ref.(ref_surfArea).(mean)
                          ref.(ref_surfArea).(std)
        + cfg.(wThird) * zFold_L,
        cfg.(wThick) * zScore r.(thickness) ref.(ref_thickness).(mean)
                         ref.(ref_thickness).(std)
        + cfg.(wArea) * zScore r.(surfArea) ref.(ref_surfArea).(mean)
                          ref.(ref_surfArea).(std)
        + cfg.(wThird) * zFold_R))
    lhBAMap rhBAMap
    [regionConfig "BA44_exvivo" 0.60 0.40 0.35 0.25;
     regionConfig "BA45_exvivo" 0.40 0.40 0.35 0.25].

(** The terms of the Language Input index: thickness, surface area and
    volume z-scores of the five regions. *)
Definition languageInputTerms (data : DKTData) : list (num * num * num) :=
  availableTerms cfg_name cfg_weight
    (λ cfg ref l r,
       (cfg.(wThick) * zScore l.(thickness) ref.(ref_thickness).(mean)
                         ref.(ref_thickness).(std)
        + cfg.(wArea) * zScore l.(surfArea) ref.(ref_surfArea).(mean)
                          ref.(ref_surfArea).(std)
        + cfg.(wThird) * zScore l.(volume) ref.(ref_volume).(mean)
                           ref.(ref_volume).(std),
        cfg.(wThick) * zScore r.(thickness) ref.(ref_thickness).(mean)
                         ref.(ref_thickness).(std)
        + cfg.(wArea) * zScore r.(surfArea) ref.(ref_surfArea).(mean)
                          ref.(ref_surfArea).(std)
        + cfg.(wThird) * zScore r.(volume) ref.(ref_volume).(mean)
                           ref.(ref_volume).(std)))
    data.(lh) data.(rh) DKT_LANGUAGE_INPUT_REGIONS.

(** The value [v] is within 0.001 of the ratio
    [(ΣcontribL - ΣcontribR) / (|ΣcontribL| + |ΣcontribR| + 0.001)] of
    the contribution sums of [terms]; the sums are finite, the ratio lies
    strictly between -1 and 1 and [v] between -1 and 1. *)
Definition ratioWithin (terms : list (num * num * num)) (v : num) : Prop :=
  ∃ sL sR x : R,
    contribSumL terms = Fin sL ∧ contribSumR terms = Fin sR
    ∧ (-1 < (sL - sR) / (Rabs sL + Rabs sR + 0.001) < 1)%R
    ∧ v = Fin x
    ∧ (Rabs (x - (sL - sR) / (Rabs sL + Rabs sR + 0.001)) <= 0.001)%R
    ∧ (-1 <= x <= 1)%R.

(** The three numbers of a term are finite and the weight is not
    negative. *)
Definition finiteTerm (term : num * num * num) : Prop :=
  ∃ w zl zr : R, term = (Fin w, Fin zl, Fin zr) ∧ (0 <= w)%R.

(** A value is the three-decimal rounding of a lateralization ratio
    that lies strictly between -1 and 1, and itself lies in [-1, 1]. *)
Definition roundedRatio (v : num) : Prop :=
  ∃ sumContribL sumContribR li x : R,
    lateralizationRatio (Fin sumContribL) (Fin sumContribR) = Fin li
    ∧ li = ((sumContribL - sumContribR)
            / (Rabs sumContribL + Rabs sumContribR + 0.001))%R
    ∧ (-1 < li < 1)%R
    ∧ v = toFixed3 (Fin li)
    ∧ v = Fin x ∧ (-1 <= x <= 1)%R.

(** Datasets with the Broca subregion BA44 only, without folding index:
    surface area and volume at the reference means, the left thickness
    [kL] and the right thickness [kR] reference deviations above the
    mean. *)
Definition ba44Thickness (k : R) : gmap string DKTRegionData :=
  {[ "BA44_exvivo" := plainRegion (2.80 + k * 0.18) 1650 5200 ]}.

Definition ba44Only (kL kR : R) : DKTData :=
  {| lh := ∅; rh := ∅;
     lhBA := Some (ba44Thickness kL); rhBA := Some (ba44Thickness kR) |}.

(** A dataset with the superior temporal region only, the left thickness
    ten standard deviations above the mean. *)
Definition superiorTemporalOnly : DKTData :=
  {| lh := {[ "superiortemporal" := plainRegion (2.85 + 10 * 0.20) 5800 19000 ]};
     rh := {[ "superiortemporal" := plainRegion 2.85 5800 19000 ]};
     lhBA := None; rhBA := None |}.


(** A measurement whose thickness or surface area is [NaN], as left by
    [parseFloat] on a non-numeric token. *)
Definition nanMeasurement (d : DKTRegionData) : Prop :=
  d.(thickness) = NaN ∨ d.(surfArea) = NaN.

(** One of the regions [names] is measured in both hemispheres and has a
    [NaN] measurement in one of them. *)
Definition hasNaNRegion (lhMap rhMap : gmap string DKTRegionData)
    (names : list string) : Prop :=
  ∃ (n : string) (l r : DKTRegionData),
    n ∈ names ∧ lhMap !! n = Some l ∧ rhMap !! n = Some r
    ∧ (nanMeasurement l ∨ nanMeasurement r).

(** The same for the subregion maps, when both are present. *)
Definition hasNaNSubregion (data : DKTData) (names : list string) : Prop :=
  ∃ lhBAMap rhBAMap : gmap string DKTRegionData,
    data.(lhBA) = Some lhBAMap ∧ data.(rhBA) = Some rhBAMap
    ∧ hasNaNRegion lhBAMap rhBAMap names.

(** Value and percentile are both [NaN]. *)
Definition poisoned (res : IndexResult) : Prop :=
  res.(value) = NaN ∧ res.(percentile) = NaN.

(** A measurement whose thickness token was not numeric. *)
Definition nanThickness (a v : R) : DKTRegionData :=
  {| thickness := NaN; surfArea := Fin a; volume := Fin v;
     meanCurv := None; gausCurv := None; foldInd := None; curvInd := None |}.

(** Two olfactory regions measured, entorhinal with a [NaN] left
    thickness; and the same dataset without the entorhinal region. *)
Definition nanEntorhinalData : DKTData :=
  {| lh := <[ "entorhinal" := nanThickness 480 1600 ]>
             {[ "parahippocampal" := plainRegion (2.75 + 0.22) 700 2200 ]};
     rh := <[ "entorhinal" := plainRegion 3.20 480 1600 ]>
             {[ "parahippocampal" := plainRegion 2.75 700 2200 ]};
     lhBA := None; rhBA := None |}.

Definition parahippocampalOnly : DKTData :=
  {| lh := {[ "parahippocampal" := plainRegion (2.75 + 0.22) 700 2200 ]};
     rh := {[ "parahippocampal" := plainRegion 2.75 700 2200 ]};
     lhBA := None; rhBA := None |}.

(** Loop invariants on [(totalIndex, totalWeight, details)]: the total
    weight is a non-negative number before the region with the [NaN]
    measurement is reached; from there on the total index is [NaN] and
    the total weight is positive. *)
Definition weightNonneg (acc : num * num * list RegionDetail) : Prop :=
  ∃ w : R, acc.1.2 = Fin w ∧ (0 <= w)%R.

Definition totalNaN (acc : num * num * list RegionDetail) : Prop :=
  acc.1.1 = NaN ∧ ∃ w : R, acc.1.2 = Fin w ∧ (0 < w)%R.


(** *** Notions used by the further properties *)

(** A number that is an integer between [lo] and [hi]. *)
Definition integerBetween (lo hi : Z) (a : num) : Prop :=
  ∃ n : Z, a = Fin (IZR n) ∧ (lo ≤ n ≤ hi)%Z.

(** The dataset [superiorTemporalOnly] with a pericalcarine measurement
    added to both hemispheres. *)
Definition superiorTemporalWithPericalcarine : DKTData :=
  {| lh := <[ "pericalcarine" := plainRegion (1.55 + 0.14) 1900 2400 ]>
             superiorTemporalOnly.(lh);
     rh := <[ "pericalcarine" := plainRegion 1.55 1900 2400 ]>
             superiorTemporalOnly.(rh);
     lhBA := None; rhBA := None |}.

(** Two datasets hold the same measurements for the regions [names]. *)
Definition sameRegions (data data' : DKTData) (names : list string) : Prop :=
  Forall (λ n, data.(lh) !! n = data'.(lh) !! n
               ∧ data.(rh) !! n = data'.(rh) !! n) names.

(** The labels of the pairs [(region, label)] whose region passes the
    guard of the loops, in order. *)
Definition availableLabels (lhMap rhMap : gmap string DKTRegionData)
    (pairs : list (string * string)) : list string :=
  omap (λ p, match available lhMap rhMap p.1 with
             | Some _ => Some p.2
             | None => None
             end) pairs.

(** The regions of [names] that pass the guard, in order. *)
Definition availableNames (lhMap rhMap : gmap string DKTRegionData)
    (names : list string) : list string :=
  availableLabels lhMap rhMap (map (λ n, (n, n)) names).

(** The same for the subregion maps; nothing when one of them is absent. *)
Definition availableSubregionLabels (data : DKTData)
    (pairs : list (string * string)) : list string :=
  match data.(lhBA), data.(rhBA) with
  | Some lhBAMap, Some rhBAMap => availableLabels lhBAMap rhBAMap pairs
  | _, _ => []
  end.

(** The region names of a detail list. *)
Definition detailRegions (res : IndexResult) : list string :=
  map region res.(details).

(** The dataset with the two hemispheres exchanged. *)
Definition swapHemispheres (data : DKTData) : DKTData :=
  {| lh := data.(rh); rh := data.(lh);
     lhBA := data.(rhBA); rhBA := data.(lhBA) |}.

(** The curvature fields of a measurement are all present or all
    absent. *)
Definition curvatureAllOrNone (d : DKTRegionData) : Prop :=
  (is_Some d.(meanCurv) ∧ is_Some d.(gausCurv)
   ∧ is_Some d.(foldInd) ∧ is_Some d.(curvInd))
  ∨ (d.(meanCurv) = None ∧ d.(gausCurv) = None
     ∧ d.(foldInd) = None ∧ d.(curvInd) = None).

Definition noCurvature (d : DKTRegionData) : Prop :=
  d.(meanCurv) = None ∧ d.(gausCurv) = None
  ∧ d.(foldInd) = None ∧ d.(curvInd) = None.

(** The tokens of a line, as [parseLine] splits it. *)
Definition lineTokens (line : string) : list string :=
  splitWhitespace (trim line).

(** A token without a numeric prefix: it is empty, or its first
    character is no white space, no digit, no sign, no point and not the
    first letter of [Infinity]. *)
Definition nonNumeric (token : string) : Prop :=
  match token with
  | String c _ =>
      whiteSpaceLength token = 0%nat
      ∧ Ascii.is_nat c = None
      ∧ c ≠ "+"%char ∧ c ≠ "-"%char ∧ c ≠ "."%char ∧ c ≠ "I"%char
  | EmptyString => True
  end.

(** A line that [parseLine] stores as a data row once the table has
    started: not a header, not blank, not a comment, five tokens, and a
    first token other than [__proto__]. *)
Definition isDataRow (line : string) : Prop :=
  includes "ColHeaders" line = false
  ∧ String.eqb (trim line) "" = false
  ∧ startsWith "#" line = false
  ∧ (5 ≤ length (lineTokens line))%nat
  ∧ item (lineTokens line) 0 ≠ "__proto__".

(** A line that is skipped in every state: blank, or a comment that is
    not a header. *)
Definition isSkippedLine (line : string) : Prop :=
  includes "ColHeaders" line = false
  ∧ (String.eqb (trim line) "" = true ∨ startsWith "#" line = true).

#[global] Instance isSkippedLine_dec (line : string) :
  Decision (isSkippedLine line).
Proof. unfold isSkippedLine. apply _. Defined.

(** A report with a header, a row for [entorhinal], and a later row for
    the same region. *)
Definition duplicateRowReport : string :=
  extendedHeader +:+ String newline
    ("entorhinal 1 2 3 4 5" +:+ String newline entorhinalRow).

(** A report with comment and blank lines around the row. *)
Definition commentedReport : string :=
  "# CreationTime 2024" +:+ String newline
    (extendedHeader +:+ String newline
       ("" +:+ String newline
          ("# a remark" +:+ String newline entorhinalRow))).

(** A report in six-column mode whose row nevertheless has ten tokens. *)
Definition sixColumnReport : string :=
  "# ColHeaders StructName NumVert SurfArea GrayVol ThickAvg ThickStd"
    +:+ String newline entorhinalRow.

(** A measurement that equals the reference means of its region. *)
Definition atReferenceMeans (ref : RefEntry) (d : DKTRegionData) : Prop :=
  d.(thickness) = ref.(ref_thickness).(mean)
  ∧ d.(surfArea) = ref.(ref_surfArea).(mean)
  ∧ d.(volume) = ref.(ref_volume).(mean).

(** The folding index, where the region has a curvature reference and
    the measurement has the field, equals the reference mean. *)
Definition foldAtReference (regionName : string) (d : DKTRegionData) : Prop :=
  match BA_CURVATURE_REFERENCE !! regionName, d.(foldInd) with
  | Some curvRef, Some f => f = curvRef.(ref_foldInd).(mean)
  | _, _ => True
  end.

Definition regionsAtReference (m : gmap string DKTRegionData) : Prop :=
  ∀ regionName ref d,
    REFERENCE_DATA_MALE !! regionName = Some ref →
    m !! regionName = Some d →
    atReferenceMeans ref d ∧ foldAtReference regionName d.

(** Every measured region that has a reference entry is at the
    reference means; regions may be missing. *)
Definition dataAtReference (data : DKTData) : Prop :=
  regionsAtReference data.(lh) ∧ regionsAtReference data.(rh)
  ∧ from_option regionsAtReference True data.(lhBA)
  ∧ from_option regionsAtReference True data.(rhBA).

(** The measurement made of the reference means, without curvature. *)
Definition referenceRegion (ref : RefEntry) : DKTRegionData :=
  {| thickness := ref.(ref_thickness).(mean);
     surfArea := ref.(ref_surfArea).(mean);
     volume := ref.(ref_volume).(mean);
     meanCurv := None; gausCurv := None; foldInd := None; curvInd := None |}.

(** The dataset in which every region of the reference table is measured
    at its means in both hemispheres. *)
Definition referenceData : DKTData :=
  {| lh := referenceRegion <$> REFERENCE_DATA_MALE;
     rh := referenceRegion <$> REFERENCE_DATA_MALE;
     lhBA := Some (referenceRegion <$> REFERENCE_DATA_MALE);
     rhBA := Some (referenceRegion <$> REFERENCE_DATA_MALE) |}.

(** The z-score of [x] against [m] lies between [a] and [b]: [x] is a
    finite number between [mean + a × std] and [mean + b × std]. *)
Definition zWithin (a b : R) (m : MeanStd) (x : num) : Prop :=
  ∃ mu sigma t : R,
    m = ms mu sigma ∧ x = Fin t
    ∧ (mu + a * sigma <= t <= mu + b * sigma)%R.

(** Thickness, surface area and volume of a measurement all lie between
    [a] and [b] reference deviations from the reference means. *)
Definition withinDeviations (a b : R) (ref : RefEntry) (d : DKTRegionData)
    : Prop :=
  zWithin a b ref.(ref_thickness) d.(thickness)
  ∧ zWithin a b ref.(ref_surfArea) d.(surfArea)
  ∧ zWithin a b ref.(ref_volume) d.(volume).

Definition regionsWithinDeviations (a b : R) (m : gmap string DKTRegionData)
    : Prop :=
  ∀ regionName ref d,
    REFERENCE_DATA_MALE !! regionName = Some ref →
    m !! regionName = Some d →
    withinDeviations a b ref d.

Definition dataWithinDeviations (a b : R) (data : DKTData) : Prop :=
  regionsWithinDeviations a b data.(lh)
  ∧ regionsWithinDeviations a b data.(rh)
  ∧ from_option (regionsWithinDeviations a b) True data.(lhBA)
  ∧ from_option (regionsWithinDeviations a b) True data.(rhBA).

(** The measurement [k] deviations above the means, without curvature. *)
Definition deviatedRegion (k : R) (ref : RefEntry) : DKTRegionData :=
  {| thickness :=
       (ref.(ref_thickness).(mean) + Fin k * ref.(ref_thickness).(std))%num;
     surfArea :=
       (ref.(ref_surfArea).(mean) + Fin k * ref.(ref_surfArea).(std))%num;
     volume :=
       (ref.(ref_volume).(mean) + Fin k * ref.(ref_volume).(std))%num;
     meanCurv := None; gausCurv := None; foldInd := None; curvInd := None |}.

(** A dataset [k] deviations above the means in which the right
    hemisphere lacks [fusiform] and [precuneus] and the subregion maps
    are absent: the coverage of the indices is partial. *)
Definition deviatedPartialData (k : R) : DKTData :=
  {| lh := deviatedRegion k <$> REFERENCE_DATA_MALE;
     rh := delete "fusiform"
             (delete "precuneus" (deviatedRegion k <$> REFERENCE_DATA_MALE));
     lhBA := None; rhBA := None |}.

(** [Math.round(x * 100) / 100] *)
Definition round2 (x : num) : num := (Math_round (x * Fin 100) / Fin 100)%num.

(** The region weight of a configuration as a real number. *)
Definition pairWeight (cfg : string * num) : R :=
  match cfg.2 with Fin w => w | _ => 0%R end.

Definition configWeight (cfg : RegionConfig) : R :=
  match cfg.(cfg_weight) with Fin w => w | _ => 0%R end.


(** [d'] is at least [d] in thickness, surface area and volume, all of
    them finite. *)
Definition measurementLe (d d' : DKTRegionData) : Prop :=
  ∃ t a v t' a' v' : R,
    d.(thickness) = Fin t ∧ d.(surfArea) = Fin a ∧ d.(volume) = Fin v
    ∧ d'.(thickness) = Fin t' ∧ d'.(surfArea) = Fin a'
    ∧ d'.(volume) = Fin v'
    ∧ (t <= t')%R ∧ (a <= a')%R ∧ (v <= v')%R.

(** Two maps with the same regions, the measurements of the second at
    least those of the first. *)
Definition regionsLe (m m' : gmap string DKTRegionData) : Prop :=
  ∀ regionName,
    match m !! regionName, m' !! regionName with
    | Some d, Some d' => measurementLe d d'
    | None, None => True
    | _, _ => False
    end.

Definition subregionsLe (o o' : option (gmap string DKTRegionData)) : Prop :=
  match o, o' with
  | Some m, Some m' => regionsLe m m'
  | None, None => True
  | _, _ => False
  end.

Definition dataLe (data data' : DKTData) : Prop :=
  regionsLe data.(lh) data'.(lh) ∧ regionsLe data.(rh) data'.(rh)
  ∧ subregionsLe data.(lhBA) data'.(lhBA)
  ∧ subregionsLe data.(rhBA) data'.(rhBA).

(** Value and percentile of [res] are at most those of [res'], by the
    comparison of the code (false on [NaN]). *)
Definition resultLe (res res' : IndexResult) : Prop :=
  (res.(value) <=? res'.(value)) = true
  ∧ (res.(percentile) <=? res'.(percentile)) = true.

(** The dataset [superiorTemporalOnly] with the right hemisphere one
    deviation thicker. *)
Definition superiorTemporalThicker : DKTData :=
  {| lh := {[ "superiortemporal" := plainRegion (2.85 + 10 * 0.20) 5800 19000 ]};
     rh := {[ "superiortemporal" := plainRegion (2.85 + 0.20) 5800 19000 ]};
     lhBA := None; rhBA := None |}.

(** The relation kept by the loops with a total index and a total
    weight: the same finite weight, the totals in order. *)
Definition weightedLe (acc acc' : num * num * list RegionDetail) : Prop :=
  ∃ t t' W : R, acc.1 = (Fin t, Fin W) ∧ acc'.1 = (Fin t', Fin W)
                ∧ (t <= t')%R ∧ (0 <= W)%R.


(* ===================================================================== *)
(** * Properties *)
(* ===================================================================== *)

(** ** Arithmetic of [num] *)

#[global] Arguments neg : simpl never.
#[global] Arguments add : simpl never.
#[global] Arguments sub : simpl never.
#[global] Arguments mul : simpl never.
#[global] Arguments div : simpl never.
#[global] Arguments ltb : simpl never.
#[global] Arguments leb : simpl never.
#[global] Arguments gtb : simpl never.
#[global] Arguments geb : simpl never.
#[global] Arguments Math_abs : simpl never.
#[global] Arguments Math_round : simpl never.
#[global] Arguments Math_min : simpl never.
#[global] Arguments Math_max : simpl never.
#[global] Arguments Math_exp : simpl never.
#[global] Arguments toFixed3 : simpl never.

Section NumFacts.
#[local] Open Scope R_scope.

Lemma add_Fin (x y : R) : (Fin x + Fin y)%num = Fin (x + y).
Proof. reflexivity. Qed.

Lemma sub_Fin (x y : R) : (Fin x - Fin y)%num = Fin (x - y).
Proof. reflexivity. Qed.

Lemma mul_Fin (x y : R) : (Fin x * Fin y)%num = Fin (x * y).
Proof. reflexivity. Qed.

Lemma neg_Fin (x : R) : (- Fin x)%num = Fin (- x).
Proof. reflexivity. Qed.

Lemma Math_abs_Fin (x : R) : Math_abs (Fin x) = Fin (Rabs x).
Proof. reflexivity. Qed.

Lemma Math_exp_Fin (x : R) : Math_exp (Fin x) = Fin (exp x).
Proof. reflexivity. Qed.

Lemma add_NaN_l (a : num) : (NaN + a)%num = NaN.
Proof. reflexivity. Qed.

Lemma add_NaN_r (a : num) : (a + NaN)%num = NaN.
Proof. by destruct a. Qed.

Lemma sub_NaN_l (a : num) : (NaN - a)%num = NaN.
Proof. reflexivity. Qed.

Lemma sub_NaN_r (a : num) : (a - NaN)%num = NaN.
Proof. by destruct a. Qed.

Lemma mul_NaN_l (a : num) : (NaN * a)%num = NaN.
Proof. reflexivity. Qed.

Lemma mul_NaN_r (a : num) : (a * NaN)%num = NaN.
Proof. by destruct a. Qed.

Lemma div_NaN_l (a : num) : (NaN / a)%num = NaN.
Proof. reflexivity. Qed.

Lemma div_NaN_r (a : num) : (a / NaN)%num = NaN.
Proof. by destruct a. Qed.

Lemma div_Fin (x y : R) : y ≠ 0 → (Fin x / Fin y)%num = Fin (x / y).
Proof. intros Hy. unfold div. by rewrite decide_False. Qed.

Lemma div_zero_not_finite (a : num) : isFinite (a / Fin 0)%num = false.
Proof.
  destruct a as [| | |x]; unfold div; try done.
  - by case_decide.
  - by case_decide.
  - rewrite decide_True by done. by repeat case_decide.
Qed.

Lemma ltb_Fin (x y : R) : (Fin x <? Fin y)%num = bool_decide (x < y).
Proof. reflexivity. Qed.

Lemma leb_Fin (x y : R) : (Fin x <=? Fin y)%num = bool_decide (x <= y).
Proof. reflexivity. Qed.

Lemma geb_Fin (x y : R) : (Fin x >=? Fin y)%num = bool_decide (y <= x).
Proof. reflexivity. Qed.

Lemma gtb_Fin (x y : R) : (Fin x >? Fin y)%num = bool_decide (y < x).
Proof. reflexivity. Qed.

Lemma Math_round_Fin (x : R) (n : Z) :
  IZR n <= x + 1 / 2 < IZR n + 1 → Math_round (Fin x) = Fin (IZR n).
Proof. intros H. unfold Math_round. by rewrite (Zfloor_eq n). Qed.

Lemma Math_min_Fin (x y : R) :
  Math_min (Fin x) (Fin y) = Fin (Rmin x y).
Proof.
  unfold Math_min, ltb, Rmin. case_bool_decide; destruct (Rle_dec x y);
    try done; f_equal; lra.
Qed.

Lemma Math_max_Fin (x y : R) :
  Math_max (Fin x) (Fin y) = Fin (Rmax x y).
Proof.
  unfold Math_max, gtb, ltb, Rmax. case_bool_decide; destruct (Rle_dec x y);
    try done; f_equal; lra.
Qed.
End NumFacts.

Create Rewrite HintDb num_eval.
#[global] Hint Rewrite add_Fin sub_Fin mul_Fin neg_Fin Math_abs_Fin
  Math_exp_Fin ltb_Fin leb_Fin geb_Fin gtb_Fin Math_min_Fin Math_max_Fin
  add_NaN_l add_NaN_r sub_NaN_l sub_NaN_r mul_NaN_l mul_NaN_r
  div_NaN_l div_NaN_r : num_eval.

(** Decide the comparisons of real constants met while evaluating. *)
Ltac decide_reals :=
  repeat match goal with
    | |- context [bool_decide ?P] =>
        first [ rewrite (bool_decide_eq_true_2 P) by lra
              | rewrite (bool_decide_eq_false_2 P) by lra ]
    | |- context [@decide ?P ?d] =>
        first [ rewrite (@decide_True _ P d) by lra
              | rewrite (@decide_False _ P d) by lra ]
    end.

(** Divisions by a real constant other than zero. *)
Ltac divide_reals :=
  repeat match goal with
    | |- context [(Fin ?x / Fin ?y)%num] => rewrite (div_Fin x y) by lra
    end.

(** Evaluate an expression over finite constants down to [Fin _]. *)
Ltac num_eval :=
  repeat (progress (autorewrite with num_eval; decide_reals; divide_reals)).

(** [Rmin], [Rmax] and [Rabs] of real constants. *)
Ltac split_reals :=
  repeat match goal with
    | |- context [Rmax ?x ?y] =>
        first [ rewrite (Rmax_left x y) by lra
              | rewrite (Rmax_right x y) by lra ]
    | |- context [Rmin ?x ?y] =>
        first [ rewrite (Rmin_left x y) by lra
              | rewrite (Rmin_right x y) by lra ]
    | |- context [Rabs ?x] =>
        first [ rewrite (Rabs_pos_eq x) by lra
              | rewrite (Rabs_left x) by lra ]
    end.

(* ===================================================================== *)
(** ** Report parser *)
(* ===================================================================== *)

Section Parser.

Lemma split_nonempty (sep : ascii) (s : string) : split sep s ≠ [].
Proof.
  induction s as [|c s IH]; simpl; [done|].
  case_decide; [done|]. by destruct (split sep s).
Qed.

(** Splitting distributes over a separator in the middle. *)
Lemma split_app_sep (sep : ascii) (a b : string) :
  split sep (a +:+ String sep b) = (split sep a ++ split sep b)%list.
Proof.
  induction a as [|c a IH]; simpl.
  - by rewrite decide_True.
  - case_decide; [by rewrite IH|].
    rewrite IH. pose proof (split_nonempty sep a).
    by destruct (split sep a).
Qed.

(** Lines without the marker leave the initial state untouched. *)
Lemma fold_parseLine_no_header (pre : list string) :
  Forall (λ line, includes "ColHeaders" line = false) pre →
  fold_left parseLine pre initialParseState = initialParseState.
Proof.
  induction 1 as [|line pre Hline _ IH]; simpl; [done|].
  unfold parseLine at 2. by rewrite Hline.
Qed.

(** A row with fewer than five tokens is dropped. *)
Lemma parseLine_short_row (st : ParseState) (line : string) :
  includes "ColHeaders" line = false →
  (length (splitWhitespace (trim line)) < 5)%nat →
  parseLine st line = st.
Proof.
  intros Hhdr Hlen. unfold parseLine. rewrite Hhdr.
  destruct (_ && _); [|done].
  by rewrite (proj2 (Nat.leb_gt _ _)).
Qed.

(** A token that does not start with a digit, a sign, a point, the
    letter of [Infinity] or white space has no numeric prefix. *)
Lemma parseFloat_nonNumeric (token : string) :
  nonNumeric token → parseFloat token = NaN.
Proof.
  destruct token as [|c rest]; [done|].
  intros (Hspace & Hdigit & Hplus & Hminus & Hpoint & Hinf).
  unfold parseFloat, trimStart. cbn [trimStart_go]. rewrite Hspace.

  destruct c as [[] [] [] [] [] [] [] []]; try done.
Qed.

(** The effect of a data row inside the table. *)
Lemma parseLine_dataRow (st : ParseState) (line : string) :
  st.(inTable) = true → isDataRow line →
  ∃ d, (parseLine st line).(st_data)
       = <[item (lineTokens line) 0 := d]> st.(st_data)
    ∧ d.(surfArea) = parseFloat (item (lineTokens line) 2)
    ∧ d.(volume) = parseFloat (item (lineTokens line) 3)
    ∧ d.(thickness) = parseFloat (item (lineTokens line) 4).
Proof.
  intros Hin (Hh & Hblank & Hcomment & Hlen & Hname).
  unfold parseLine. rewrite Hh, Hin, Hblank, Hcomment. cbn [negb andb].
  fold (lineTokens line).
  rewrite (proj2 (Nat.leb_le _ _) Hlen).
  rewrite (proj2 (String.eqb_neq _ _) Hname). eexists. by split.
Qed.

(** Before the marker has been seen no line changes the state. *)
Lemma parseLine_outside_table (st : ParseState) (line : string) :
  includes "ColHeaders" line = false →
  st.(inTable) = false →
  parseLine st line = st.
Proof. intros Hhdr Hout. unfold parseLine. by rewrite Hhdr, Hout. Qed.

End Parser.

(** C7.  A report made of a single header line that contains [ColHeaders]
    and [MeanCurv], followed by the data row
    [entorhinal 120 480 1600 3.20 0.30 0.05 0.02 5 1], parses to the
    mapping with the one key [entorhinal], whose measurement has thickness
    3.20 (token 4), surface area 480 (token 2), volume 1600 (token 3),
    mean curvature 0.05 (token 6), Gaussian curvature 0.02 (token 7),
    folding index 5 (token 8) and curvature index 1 (token 9). *)
Theorem parseDKTStats_entorhinal_row (header : string) :
  split newline header = [header] →
  includes "ColHeaders" header = true →
  includes "MeanCurv" header = true →
  parseDKTStats (header +:+ String newline entorhinalRow)
  = {[ "entorhinal" := entorhinalData ]}.
Proof.
  intros Hline Hcol Hcurv. unfold parseDKTStats.
  fold newline. rewrite split_app_sep, Hline. simpl.
  unfold parseLine at 2. rewrite Hcol, Hcurv. simpl.
  reflexivity.
Qed.

Lemma parseDKTStats_entorhinal_row_witness :
  parseDKTStats (extendedHeader +:+ String newline entorhinalRow)
  = {[ "entorhinal" := entorhinalData ]}.
Proof.
  apply (parseDKTStats_entorhinal_row extendedHeader); reflexivity.
Defined.

(** C9.  [parseDKTStats] is a total function of its input text: whatever
    the text, it returns a mapping.  The lines that precede the first line
    containing [ColHeaders] contribute nothing: the result is the one
    obtained from the remaining lines alone (the empty mapping when no
    line contains the marker).  A row with fewer than five tokens is
    skipped.  A field that does not start with a digit, a sign, a point or
    [Infinity] is read as [NaN], and the row that holds it is stored like
    any other: a row of five tokens or more inside the table always
    leaves an entry under its first token (unless that is [__proto__]). *)
Theorem parseDKTStats_total_header_gated (content : string) :
  (∀ pre rest : list string,
     split newline content = (pre ++ rest)%list →
     Forall (λ line, includes "ColHeaders" line = false) pre →
     parseDKTStats content
     = (fold_left parseLine rest initialParseState).(st_data))
  ∧ (Forall (λ line, includes "ColHeaders" line = false)
       (split newline content) →
     parseDKTStats content = ∅)
  ∧ (∀ (st : ParseState) (line : string),
       includes "ColHeaders" line = false →
       (length (splitWhitespace (trim line)) < 5)%nat →
       parseLine st line = st)
  ∧ (∀ token : string, nonNumeric token → parseFloat token = NaN)
  ∧ (∀ (st : ParseState) (line : string),
       st.(inTable) = true → isDataRow line →
       ∃ d, (parseLine st line).(st_data) !! item (lineTokens line) 0
            = Some d
         ∧ d.(surfArea) = parseFloat (item (lineTokens line) 2)
         ∧ d.(volume) = parseFloat (item (lineTokens line) 3)
         ∧ d.(thickness) = parseFloat (item (lineTokens line) 4)).
Proof.
  split; [|split; [|split; [|split]]].
  - intros pre rest Hsplit Hpre. unfold parseDKTStats. fold newline.
    by rewrite Hsplit, fold_left_app, fold_parseLine_no_header.
  - intros Hall. unfold parseDKTStats. fold newline.
    by rewrite fold_parseLine_no_header.
  - apply parseLine_short_row.
  - apply parseFloat_nonNumeric.
  - intros st line Hin Hrow.
    destruct (parseLine_dataRow st line Hin Hrow) as (d & Hd & Hfields).
    exists d. split; [|done]. rewrite Hd. apply lookup_insert_eq.
Qed.

Lemma parseDKTStats_total_header_gated_witness :
  parseDKTStats junkThenTable = {[ "entorhinal" := entorhinalData ]}.
Proof.
  destruct (parseDKTStats_total_header_gated junkThenTable) as [Hgate _].
  rewrite (Hgate ["stray 1 2 3 4 5"] [extendedHeader; entorhinalRow]).
  - reflexivity.
  - reflexivity.
  - repeat constructor.
Defined.

(* ===================================================================== *)
(** ** Z-scores and the reference tables *)
(* ===================================================================== *)

Section ReferenceTables.
#[local] Open Scope R_scope.

Lemma positiveStd_ms (mu sigma : R) : 0 < sigma → positiveStd (ms mu sigma).
Proof. intros. by exists mu, sigma. Qed.

Lemma REFERENCE_DATA_MALE_entries_valid :
  Forall (λ e, validRef e.2) REFERENCE_DATA_MALE_entries.
Proof.
  unfold REFERENCE_DATA_MALE_entries.
  repeat (apply Forall_cons; split;
          [repeat split; apply positiveStd_ms; lra|]).
  apply Forall_nil_2.
Qed.

Lemma BA_CURVATURE_REFERENCE_entries_valid :
  Forall (λ e, validCurvRef e.2) BA_CURVATURE_REFERENCE_entries.
Proof.
  unfold BA_CURVATURE_REFERENCE_entries.
  repeat (apply Forall_cons; split;
          [repeat split; apply positiveStd_ms; lra|]).
  apply Forall_nil_2.
Qed.

Lemma REFERENCE_DATA_MALE_valid (regionName : string) (ref : RefEntry) :
  REFERENCE_DATA_MALE !! regionName = Some ref → validRef ref.
Proof.
  intros Hin%elem_of_list_to_map_2.
  by apply (proj1 (Forall_forall _ _) REFERENCE_DATA_MALE_entries_valid
              (regionName, ref)).
Qed.

Lemma BA_CURVATURE_REFERENCE_valid (regionName : string)
    (ref : CurvRefEntry) :
  BA_CURVATURE_REFERENCE !! regionName = Some ref → validCurvRef ref.
Proof.
  intros Hin%elem_of_list_to_map_2.
  by apply (proj1 (Forall_forall _ _) BA_CURVATURE_REFERENCE_entries_valid
              (regionName, ref)).
Qed.

(** A z-score against a valid reference pair is the real quotient. *)
Lemma zScore_positiveStd (x : R) (m : MeanStd) :
  positiveStd m →
  ∃ mu sigma, m = ms mu sigma ∧ 0 < sigma
    ∧ zScore (Fin x) m.(mean) m.(std) = Fin ((x - mu) / sigma).
Proof.
  intros (mu & sigma & -> & Hpos). exists mu, sigma.
  repeat split; [done|]. unfold zScore. simpl.
  rewrite sub_Fin, div_Fin; [done|lra].
Qed.

End ReferenceTables.

(** C2, counterexample.  [zScore] called with [std = 0] does not fail: it
    returns [+Infinity], [-Infinity] or [NaN]. *)
Lemma zScore_zero_std_returns_a_value :
  zScore (Fin 1) (Fin 0) (Fin 0) = PInf
  ∧ zScore (Fin (-1)) (Fin 0) (Fin 0) = NInf
  ∧ zScore (Fin 0) (Fin 0) (Fin 0) = NaN.
Proof.
  unfold zScore. rewrite !sub_Fin. unfold div.
  repeat split; decide_reals; reflexivity.
Qed.

(** C2, as amended.  [zScore] with [std = 0] returns a value that is never
    finite (an infinity or [NaN]) instead of failing, whatever the value
    and the mean, and nothing validates the reference tables when they
    are loaded; but every entry of [REFERENCE_DATA_MALE] and of
    [BA_CURVATURE_REFERENCE] has positive finite standard deviations, so
    with these tables no z-score divides by zero. *)
Theorem zScore_zero_std_not_finite_tables_positive :
  (∀ value mean : num, isFinite (zScore value mean (Fin 0)) = false)
  ∧ map_Forall (λ _ ref, validRef ref) REFERENCE_DATA_MALE
  ∧ map_Forall (λ _ ref, validCurvRef ref) BA_CURVATURE_REFERENCE.
Proof.
  split; [|split].
  - intros value mu. apply div_zero_not_finite.
  - intros k ref Hk. apply (REFERENCE_DATA_MALE_valid k ref Hk).
  - intros k ref Hk. apply (BA_CURVATURE_REFERENCE_valid k ref Hk).
Qed.

(* ===================================================================== *)
(** ** The percentile converter on finite arguments *)
(* ===================================================================== *)

Section PercentileFormula.
#[local] Open Scope R_scope.

(** On a finite argument [zToPercentile] is [round(100 * cdfApprox z)]. *)
Lemma zToPercentile_Fin (z : R) :
  zToPercentile (Fin z) = Fin (IZR (Zfloor (cdfApprox z * 100 + 1 / 2))).
Proof.
  unfold zToPercentile, cdfApprox, tailTerm, erfPoly.
  pose proof (Rabs_pos z) as Habs.
  rewrite ltb_Fin.
  assert (Hsign : (if bool_decide (z < 0) then Fin (-1) else Fin 1)
                  = Fin (if decide (z < 0) then -1 else 1)).
  { case_bool_decide; case_decide; done. }
  rewrite Hsign.
  autorewrite with num_eval.
  rewrite (div_Fin _ (1.0 + 0.3275911 * Rabs z)) by lra.
  autorewrite with num_eval.
  rewrite (div_Fin _ 2) by lra.
  autorewrite with num_eval.
  unfold Math_round. do 2 f_equal. f_equal.
  replace (1.0 / (1.0 + 0.3275911 * Rabs z))
    with (1 / (1 + 0.3275911 * Rabs z)) by (f_equal; lra).
  lra.
Qed.

Lemma zToPercentile_zero : zToPercentile (Fin 0) = Fin 50.
Proof.
  rewrite zToPercentile_Fin. do 2 f_equal. apply Zfloor_eq.
  unfold cdfApprox, tailTerm, erfPoly.
  rewrite decide_False by lra. rewrite Rabs_R0.
  replace (- 0 * 0 / 2) with 0 by lra. rewrite exp_0.
  replace (1 / (1 + 0.3275911 * 0)) with 1 by lra.
  lra.
Qed.

End PercentileFormula.

(* ===================================================================== *)
(** ** The region loops *)
(* ===================================================================== *)

Section Loops.
Context {C S : Type} (nameOf : C → string).
Context (lhMap rhMap : gmap string DKTRegionData).
Context (body : C → RefEntry → DKTRegionData → DKTRegionData → S → S).

Lemma available_missing (regionName : string) :
  lhMap !! regionName = None ∨ rhMap !! regionName = None →
  available lhMap rhMap regionName = None.
Proof.
  unfold available. intros [-> | ->]; repeat case_match; done.
Qed.

Lemma forAvailable_cons (cfg : C) (configs : list C) (init : S) :
  forAvailable nameOf lhMap rhMap body (cfg :: configs) init
  = forAvailable nameOf lhMap rhMap body configs
      (match available lhMap rhMap (nameOf cfg) with
       | Some (ref, l, r) => body cfg ref l r init
       | None => init
       end).
Proof. reflexivity. Qed.

Lemma forAvailable_nil (init : S) :
  forAvailable nameOf lhMap rhMap body [] init = init.
Proof. reflexivity. Qed.

(** When every configured region is missing the loop does nothing. *)
Lemma forAvailable_missing (configs : list C) (init : S) :
  regionsMissing lhMap rhMap (map nameOf configs) →
  forAvailable nameOf lhMap rhMap body configs init = init.
Proof.
  unfold regionsMissing. induction configs as [|cfg configs IH]; [done|].
  intros [Hcfg Hrest]%Forall_cons. rewrite forAvailable_cons.
  rewrite (available_missing _ Hcfg). by apply IH.
Qed.

(** Invariants of the loop. *)
Lemma forAvailable_ind (P : S → Prop) (configs : list C) (init : S) :
  P init →
  (∀ cfg ref l r acc,
     cfg ∈ configs →
     available lhMap rhMap (nameOf cfg) = Some (ref, l, r) →
     P acc → P (body cfg ref l r acc)) →
  P (forAvailable nameOf lhMap rhMap body configs init).
Proof.
  revert init. induction configs as [|cfg configs IH]; intros init Hinit Hstep.
  - done.
  - rewrite forAvailable_cons. apply IH.
    + destruct (available lhMap rhMap (nameOf cfg)) as [[[ref l] r]|] eqn:Hav;
        [|done].
      apply Hstep; [left|done..].
    + intros c ref l r acc Hc. apply Hstep. by right.
Qed.

End Loops.

(* ===================================================================== *)
(** ** Datasets that lack every region of an index *)
(* ===================================================================== *)

Section Neutral.
#[local] Open Scope R_scope.

Lemma round_scaled_zero (k : R) :
  k ≠ 0 → (Math_round (Fin 0 * Fin k) / Fin k)%num = Fin 0.
Proof.
  intros Hk. rewrite mul_Fin.
  rewrite (Math_round_Fin _ 0) by lra.
  rewrite div_Fin by done. f_equal. lra.
Qed.

Lemma toFixed3_zero : toFixed3 (Fin 0) = Fin 0.
Proof.
  unfold toFixed3. rewrite Rabs_R0. decide_reals.
  rewrite (Zfloor_eq 0) by lra. f_equal. lra.
Qed.

Lemma lateralizationRatio_zero :
  lateralizationRatio (Fin 0) (Fin 0) = Fin 0.
Proof.
  unfold lateralizationRatio. autorewrite with num_eval.
  rewrite Rabs_R0. rewrite div_Fin by lra. f_equal. lra.
Qed.

Lemma languageOutputPercentile_zero :
  languageOutputPercentile (Fin 0) = Fin 50.
Proof.
  unfold languageOutputPercentile. num_eval.
  apply Math_round_Fin. split_reals. lra.
Qed.

Lemma languageInputPercentile_zero :
  languageInputPercentile (Fin 0) = Fin 50.
Proof.
  unfold languageInputPercentile. num_eval.
  apply Math_round_Fin. split_reals. lra.
Qed.

Lemma neutralResult_neutral (resultName : string) :
  neutral (neutralResult resultName).
Proof. done. Qed.

Variable data : DKTData.

(** The six calculators of the shape "sum, round to two decimals,
    convert" and the Dominant Eye index are closed by the same steps. *)
Ltac neutral_sum H :=
  rewrite forAvailable_missing by exact H;
  unfold neutral; simpl;
  rewrite round_scaled_zero by lra; rewrite zToPercentile_zero; done.

Lemma calculateOlfactoryIndex_missing :
  regionsMissing data.(lh) data.(rh)
    ["entorhinal"; "parahippocampal"; "medialorbitofrontal"] →
  neutral (calculateOlfactoryIndex data).
Proof. intros H. unfold calculateOlfactoryIndex. neutral_sum H. Qed.

Lemma calculateReadingIndex_missing :
  regionsMissing data.(lh) data.(rh)
    ["superiortemporal"; "supramarginal"; "inferiorparietal"; "fusiform"] →
  neutral (calculateReadingIndex data).
Proof. intros H. unfold calculateReadingIndex. neutral_sum H. Qed.

Lemma calculateEmpathyIndex_missing :
  regionsMissing data.(lh) data.(rh)
    ["rostralanteriorcingulate"; "medialorbitofrontal"; "insula";
     "posteriorcingulate"] →
  neutral (calculateEmpathyIndex data).
Proof. intros H. unfold calculateEmpathyIndex. neutral_sum H. Qed.

Lemma calculateExecutiveIndex_missing :
  regionsMissing data.(lh) data.(rh)
    ["superiorfrontal"; "rostralmiddlefrontal"; "caudalmiddlefrontal";
     "parsopercularis"] →
  neutral (calculateExecutiveIndex data).
Proof. intros H. unfold calculateExecutiveIndex. neutral_sum H. Qed.

Lemma calculateSpatialIndex_missing :
  regionsMissing data.(lh) data.(rh)
    ["inferiorparietal"; "superiorparietal"; "precuneus"] →
  neutral (calculateSpatialIndex data).
Proof. intros H. unfold calculateSpatialIndex. neutral_sum H. Qed.

Lemma calculateFluidIntelligenceIndex_missing :
  regionsMissing data.(lh) data.(rh)
    ["superiorfrontal"; "inferiorparietal"; "superiortemporal";
     "rostralmiddlefrontal"; "insula"] →
  neutral (calculateFluidIntelligenceIndex data).
Proof. intros H. unfold calculateFluidIntelligenceIndex. neutral_sum H. Qed.

Lemma calculateDominantEyeIndex_missing :
  regionsMissing data.(lh) data.(rh) ["pericalcarine"; "cuneus"; "lingual"] →
  neutral (calculateDominantEyeIndex data).
Proof. intros H. unfold calculateDominantEyeIndex. neutral_sum H. Qed.

Lemma calculateLanguageIndex_missing :
  regionsMissing data.(lh) data.(rh)
    ["superiortemporal"; "parsopercularis"; "parstriangularis";
     "middletemporal"; "fusiform"] →
  subregionsMissing data ["BA44_exvivo"; "BA45_exvivo"] →
  neutral (calculateLanguageIndex data).
Proof.
  intros H HBA. unfold calculateLanguageIndex, subregionsMissing in *.
  rewrite forAvailable_missing by exact H.
  destruct (lhBA data) as [lhBAMap|], (rhBA data) as [rhBAMap|];
    try rewrite forAvailable_missing by exact HBA;
    unfold neutral; simpl; rewrite gtb_Fin; decide_reals; simpl;
    rewrite round_scaled_zero by lra; rewrite zToPercentile_zero; done.
Qed.

Lemma calculateParietalIQIndex_missing :
  regionsMissing data.(lh) data.(rh)
    ["supramarginal"; "inferiorparietal"; "superiorparietal"; "precuneus";
     "posteriorcingulate"] →
  (calculateParietalIQIndex data).(value) = Fin 100
  ∧ (calculateParietalIQIndex data).(zScore_field) = Some (Fin 0)
  ∧ (calculateParietalIQIndex data).(percentile) = Fin 50
  ∧ (calculateParietalIQIndex data).(details) = [].
Proof.
  intros H. unfold calculateParietalIQIndex.
  rewrite forAvailable_missing by exact H. simpl.
  rewrite gtb_Fin. decide_reals.
  rewrite round_scaled_zero by lra. rewrite zToPercentile_zero.
  repeat split. autorewrite with num_eval.
  rewrite (Math_round_Fin _ 100) by lra.
  autorewrite with num_eval. f_equal. split_reals. lra.
Qed.

Lemma calculateHandednessIndex_missing :
  subregionsMissing data ["BA4a_exvivo"; "BA4p_exvivo"; "BA3b_exvivo"] →
  neutral (calculateHandednessIndex data).
Proof.
  intros HBA. unfold calculateHandednessIndex, subregionsMissing in *.
  destruct (lhBA data) as [lhBAMap|], (rhBA data) as [rhBAMap|];
    try apply neutralResult_neutral.
  rewrite forAvailable_missing by exact HBA.
  unfold neutral; simpl. rewrite gtb_Fin. decide_reals.
  rewrite round_scaled_zero by lra. rewrite zToPercentile_zero. done.
Qed.

Lemma calculatePreferredNostrilIndex_missing :
  regionsMissing data.(lh) data.(rh)
    ["entorhinal"; "parahippocampal"; "medialorbitofrontal"; "insula"] →
  neutral (calculatePreferredNostrilIndex data).
Proof.
  intros H. unfold calculatePreferredNostrilIndex.
  rewrite forAvailable_missing.
  - unfold neutral; simpl. rewrite toFixed3_zero. num_eval.
    rewrite (Math_round_Fin _ 50) by lra. autorewrite with num_eval.
    repeat split. f_equal. split_reals. lra.
  - unfold regionsMissing in *. simpl.
    rewrite !Forall_cons in H. rewrite !Forall_cons. tauto.
Qed.

Lemma calculateLanguageOutputLateralization_missing :
  subregionsMissing data ["BA44_exvivo"; "BA45_exvivo"] →
  neutral (calculateLanguageOutputLateralization data).
Proof.
  intros HBA.
  unfold calculateLanguageOutputLateralization, subregionsMissing in *.
  destruct (lhBA data) as [lhBAMap|], (rhBA data) as [rhBAMap|];
    try apply neutralResult_neutral.
  rewrite forAvailable_missing by exact HBA.
  unfold neutral; simpl. rewrite lateralizationRatio_zero.
  by rewrite toFixed3_zero, languageOutputPercentile_zero.
Qed.

Lemma calculateLanguageInputLateralization_missing :
  regionsMissing data.(lh) data.(rh)
    ["superiortemporal"; "inferiorparietal"; "middletemporal";
     "supramarginal"; "fusiform"] →
  neutral (calculateLanguageInputLateralization data).
Proof.
  intros H. unfold calculateLanguageInputLateralization.
  rewrite forAvailable_missing by exact H.
  unfold neutral; simpl. rewrite lateralizationRatio_zero.
  by rewrite toFixed3_zero, languageInputPercentile_zero.
Qed.

Lemma calculateLanguageLateralizationIndex_missing :
  subregionsMissing data ["BA44_exvivo"; "BA45_exvivo"] →
  regionsMissing data.(lh) data.(rh)
    ["superiortemporal"; "inferiorparietal"; "middletemporal";
     "supramarginal"; "fusiform"] →
  neutral (calculateLanguageLateralizationIndex data).
Proof.
  intros (Hov & _ & Hod)%calculateLanguageOutputLateralization_missing
         (Hiv & _ & Hid)%calculateLanguageInputLateralization_missing.
  unfold calculateLanguageLateralizationIndex, neutral.
  cbv zeta. cbn [value percentile details].
  rewrite Hov, Hiv, Hod, Hid. autorewrite with num_eval.
  replace (0 * 0.6 + 0 * 0.4) with 0 by lra.
  rewrite toFixed3_zero. num_eval. repeat split.
  apply Math_round_Fin. split_reals. lra.
Qed.

End Neutral.

Lemma emptyData_regionsMissing (names : list string) :
  regionsMissing emptyData.(lh) emptyData.(rh) names.
Proof. apply Forall_forall. intros n _. by left. Qed.

(** C4, counterexample.  On the dataset without any region the Parietal
    IQ Prediction index returns the value 100, not 0. *)
Lemma parietalIQ_missing_regions_value_100 :
  regionsMissing emptyData.(lh) emptyData.(rh)
    ["supramarginal"; "inferiorparietal"; "superiorparietal"; "precuneus";
     "posteriorcingulate"]
  ∧ (calculateParietalIQIndex emptyData).(value) = Fin 100
  ∧ ¬ neutral (calculateParietalIQIndex emptyData).
Proof.
  pose proof (emptyData_regionsMissing
    ["supramarginal"; "inferiorparietal"; "superiorparietal"; "precuneus";
     "posteriorcingulate"]) as Hmiss.
  destruct (calculateParietalIQIndex_missing emptyData Hmiss) as (Hv & _).
  repeat split; [done..|].
  intros (Hzero & _). rewrite Hv in Hzero.
  injection Hzero. lra.
Qed.

(** C4, as amended.  When every region of an index lacks a measurement
    in at least one hemisphere (for the subregion-based indices: the
    subregion maps are absent, or lack every subregion of the index), so
    that nothing contributes, each calculator returns percentile 50 and
    an empty detail list without any division by zero.  The value is 0
    for every index except the Parietal IQ Prediction index, whose value
    is on the IQ scale: it returns the value 100 together with the
    z-score 0. *)
Theorem missing_regions_neutral_result (data : DKTData) :
  (regionsMissing data.(lh) data.(rh)
     ["entorhinal"; "parahippocampal"; "medialorbitofrontal"] →
   neutral (calculateOlfactoryIndex data))
  ∧ (regionsMissing data.(lh) data.(rh)
       ["superiortemporal"; "parsopercularis"; "parstriangularis";
        "middletemporal"; "fusiform"] →
     subregionsMissing data ["BA44_exvivo"; "BA45_exvivo"] →
     neutral (calculateLanguageIndex data))
  ∧ (regionsMissing data.(lh) data.(rh)
       ["superiortemporal"; "supramarginal"; "inferiorparietal"; "fusiform"] →
     neutral (calculateReadingIndex data))
  ∧ (regionsMissing data.(lh) data.(rh)
       ["rostralanteriorcingulate"; "medialorbitofrontal"; "insula";
        "posteriorcingulate"] →
     neutral (calculateEmpathyIndex data))
  ∧ (regionsMissing data.(lh) data.(rh)
       ["superiorfrontal"; "rostralmiddlefrontal"; "caudalmiddlefrontal";
        "parsopercularis"] →
     neutral (calculateExecutiveIndex data))
  ∧ (regionsMissing data.(lh) data.(rh)
       ["inferiorparietal"; "superiorparietal"; "precuneus"] →
     neutral (calculateSpatialIndex data))
  ∧ (regionsMissing data.(lh) data.(rh)
       ["superiorfrontal"; "inferiorparietal"; "superiortemporal";
        "rostralmiddlefrontal"; "insula"] →
     neutral (calculateFluidIntelligenceIndex data))
  ∧ (regionsMissing data.(lh) data.(rh)
       ["supramarginal"; "inferiorparietal"; "superiorparietal"; "precuneus";
        "posteriorcingulate"] →
     (calculateParietalIQIndex data).(value) = Fin 100
     ∧ (calculateParietalIQIndex data).(zScore_field) = Some (Fin 0)
     ∧ (calculateParietalIQIndex data).(percentile) = Fin 50
     ∧ (calculateParietalIQIndex data).(details) = [])
  ∧ (subregionsMissing data ["BA4a_exvivo"; "BA4p_exvivo"; "BA3b_exvivo"] →
     neutral (calculateHandednessIndex data))
  ∧ (regionsMissing data.(lh) data.(rh)
       ["pericalcarine"; "cuneus"; "lingual"] →
     neutral (calculateDominantEyeIndex data))
  ∧ (regionsMissing data.(lh) data.(rh)
       ["entorhinal"; "parahippocampal"; "medialorbitofrontal"; "insula"] →
     neutral (calculatePreferredNostrilIndex data))
  ∧ (subregionsMissing data ["BA44_exvivo"; "BA45_exvivo"] →
     neutral (calculateLanguageOutputLateralization data))
  ∧ (regionsMissing data.(lh) data.(rh)
       ["superiortemporal"; "inferiorparietal"; "middletemporal";
        "supramarginal"; "fusiform"] →
     neutral (calculateLanguageInputLateralization data))
  ∧ (subregionsMissing data ["BA44_exvivo"; "BA45_exvivo"] →
     regionsMissing data.(lh) data.(rh)
       ["superiortemporal"; "inferiorparietal"; "middletemporal";
        "supramarginal"; "fusiform"] →
     neutral (calculateLanguageLateralizationIndex data)).
Proof.
  repeat apply conj.
  - apply calculateOlfactoryIndex_missing.
  - apply calculateLanguageIndex_missing.
  - apply calculateReadingIndex_missing.
  - apply calculateEmpathyIndex_missing.
  - apply calculateExecutiveIndex_missing.
  - apply calculateSpatialIndex_missing.
  - apply calculateFluidIntelligenceIndex_missing.
  - apply calculateParietalIQIndex_missing.
  - apply calculateHandednessIndex_missing.
  - apply calculateDominantEyeIndex_missing.
  - apply calculatePreferredNostrilIndex_missing.
  - apply calculateLanguageOutputLateralization_missing.
  - apply calculateLanguageInputLateralization_missing.
  - apply calculateLanguageLateralizationIndex_missing.
Qed.

Lemma missing_regions_neutral_result_witness :
  neutral (calculateOlfactoryIndex emptyData)
  ∧ neutral (calculateLanguageIndex emptyData)
  ∧ neutral (calculateHandednessIndex emptyData)
  ∧ (calculateParietalIQIndex emptyData).(percentile) = Fin 50
  ∧ neutral (calculateLanguageLateralizationIndex emptyData).
Proof.
  destruct (missing_regions_neutral_result emptyData)
    as (Holf & Hlang & _ & _ & _ & _ & _ & Hpar & Hhand & _ & _ & _ & _ & Hcomb).
  split; [|split; [|split; [|split]]].
  - apply Holf, emptyData_regionsMissing.
  - apply Hlang; [apply emptyData_regionsMissing | exact I].
  - apply Hhand. exact I.
  - apply Hpar, emptyData_regionsMissing.
  - apply Hcomb; [exact I | apply emptyData_regionsMissing].
Defined.

(* ===================================================================== *)
(** ** Handedness: the one-standard-deviation scenario *)
(* ===================================================================== *)

Section HandednessScenario.
#[local] Open Scope R_scope.

Lemma foldZScores_absent (regionName : string) (l r : DKTRegionData) :
  l.(foldInd) = None ∨ r.(foldInd) = None →
  foldZScores regionName l r = (Fin 0, Fin 0).
Proof.
  unfold foldZScores. intros [-> | ->]; repeat case_match; done.
Qed.

Lemma available_Some (lhMap rhMap : gmap string DKTRegionData)
    (regionName : string) (ref : RefEntry) (l r : DKTRegionData) :
  REFERENCE_DATA_MALE !! regionName = Some ref →
  lhMap !! regionName = Some l → rhMap !! regionName = Some r →
  available lhMap rhMap regionName = Some (ref, l, r).
Proof. unfold available. by intros -> -> ->. Qed.

Lemma REFERENCE_BA4a :
  REFERENCE_DATA_MALE !! "BA4a_exvivo"
  = Some (refEntry (ms 2.85 0.20) (ms 1300 250) (ms 4300 650)).
Proof. reflexivity. Qed.

Lemma REFERENCE_BA4p :
  REFERENCE_DATA_MALE !! "BA4p_exvivo"
  = Some (refEntry (ms 2.80 0.19) (ms 1000 200) (ms 2700 450)).
Proof. reflexivity. Qed.

Lemma REFERENCE_BA3b :
  REFERENCE_DATA_MALE !! "BA3b_exvivo"
  = Some (refEntry (ms 2.15 0.18) (ms 2000 350) (ms 4500 700)).
Proof. reflexivity. Qed.

Lemma available_singletons (regionName other : string) (ref : RefEntry)
    (l r : DKTRegionData) :
  REFERENCE_DATA_MALE !! regionName = Some ref →
  available {[ regionName := l ]} {[ regionName := r ]} other
  = if decide (other = regionName) then Some (ref, l, r) else None.
Proof.
  intros Href. case_decide as Hother.
  - subst other. apply available_Some; [done|apply lookup_singleton_eq..].
  - apply available_missing. left. by apply lookup_singleton_ne.
Qed.

End HandednessScenario.

(** One iteration of a region loop on an available region. *)
Ltac loop_step Href Hl Hr :=
  rewrite forAvailable_cons;
  cbn [cfg_name regionConfig fst];
  rewrite (available_Some _ _ _ _ _ _ Href Hl Hr);
  cbn beta iota zeta delta
    [cfg_name cfg_weight wThick wArea wThird regionConfig fst snd
     ref_thickness ref_surfArea ref_volume refEntry mean std ms].

(** Evaluate the region guard on maps that hold the one region of [Href]. *)
Ltac eval_available Href :=
  repeat match goal with
    | |- context [available {[ ?n := ?l ]} {[ ?n := ?r ]} ?o] =>
        rewrite (available_singletons n o _ l r Href)
    end.

(** C6.  When the subregion maps contain BA4a, BA4p and BA3b with the
    left thickness and surface area exactly one reference standard
    deviation above the reference means, the right hemisphere exactly at
    the means and no folding index, the Handedness Index value is
    positive and equals 0.70, the thickness-plus-area metric weight of
    each region (0.35 + 0.35 and 0.40 + 0.30). *)
Theorem handedness_one_std_left (data : DKTData)
    (lhBAMap rhBAMap : gmap string DKTRegionData) :
  data.(lhBA) = Some lhBAMap →
  data.(rhBA) = Some rhBAMap →
  Forall (leftOneStdAbove lhBAMap rhBAMap)
    ["BA4a_exvivo"; "BA4p_exvivo"; "BA3b_exvivo"] →
  (calculateHandednessIndex data).(value) = Fin 0.70
  ∧ (Fin 0 <? (calculateHandednessIndex data).(value)) = true.
Proof.
  intros HL HR Hregions.
  assert (Hvalue : (calculateHandednessIndex data).(value) = Fin 0.70).
  { unfold calculateHandednessIndex. rewrite HL, HR.
    apply Forall_cons in Hregions as
      [(ref1 & l1 & r1 & Href1 & Hl1 & Hr1 & Htl1 & Hal1 & Htr1 & Har1 & Hf1)
         Hregions].
    apply Forall_cons in Hregions as
      [(ref2 & l2 & r2 & Href2 & Hl2 & Hr2 & Htl2 & Hal2 & Htr2 & Har2 & Hf2)
         Hregions].
    apply Forall_cons in Hregions as
      [(ref3 & l3 & r3 & Href3 & Hl3 & Hr3 & Htl3 & Hal3 & Htr3 & Har3 & Hf3)
         _].
    pose proof Href1 as E1. rewrite REFERENCE_BA4a in E1. injection E1 as <-.
    pose proof Href2 as E2. rewrite REFERENCE_BA4p in E2. injection E2 as <-.
    pose proof Href3 as E3. rewrite REFERENCE_BA3b in E3. injection E3 as <-.
    cbn [ref_thickness ref_surfArea refEntry mean std ms] in *.
    loop_step Href1 Hl1 Hr1.
    rewrite (foldZScores_absent _ _ _ Hf1), Htl1, Hal1, Htr1, Har1. num_eval.
    loop_step Href2 Hl2 Hr2.
    rewrite (foldZScores_absent _ _ _ Hf2), Htl2, Hal2, Htr2, Har2. num_eval.
    loop_step Href3 Hl3 Hr3.
    rewrite (foldZScores_absent _ _ _ Hf3), Htl3, Hal3, Htr3, Har3. num_eval.
    rewrite forAvailable_nil. cbn [value]. num_eval.
    rewrite (Math_round_Fin _ 700) by lra.
    rewrite div_Fin by lra. f_equal. lra. }
  split; [done|]. rewrite Hvalue, ltb_Fin.
  apply bool_decide_eq_true_2. lra.
Qed.

Lemma handedness_one_std_left_witness :
  (calculateHandednessIndex handednessScenarioData).(value) = Fin 0.70
  ∧ (Fin 0 <? (calculateHandednessIndex handednessScenarioData).(value))
    = true.
Proof.
  eapply (handedness_one_std_left handednessScenarioData);
    [reflexivity | reflexivity |].
  apply Forall_cons_2; [|apply Forall_cons_2; [|apply Forall_cons_2]].
  - exists (refEntry (ms 2.85 0.20) (ms 1300 250) (ms 4300 650)),
      (plainRegion (2.85 + 0.20) (1300 + 250) 4300),
      (plainRegion 2.85 1300 4300).
    repeat split; try reflexivity. by left.
  - exists (refEntry (ms 2.80 0.19) (ms 1000 200) (ms 2700 450)),
      (plainRegion (2.80 + 0.19) (1000 + 200) 2700),
      (plainRegion 2.80 1000 2700).
    repeat split; try reflexivity. by left.
  - exists (refEntry (ms 2.15 0.18) (ms 2000 350) (ms 4500 700)),
      (plainRegion (2.15 + 0.18) (2000 + 350) 4500),
      (plainRegion 2.15 2000 4500).
    repeat split; try reflexivity. by left.
  - apply Forall_nil_2.
Defined.

(* ===================================================================== *)
(** ** Handedness and Dominant Eye: sum, renormalization, rounding *)
(* ===================================================================== *)

Section Sums.
#[local] Open Scope R_scope.

Lemma add_0_l (a : num) : (Fin 0 + a)%num = a.
Proof. destruct a; try done. rewrite add_Fin. f_equal; lra. Qed.

Lemma add_0_r (a : num) : (a + Fin 0)%num = a.
Proof. destruct a; try done. rewrite add_Fin. f_equal; lra. Qed.

Lemma add_assoc (a b c : num) : (a + (b + c))%num = (a + b + c)%num.
Proof.
  destruct a, b, c; try done. rewrite !add_Fin. f_equal; lra.
Qed.

Lemma div_1 (a : num) : (a / Fin 1)%num = a.
Proof.
  destruct a; unfold div; decide_reals; try done. f_equal; lra.
Qed.

(** The Dominant Eye value is the rounded direct sum. *)
Lemma calculateDominantEyeIndex_direct_sum (data : DKTData) :
  (calculateDominantEyeIndex data).(value)
  = round3 (directSum (dominantEyeTerms data)).
Proof.
  unfold calculateDominantEyeIndex, dominantEyeTerms, availableTerms, round3.
  rewrite !forAvailable_cons, forAvailable_nil.
  cbn [omap list_omap fst snd].
  destruct (available (lh data) (rh data) "pericalcarine")
    as [[[ref1 l1] r1]|];
  destruct (available (lh data) (rh data) "cuneus") as [[[ref2 l2] r2]|];
  destruct (available (lh data) (rh data) "lingual") as [[[ref3 l3] r3]|];
  cbn [blendBody directSum foldr value];
  by rewrite ?add_0_l, ?add_0_r, ?add_assoc.
Qed.

(** The Handedness value is the direct sum divided by the total weight
    of the available regions, rounded. *)
Lemma calculateHandednessIndex_renormalized (data : DKTData)
    (lhBAMap rhBAMap : gmap string DKTRegionData) :
  data.(lhBA) = Some lhBAMap → data.(rhBA) = Some rhBAMap →
  (calculateHandednessIndex data).(value)
  = round3 (if (weightSum (handednessTerms lhBAMap rhBAMap) >? Fin 0)%num
            then (directSum (handednessTerms lhBAMap rhBAMap)
                  / weightSum (handednessTerms lhBAMap rhBAMap))%num
            else Fin 0).
Proof.
  intros HL HR.
  unfold calculateHandednessIndex, handednessTerms, availableTerms, round3.
  rewrite HL, HR.
  rewrite !forAvailable_cons, forAvailable_nil.
  cbn [omap list_omap cfg_name cfg_weight wThick wArea wThird regionConfig].
  unfold zScore.
  destruct (available lhBAMap rhBAMap "BA4a_exvivo") as [[[ref1 l1] r1]|];
  destruct (available lhBAMap rhBAMap "BA4p_exvivo") as [[[ref2 l2] r2]|];
  destruct (available lhBAMap rhBAMap "BA3b_exvivo") as [[[ref3 l3] r3]|];
  repeat match goal with
    | |- context [foldZScores ?n ?l ?r] => destruct (foldZScores n l r)
    end;
  cbn [directSum weightSum foldr value];
  by rewrite ?add_0_l, ?add_0_r, ?add_assoc.
Qed.

End Sums.

(** Decide the equalities of string constants met while evaluating. *)
Ltac decide_strings :=
  repeat match goal with
    | |- context [@decide (?a = ?b) ?d] =>
        first [ rewrite (@decide_True _ (a = b) d) by reflexivity
              | rewrite (@decide_False _ (a = b) d) by (intros [=]) ]
    end.

(** The members of a literal configuration list, one goal each. *)
Ltac each_config Hc :=
  repeat (apply elem_of_cons in Hc as [-> | Hc]);
  [..|by apply elem_of_nil in Hc].

Section SumsExamples.
#[local] Open Scope R_scope.

Lemma REFERENCE_pericalcarine :
  REFERENCE_DATA_MALE !! "pericalcarine"
  = Some (refEntry (ms 1.55 0.14) (ms 1900 320) (ms 2400 400)).
Proof. reflexivity. Qed.

Lemma round3_Fin (x : R) :
  round3 (Fin x) = Fin (IZR (Zfloor (x * 1000 + 1 / 2)) / 1000).
Proof.
  unfold round3, Math_round. rewrite mul_Fin. by rewrite div_Fin by lra.
Qed.

Lemma handednessTerms_BA4aOnly :
  directSum (handednessTerms ba4aLeft ba4aRight) = Fin 0.245
  ∧ weightSum (handednessTerms ba4aLeft ba4aRight) = Fin 0.35.
Proof.
  unfold handednessTerms, availableTerms, ba4aLeft, ba4aRight.
  cbn [omap list_omap cfg_name cfg_weight wThick wArea wThird regionConfig].
  eval_available REFERENCE_BA4a.
  decide_strings.
  rewrite foldZScores_absent by (by left).
  unfold zScore.
  cbn [directSum weightSum foldr plainRegion thickness surfArea volume
       ref_thickness ref_surfArea ref_volume refEntry mean std ms].
  num_eval. split; f_equal; lra.
Qed.

Lemma dominantEyeTerms_pericalcarineOnly (k : R) :
  directSum (dominantEyeTerms (pericalcarineOnly k)) = Fin (0.644 * k).
Proof.
  unfold dominantEyeTerms, availableTerms, pericalcarineOnly.
  cbn [omap list_omap fst snd lh rh].
  eval_available REFERENCE_pericalcarine.
  decide_strings.
  unfold compositeZScore, zScore.
  cbn [directSum foldr plainRegion thickness surfArea volume fst snd
       ref_thickness ref_surfArea ref_volume refEntry mean std ms].
  num_eval. f_equal; lra.
Qed.

(** When all three subregions are measured the total weight is 1. *)
Lemma handednessTerms_full_weight
    (lhBAMap rhBAMap : gmap string DKTRegionData) :
  Forall (λ n, is_Some (lhBAMap !! n) ∧ is_Some (rhBAMap !! n))
    ["BA4a_exvivo"; "BA4p_exvivo"; "BA3b_exvivo"] →
  weightSum (handednessTerms lhBAMap rhBAMap) = Fin 1.
Proof.
  intros Hall.
  apply Forall_cons in Hall as [[[l1 Hl1] [r1 Hr1]] Hall].
  apply Forall_cons in Hall as [[[l2 Hl2] [r2 Hr2]] Hall].
  apply Forall_cons in Hall as [[[l3 Hl3] [r3 Hr3]] _].
  unfold handednessTerms, availableTerms.
  cbn [omap list_omap cfg_name cfg_weight wThick wArea wThird regionConfig].
  rewrite (available_Some _ _ _ _ _ _ REFERENCE_BA4a Hl1 Hr1).
  rewrite (available_Some _ _ _ _ _ _ REFERENCE_BA4p Hl2 Hr2).
  rewrite (available_Some _ _ _ _ _ _ REFERENCE_BA3b Hl3 Hr3).
  repeat match goal with
    | |- context [foldZScores ?n ?l ?r] => destruct (foldZScores n l r)
    end.
  cbn [weightSum foldr]. rewrite !add_Fin. f_equal; lra.
Qed.

End SumsExamples.

(* ===================================================================== *)
(** ** The normalized lateralization ratio *)
(* ===================================================================== *)

Section Ratio.
#[local] Open Scope R_scope.

Lemma isFinite_Fin (a : num) : isFinite a = true → ∃ x, a = Fin x.
Proof. destruct a; try done. by eexists. Qed.

Lemma available_Some_inv (lhMap rhMap : gmap string DKTRegionData)
    (regionName : string) (ref : RefEntry) (l r : DKTRegionData) :
  available lhMap rhMap regionName = Some (ref, l, r) →
  REFERENCE_DATA_MALE !! regionName = Some ref
  ∧ lhMap !! regionName = Some l ∧ rhMap !! regionName = Some r.
Proof.
  unfold available. intros H. repeat case_match; by simplify_eq.
Qed.

(** The z-score of a finite number against a valid reference pair. *)
Lemma zScore_inline_finite (a : num) (m : MeanStd) :
  isFinite a = true → positiveStd m →
  ∃ z, ((a - m.(mean)) / m.(std))%num = Fin z.
Proof.
  intros [x ->]%isFinite_Fin (mu & sigma & -> & Hpos). simpl.
  rewrite sub_Fin, div_Fin by lra. by eexists.
Qed.

Lemma foldZScores_finite (regionName : string) (l r : DKTRegionData) :
  finiteRegion l → finiteRegion r →
  ∃ fL fR, foldZScores regionName l r = (Fin fL, Fin fR).
Proof.
  intros (_ & _ & _ & _ & _ & HfL & _) (_ & _ & _ & _ & _ & HfR & _).
  unfold foldZScores.
  destruct (BA_CURVATURE_REFERENCE !! regionName) as [curvRef|] eqn:Href;
    [|by exists 0, 0].
  destruct (foldInd l) as [foldL|]; [|by exists 0, 0].
  destruct (foldInd r) as [foldR|]; [|by exists 0, 0].
  apply BA_CURVATURE_REFERENCE_valid in Href as [_ Hfold].
  destruct (zScore_inline_finite foldL _ HfL Hfold) as [zl ->].
  destruct (zScore_inline_finite foldR _ HfR Hfold) as [zr ->].
  by exists zl, zr.
Qed.

(** The ratio of two finite sums is finite and strictly inside (-1, 1). *)
Lemma compositeZScore_finite (d : DKTRegionData) (ref : RefEntry)
    (a b c : R) :
  validRef ref → finiteRegion d →
  ∃ z, compositeZScore d ref (Fin a, Fin b, Fin c) = Fin z.
Proof.
  intros (Ht & Ha & Hv) (Hdt & Hda & Hdv & _).
  unfold compositeZScore, zScore.
  destruct (zScore_inline_finite _ _ Hdt Ht) as [zt ->].
  destruct (zScore_inline_finite _ _ Hda Ha) as [za ->].
  destruct (zScore_inline_finite _ _ Hdv Hv) as [zv ->].
  cbn [fst snd]. num_eval. by eexists.
Qed.

Lemma lateralizationRatio_bounds (a b : R) :
  lateralizationRatio (Fin a) (Fin b)
  = Fin ((a - b) / (Rabs a + Rabs b + 0.001))
  ∧ -1 < (a - b) / (Rabs a + Rabs b + 0.001) < 1.
Proof.
  assert (Hden : Rabs (a - b) < Rabs a + Rabs b + 0.001).
  { pose proof (Rabs_triang a (- b)) as Htri. rewrite Rabs_Ropp in Htri.
    replace (a + - b) with (a - b) in Htri by lra. lra. }
  assert (Hpos : 0 < Rabs a + Rabs b + 0.001).
  { pose proof (Rabs_pos (a - b)). lra. }
  split.
  - unfold lateralizationRatio. autorewrite with num_eval.
    by rewrite div_Fin by lra.
  - assert (Hq : Rabs ((a - b) / (Rabs a + Rabs b + 0.001)) < 1).
    { unfold Rdiv. rewrite Rabs_mult.
      rewrite (Rabs_pos_eq (/ _)) by (left; by apply Rinv_0_lt_compat).
      apply (Rmult_lt_reg_r (Rabs a + Rabs b + 0.001)); [done|].
      rewrite Rmult_assoc, Rinv_l by lra. lra. }
    apply Rabs_def2 in Hq. lra.
Qed.

(** Rounding a number of (-1, 1) to three decimals stays within [-1, 1]. *)
Lemma toFixed3_unit_interval (li : R) :
  -1 < li < 1 → ∃ x, toFixed3 (Fin li) = Fin x ∧ -1 <= x <= 1.
Proof.
  intros Hli.
  assert (Habs : Rabs li < 1) by (apply Rabs_def1; lra).
  pose proof (Rabs_pos li) as Hnonneg.
  assert (Hfloor : ∀ y, 0 <= y < 1 →
            0 <= IZR (Zfloor (y * 1000 + 1 / 2)) / 1000 <= 1).
  { intros y Hy.
    pose proof (Zfloor_bound (y * 1000 + 1 / 2)) as [Hlo Hhi].
    assert (0 <= Zfloor (y * 1000 + 1 / 2))%Z as H0%IZR_le
      by (apply Zfloor_lub; lra).
    assert (Zfloor (y * 1000 + 1 / 2) < 1001)%Z as H1
      by (apply lt_IZR; lra).
    assert (Zfloor (y * 1000 + 1 / 2) <= 1000)%Z as H2%IZR_le by lia.
    lra. }
  unfold toFixed3. rewrite decide_False by lra.
  case_decide as Hneg; eexists; (split; [reflexivity|]).
  - specialize (Hfloor (Rabs li)). lra.
  - specialize (Hfloor li). lra.
Qed.

Lemma roundedRatio_intro (a b : R) :
  roundedRatio (toFixed3 (lateralizationRatio (Fin a) (Fin b))).
Proof.
  destruct (lateralizationRatio_bounds a b) as [Heq Hli].
  destruct (toFixed3_unit_interval _ Hli) as (x & Hx & Hbound).
  exists a, b, ((a - b) / (Rabs a + Rabs b + 0.001)), x.
  rewrite Heq. by repeat split; try lra.
Qed.

End Ratio.

Section RatioIndices.
#[local] Open Scope R_scope.

Lemma regionConfig_weights (cfg : RegionConfig)
    (configs : list RegionConfig) :
  Forall (λ c, ∃ n w wt wa w3, c = regionConfig n w wt wa w3) configs →
  cfg ∈ configs →
  ∃ w wt wa w3, cfg.(cfg_weight) = Fin w ∧ cfg.(wThick) = Fin wt
    ∧ cfg.(wArea) = Fin wa ∧ cfg.(wThird) = Fin w3.
Proof.
  intros Hall Hin.
  destruct (proj1 (Forall_forall _ _) Hall cfg Hin)
    as (n' & w' & wt' & wa' & w3' & ->).
  by exists w', wt', wa', w3'.
Qed.

Variable data : DKTData.
Hypothesis Hfinite : finiteData data.

(** Both contribution sums of the Language Input loop stay finite. *)
Lemma calculateLanguageInputLateralization_rounded_ratio :
  roundedRatio (calculateLanguageInputLateralization data).(value).
Proof.
  destruct Hfinite as (HL & HR & _).
  unfold calculateLanguageInputLateralization.
  match goal with
  | |- context [forAvailable ?n ?l ?r ?body ?cfgs ?init] =>
      pose proof (forAvailable_ind n l r body
        (λ acc, ∃ a b s d, acc = (Fin a, Fin b, s, d)) cfgs init) as Hind
  end.
  destruct Hind as (a & b & s & d & ->).
  - by exists 0, 0, (Fin 0), [].
  - intros cfg ref l r acc Hcfg (Href & Hl & Hr)%available_Some_inv
      (a & b & s & d & ->).
    apply REFERENCE_DATA_MALE_valid in Href as (Ht & Ha & Hv).
    apply HL in Hl as (Hlt & Hla & Hlv & _).
    apply HR in Hr as (Hrt & Hra & Hrv & _).
    destruct (zScore_inline_finite _ _ Hlt Ht) as [zlt ->].
    destruct (zScore_inline_finite _ _ Hla Ha) as [zla ->].
    destruct (zScore_inline_finite _ _ Hlv Hv) as [zlv ->].
    destruct (zScore_inline_finite _ _ Hrt Ht) as [zrt ->].
    destruct (zScore_inline_finite _ _ Hra Ha) as [zra ->].
    destruct (zScore_inline_finite _ _ Hrv Hv) as [zrv ->].
    apply regionConfig_weights in Hcfg
      as (w & wt & wa & w3 & -> & -> & -> & ->);
      [|repeat (apply Forall_cons_2; [by eexists _, _, _, _, _|]);
        apply Forall_nil_2].
    autorewrite with num_eval. by eexists _, _, _, _.
  - cbn [value]. apply roundedRatio_intro.
Qed.

(** The same for the Language Output loop over the Broca subregions. *)
Lemma calculateLanguageOutputLateralization_rounded_ratio :
  roundedRatio (calculateLanguageOutputLateralization data).(value).
Proof.
  destruct Hfinite as (_ & _ & HL & HR).
  unfold calculateLanguageOutputLateralization.
  destruct (lhBA data) as [lhBAMap|], (rhBA data) as [rhBAMap|];
    try (pose proof (roundedRatio_intro 0 0) as H0;
         rewrite lateralizationRatio_zero, toFixed3_zero in H0; exact H0).
  simpl in HL, HR.
  match goal with
  | |- context [forAvailable ?n ?l ?r ?body ?cfgs ?init] =>
      pose proof (forAvailable_ind n l r body
        (λ acc, ∃ a b s d, acc = (Fin a, Fin b, s, d)) cfgs init) as Hind
  end.
  destruct Hind as (a & b & s & d & ->).
  - by exists 0, 0, (Fin 0), [].
  - intros cfg ref l r acc Hcfg (Href & Hl & Hr)%available_Some_inv
      (a & b & s & d & ->).
    apply REFERENCE_DATA_MALE_valid in Href as (Ht & Ha & Hv).
    apply HL in Hl. apply HR in Hr.
    destruct (foldZScores_finite cfg.(cfg_name) l r Hl Hr) as (fL & fR & ->).
    destruct Hl as (Hlt & Hla & _). destruct Hr as (Hrt & Hra & _).
    destruct (zScore_inline_finite _ _ Hlt Ht) as [zlt ->].
    destruct (zScore_inline_finite _ _ Hla Ha) as [zla ->].
    destruct (zScore_inline_finite _ _ Hrt Ht) as [zrt ->].
    destruct (zScore_inline_finite _ _ Hra Ha) as [zra ->].
    apply regionConfig_weights in Hcfg
      as (w & wt & wa & w3 & -> & -> & -> & ->);
      [|repeat (apply Forall_cons_2; [by eexists _, _, _, _, _|]);
        apply Forall_nil_2].
    autorewrite with num_eval. by eexists _, _, _, _.
  - cbn [value]. apply roundedRatio_intro.
Qed.

End RatioIndices.

Section RatioExample.
#[local] Open Scope R_scope.

Lemma REFERENCE_superiortemporal :
  REFERENCE_DATA_MALE !! "superiortemporal"
  = Some (refEntry (ms 2.85 0.20) (ms 5800 700) (ms 19000 2500)).
Proof. reflexivity. Qed.

Lemma finiteRegion_plainRegion (t a v : R) : finiteRegion (plainRegion t a v).
Proof. by repeat split. Qed.

Lemma finiteData_superiorTemporalOnly : finiteData superiorTemporalOnly.
Proof.
  unfold finiteData, superiorTemporalOnly.
  cbn [lh rh lhBA rhBA from_option].
  split; [|split]; [apply map_Forall_singleton, finiteRegion_plainRegion..|].
  done.
Qed.

End RatioExample.

(** C8, counterexample.  With the superior temporal region alone, its
    left thickness ten standard deviations above the mean and the right
    hemisphere at the means, the sums are 2.38 and 0, the ratio is
    [2.38 / 2.381], about 0.9996, and the returned value, rounded to
    three decimals, is exactly 1. *)
Lemma languageInput_value_reaches_one :
  finiteData superiorTemporalOnly
  ∧ (calculateLanguageInputLateralization superiorTemporalOnly).(value)
    = Fin 1.
Proof.
  split; [apply finiteData_superiorTemporalOnly|].
  unfold calculateLanguageInputLateralization, DKT_LANGUAGE_INPUT_REGIONS,
    superiorTemporalOnly.
  cbn [lh rh].
  rewrite !forAvailable_cons, forAvailable_nil.
  cbn [cfg_name regionConfig].
  eval_available REFERENCE_superiortemporal.
  decide_strings.
  cbn beta iota zeta delta
    [cfg_name cfg_weight wThick wArea wThird regionConfig value
     plainRegion thickness surfArea volume
     ref_thickness ref_surfArea ref_volume refEntry mean std ms].
  num_eval.
  match goal with
  | |- context [lateralizationRatio (Fin ?x) (Fin ?y)] =>
      replace x with 2.38%R by lra; replace y with 0%R by lra
  end.
  rewrite (proj1 (lateralizationRatio_bounds 2.38 0)).
  split_reals. unfold toFixed3. split_reals. decide_reals.
  rewrite (Zfloor_eq 1000) by lra. f_equal; lra.
Qed.

Section Moderate.
#[local] Open Scope R_scope.

Lemma moderate_finite (a : num) : moderate a → isFinite a = true.
Proof. by intros (x & -> & _). Qed.

Lemma moderateOption_finite (o : option num) :
  moderateOption o → finiteOption o.
Proof. destruct o; [apply moderate_finite|done]. Qed.

Lemma moderateRegion_finite (d : DKTRegionData) :
  moderateRegion d → finiteRegion d.
Proof.
  intros (Ht & Ha & Hv & H1 & H2 & H3 & H4).
  repeat split; by (apply moderate_finite || apply moderateOption_finite).
Qed.

Lemma moderateRegions_finite (m : gmap string DKTRegionData) :
  moderateRegions m → finiteRegions m.
Proof. intros Hm k d Hk. apply moderateRegion_finite. by apply (Hm k). Qed.

Lemma moderateData_finite (data : DKTData) :
  moderateData data → finiteData data.
Proof.
  intros (HL & HR & HLBA & HRBA).
  split; [by apply moderateRegions_finite|].
  split; [by apply moderateRegions_finite|].
  split.
  - destruct (lhBA data); [by apply moderateRegions_finite|done].
  - destruct (rhBA data); [by apply moderateRegions_finite|done].
Qed.

Lemma moderateRegion_plainRegion (t a v : R) :
  Rabs t <= 100000 → Rabs a <= 100000 → Rabs v <= 100000 →
  moderateRegion (plainRegion t a v).
Proof.
  intros Ht Ha Hv. split; [by exists t|]. split; [by exists a|].
  split; [by exists v|]. done.
Qed.

Lemma moderateData_superiorTemporalOnly : moderateData superiorTemporalOnly.
Proof.
  split; [|split; [|split; exact I]];
    apply map_Forall_singleton, moderateRegion_plainRegion;
    split_reals; lra.
Qed.

End Moderate.

Section ContributionSums.
#[local] Open Scope R_scope.

(** Rounding to three decimals moves a number of (-1, 1) by at most
    0.0005 and keeps it within [-1, 1]. *)
Lemma toFixed3_near (li : R) :
  -1 < li < 1 →
  ∃ x, toFixed3 (Fin li) = Fin x ∧ -1 <= x <= 1 ∧ Rabs (x - li) <= 0.0005.
Proof.
  intros Hli.
  destruct (toFixed3_unit_interval li Hli) as (x & Hx & Hbound).
  exists x. split; [done|]. split; [done|].
  unfold toFixed3 in Hx.
  assert (Habs : Rabs li < 1) by (apply Rabs_def1; lra).
  rewrite decide_False in Hx by lra.
  apply Rabs_le. case_decide as Hneg; injection Hx as <-.
  - rewrite (Rabs_left li) by done.
    pose proof (Zfloor_bound (- li * 1000 + 1 / 2)). lra.
  - pose proof (Zfloor_bound (li * 1000 + 1 / 2)). lra.
Qed.

Lemma ratioWithin_intro (terms : list (num * num * num)) (sL sR : R) :
  contribSumL terms = Fin sL → contribSumR terms = Fin sR →
  ratioWithin terms
    (toFixed3 (lateralizationRatio (contribSumL terms) (contribSumR terms))).
Proof.
  intros HL HR. rewrite HL, HR.
  destruct (lateralizationRatio_bounds sL sR) as [-> Hli].
  destruct (toFixed3_near _ Hli) as (x & -> & Hx & Hnear).
  exists sL, sR, x. repeat split; try done; lra.
Qed.

(** The sums of finite terms are finite. *)
Lemma contribSums_finite (terms : list (num * num * num)) :
  Forall finiteTerm terms →
  ∃ sL sR, contribSumL terms = Fin sL ∧ contribSumR terms = Fin sR.
Proof.
  induction 1 as [|term terms (w & zl & zr & -> & _) _ (sL & sR & HL & HR)].
  - by exists 0, 0.
  - cbn [contribSumL contribSumR foldr].
    fold (contribSumL terms). fold (contribSumR terms).
    rewrite HL, HR. autorewrite with num_eval. by eexists _, _.
Qed.

Lemma availableTerms_Forall {C : Type} (nameOf : C → string)
    (weightOf : C → num)
    (zOf : C → RefEntry → DKTRegionData → DKTRegionData → num * num)
    (lhMap rhMap : gmap string DKTRegionData) (configs : list C)
    (P : num * num * num → Prop) :
  (∀ cfg ref l r,
     cfg ∈ configs →
     available lhMap rhMap (nameOf cfg) = Some (ref, l, r) →
     P (weightOf cfg, (zOf cfg ref l r).1, (zOf cfg ref l r).2)) →
  Forall P (availableTerms nameOf weightOf zOf lhMap rhMap configs).
Proof.
  intros Hall. unfold availableTerms.
  induction configs as [|cfg configs IH]; [apply Forall_nil_2|].
  cbn [omap list_omap].
  destruct (available lhMap rhMap (nameOf cfg)) as [[[ref l] r]|] eqn:Hav.
  - pose proof (Hall cfg ref l r (list_elem_of_here _ _) Hav) as Hcfg.
    destruct (zOf cfg ref l r) as [zl zr]. apply Forall_cons_2; [done|].
    apply IH. intros c ref' l' r' Hc. apply Hall. by right.
  - apply IH. intros c ref' l' r' Hc. apply Hall. by right.
Qed.

End ContributionSums.

Section ContributionSumsOfCalculators.
#[local] Open Scope R_scope.

Variable data : DKTData.

(** The Language Input value is the rounded ratio of the contribution
    sums of the specification. *)
Lemma calculateLanguageInputLateralization_ratio :
  (calculateLanguageInputLateralization data).(value)
  = toFixed3 (lateralizationRatio
                (contribSumL (languageInputTerms data))
                (contribSumR (languageInputTerms data))).
Proof.
  unfold calculateLanguageInputLateralization, languageInputTerms,
    availableTerms, DKT_LANGUAGE_INPUT_REGIONS.
  rewrite !forAvailable_cons, forAvailable_nil.
  cbn [omap list_omap cfg_name cfg_weight wThick wArea wThird regionConfig].
  unfold zScore.
  destruct (available (lh data) (rh data) "superiortemporal")
    as [[[ref1 l1] r1]|];
  destruct (available (lh data) (rh data) "inferiorparietal")
    as [[[ref2 l2] r2]|];
  destruct (available (lh data) (rh data) "middletemporal")
    as [[[ref3 l3] r3]|];
  destruct (available (lh data) (rh data) "supramarginal")
    as [[[ref4 l4] r4]|];
  destruct (available (lh data) (rh data) "fusiform")
    as [[[ref5 l5] r5]|];
  cbn [contribSumL contribSumR foldr value];
  by rewrite ?add_0_l, ?add_0_r, ?add_assoc.
Qed.

Lemma calculateLanguageOutputLateralization_ratio
    (lhBAMap rhBAMap : gmap string DKTRegionData) :
  data.(lhBA) = Some lhBAMap → data.(rhBA) = Some rhBAMap →
  (calculateLanguageOutputLateralization data).(value)
  = toFixed3 (lateralizationRatio
                (contribSumL (languageOutputTerms lhBAMap rhBAMap))
                (contribSumR (languageOutputTerms lhBAMap rhBAMap))).
Proof.
  intros HL HR.
  unfold calculateLanguageOutputLateralization, languageOutputTerms,
    availableTerms.
  rewrite HL, HR.
  rewrite !forAvailable_cons, forAvailable_nil.
  cbn [omap list_omap cfg_name cfg_weight wThick wArea wThird regionConfig].
  unfold zScore.
  destruct (available lhBAMap rhBAMap "BA44_exvivo") as [[[ref1 l1] r1]|];
  destruct (available lhBAMap rhBAMap "BA45_exvivo") as [[[ref2 l2] r2]|];
  repeat match goal with
    | |- context [foldZScores ?n ?l ?r] => destruct (foldZScores n l r)
    end;
  cbn [contribSumL contribSumR foldr value];
  by rewrite ?add_0_l, ?add_0_r, ?add_assoc.
Qed.

Hypothesis Hfinite : finiteData data.

Lemma languageInputTerms_finite : Forall finiteTerm (languageInputTerms data).
Proof.
  destruct Hfinite as (HL & HR & _).
  apply availableTerms_Forall.
  intros cfg ref l r Hcfg (Href & Hl & Hr)%available_Some_inv.
  apply REFERENCE_DATA_MALE_valid in Href as (Ht & Ha & Hv).
  apply HL in Hl as (Hlt & Hla & Hlv & _).
  apply HR in Hr as (Hrt & Hra & Hrv & _).
  unfold zScore. cbn [fst snd].
  destruct (zScore_inline_finite _ _ Hlt Ht) as [zlt ->].
  destruct (zScore_inline_finite _ _ Hla Ha) as [zla ->].
  destruct (zScore_inline_finite _ _ Hlv Hv) as [zlv ->].
  destruct (zScore_inline_finite _ _ Hrt Ht) as [zrt ->].
  destruct (zScore_inline_finite _ _ Hra Ha) as [zra ->].
  destruct (zScore_inline_finite _ _ Hrv Hv) as [zrv ->].
  unfold DKT_LANGUAGE_INPUT_REGIONS in Hcfg.
  each_config Hcfg; cbn [cfg_weight wThick wArea wThird regionConfig];
    autorewrite with num_eval; eexists _, _, _; (split; [reflexivity|lra]).
Qed.

Lemma languageOutputTerms_finite
    (lhBAMap rhBAMap : gmap string DKTRegionData) :
  data.(lhBA) = Some lhBAMap → data.(rhBA) = Some rhBAMap →
  Forall finiteTerm (languageOutputTerms lhBAMap rhBAMap).
Proof.
  intros HLeq HReq. destruct Hfinite as (_ & _ & HL & HR).
  rewrite HLeq in HL. rewrite HReq in HR. cbn [from_option] in HL, HR.
  apply availableTerms_Forall.
  intros cfg ref l r Hcfg (Href & Hl & Hr)%available_Some_inv.
  apply REFERENCE_DATA_MALE_valid in Href as (Ht & Ha & Hv).
  apply HL in Hl. apply HR in Hr.
  destruct (foldZScores_finite cfg.(cfg_name) l r Hl Hr) as (fL & fR & ->).
  destruct Hl as (Hlt & Hla & _). destruct Hr as (Hrt & Hra & _).
  unfold zScore. cbn [fst snd].
  destruct (zScore_inline_finite _ _ Hlt Ht) as [zlt ->].
  destruct (zScore_inline_finite _ _ Hla Ha) as [zla ->].
  destruct (zScore_inline_finite _ _ Hrt Ht) as [zrt ->].
  destruct (zScore_inline_finite _ _ Hra Ha) as [zra ->].
  each_config Hcfg; cbn [cfg_weight wThick wArea wThird regionConfig];
    autorewrite with num_eval; eexists _, _, _; (split; [reflexivity|lra]).
Qed.

End ContributionSumsOfCalculators.

(** C8, as amended.  For every dataset whose measurements are finite and
    of moderate size, the contribution sums [ΣcontribL] and [ΣcontribR]
    of the Language Input index (and of the Language Output index when
    both subregion maps are present) are finite, their ratio
    [(ΣcontribL − ΣcontribR) / (|ΣcontribL| + |ΣcontribR| + 0.001)] lies
    strictly between -1 and 1, and the returned value is that ratio
    rounded to three decimals: it is within 0.001 of the ratio and lies
    between -1 and 1 inclusive.  Without the subregion maps the Language
    Output value is 0. *)
Theorem language_lateralization_ratio_bounds (data : DKTData) :
  moderateData data →
  ratioWithin (languageInputTerms data)
    (calculateLanguageInputLateralization data).(value)
  ∧ (∀ lhBAMap rhBAMap : gmap string DKTRegionData,
       data.(lhBA) = Some lhBAMap → data.(rhBA) = Some rhBAMap →
       ratioWithin (languageOutputTerms lhBAMap rhBAMap)
         (calculateLanguageOutputLateralization data).(value))
  ∧ (data.(lhBA) = None ∨ data.(rhBA) = None →
     (calculateLanguageOutputLateralization data).(value) = Fin 0).
Proof.
  intros Hfinite%moderateData_finite. split; [|split].
  - rewrite calculateLanguageInputLateralization_ratio.
    destruct (contribSums_finite _ (languageInputTerms_finite data Hfinite))
      as (sL & sR & HL & HR).
    by apply (ratioWithin_intro _ sL sR).
  - intros lhBAMap rhBAMap HLeq HReq.
    rewrite (calculateLanguageOutputLateralization_ratio data _ _ HLeq HReq).
    destruct (contribSums_finite _
                (languageOutputTerms_finite data Hfinite _ _ HLeq HReq))
      as (sL & sR & HL & HR).
    by apply (ratioWithin_intro _ sL sR).
  - unfold calculateLanguageOutputLateralization.
    intros [-> | ->]; [done|]. by destruct (lhBA data).
Qed.

Lemma language_lateralization_ratio_bounds_witness :
  ratioWithin (languageInputTerms superiorTemporalOnly)
    (calculateLanguageInputLateralization superiorTemporalOnly).(value).
Proof.
  apply (language_lateralization_ratio_bounds superiorTemporalOnly).
  apply moderateData_superiorTemporalOnly.
Defined.

(** ** The percentile bands of the Language Output index *)

Section BandExample.
#[local] Open Scope R_scope.

Lemma REFERENCE_BA44 :
  REFERENCE_DATA_MALE !! "BA44_exvivo"
  = Some (refEntry (ms 2.80 0.18) (ms 1650 300) (ms 5200 750)).
Proof. reflexivity. Qed.

(** With BA44 alone the two contribution sums are [0.24 * kL] and
    [0.24 * kR]: region weight 0.60 times thickness weight 0.40. *)
Lemma calculateLanguageOutputLateralization_ba44Only (kL kR : R) :
  (calculateLanguageOutputLateralization (ba44Only kL kR)).(value)
  = toFixed3 (lateralizationRatio (Fin (0.24 * kL)) (Fin (0.24 * kR)))
  ∧ (calculateLanguageOutputLateralization (ba44Only kL kR)).(percentile)
    = languageOutputPercentile
        (lateralizationRatio (Fin (0.24 * kL)) (Fin (0.24 * kR))).
Proof.
  unfold calculateLanguageOutputLateralization, ba44Only, ba44Thickness.
  cbn [lhBA rhBA].
  rewrite !forAvailable_cons, forAvailable_nil.
  cbn [cfg_name regionConfig].
  eval_available REFERENCE_BA44.
  decide_strings.
  rewrite foldZScores_absent by (by left).
  cbn beta iota zeta delta
    [cfg_name cfg_weight wThick wArea wThird regionConfig value percentile
     plainRegion thickness surfArea volume
     ref_thickness ref_surfArea ref_volume refEntry mean std ms].
  num_eval.
  match goal with
  | |- context [lateralizationRatio (Fin ?x) (Fin ?y)] =>
      replace x with (0.24 * kL) by lra; replace y with (0.24 * kR) by lra
  end.
  done.
Qed.

Lemma ratio_below_boundary :
  lateralizationRatio (Fin (0.24 * 3)) (Fin (0.24 * 5.2))
  = Fin (-0.528 / 1.969).
Proof.
  rewrite (proj1 (lateralizationRatio_bounds _ _)). split_reals.
  f_equal. lra.
Qed.

Lemma ratio_above_boundary :
  lateralizationRatio (Fin (0.24 * 3)) (Fin (0.24 * 4.8))
  = Fin (-0.432 / 1.873).
Proof.
  rewrite (proj1 (lateralizationRatio_bounds _ _)). split_reals.
  f_equal. lra.
Qed.

End BandExample.

(** C10.  The percentile of the Language Output Lateralization index is
    not monotone in the lateralization ratio.  With BA44 alone and the
    left thickness three deviations above the mean, a right thickness 5.2
    deviations above the mean gives the ratio [-0.528 / 1.969], value
    -0.268 and percentile 4; a right thickness 4.8 deviations above the
    mean gives the larger ratio [-0.432 / 1.873], value -0.231, but the
    smaller percentile 1.  The two ratios lie on either side of the band
    boundary -0.25, like -0.26 and -0.24, which the band formula maps to
    4 and to 1: the band above the boundary starts at -10 and is clamped
    up to 1. *)
Theorem languageOutputPercentile_not_monotone :
  (calculateLanguageOutputLateralization (ba44Only 3 5.2)).(value)
  = Fin (-0.268)
  ∧ (calculateLanguageOutputLateralization (ba44Only 3 5.2)).(percentile)
    = Fin 4
  ∧ (calculateLanguageOutputLateralization (ba44Only 3 4.8)).(value)
    = Fin (-0.231)
  ∧ (calculateLanguageOutputLateralization (ba44Only 3 4.8)).(percentile)
    = Fin 1
  ∧ ((calculateLanguageOutputLateralization (ba44Only 3 5.2)).(value)
     <? (calculateLanguageOutputLateralization (ba44Only 3 4.8)).(value))
    = true
  ∧ ((calculateLanguageOutputLateralization (ba44Only 3 4.8)).(percentile)
     <? (calculateLanguageOutputLateralization (ba44Only 3 5.2)).(percentile))
    = true
  ∧ (-0.26 < -0.24)%R
  ∧ languageOutputPercentile (Fin (-0.26)) = Fin 4
  ∧ languageOutputPercentile (Fin (-0.24)) = Fin 1.
Proof.
  destruct (calculateLanguageOutputLateralization_ba44Only 3 5.2)
    as [Hv1 Hp1].
  destruct (calculateLanguageOutputLateralization_ba44Only 3 4.8)
    as [Hv2 Hp2].
  rewrite ratio_below_boundary in Hv1, Hp1.
  rewrite ratio_above_boundary in Hv2, Hp2.
  assert (H1 : toFixed3 (Fin (-0.528 / 1.969)) = Fin (-0.268)).
  { unfold toFixed3. rewrite Rabs_left by lra. decide_reals.
    rewrite (Zfloor_eq 268) by lra. f_equal. lra. }
  assert (H2 : toFixed3 (Fin (-0.432 / 1.873)) = Fin (-0.231)).
  { unfold toFixed3. rewrite Rabs_left by lra. decide_reals.
    rewrite (Zfloor_eq 231) by lra. f_equal. lra. }
  assert (H3 : languageOutputPercentile (Fin (-0.528 / 1.969)) = Fin 4).
  { unfold languageOutputPercentile. num_eval.
    apply Math_round_Fin. split_reals. lra. }
  assert (H4 : languageOutputPercentile (Fin (-0.432 / 1.873)) = Fin 1).
  { unfold languageOutputPercentile. num_eval.
    apply Math_round_Fin. split_reals. lra. }
  assert (H5 : languageOutputPercentile (Fin (-0.26)) = Fin 4).
  { unfold languageOutputPercentile. num_eval.
    apply Math_round_Fin. split_reals. lra. }
  assert (H6 : languageOutputPercentile (Fin (-0.24)) = Fin 1).
  { unfold languageOutputPercentile. num_eval.
    apply Math_round_Fin. split_reals. lra. }
  rewrite Hv1, Hp1, Hv2, Hp2, H1, H2, H3, H4, H5, H6.
  rewrite !ltb_Fin.
  repeat split; try lra; apply bool_decide_eq_true_2; lra.
Qed.

(** ** Direct and renormalized sums, up to rounding *)

(** C3, counterexample.  With BA4a as the only available subregion (left
    thickness two standard deviations above the mean, everything else at
    the mean) the direct sum is [0.35 × 0.7 = 0.245], but the Handedness
    value is [0.245 / 0.35 = 0.7]: the sum is renormalized by the
    available weight. *)
Lemma handedness_value_is_renormalized :
  handednessBA4aOnly.(lhBA) = Some ba4aLeft
  ∧ handednessBA4aOnly.(rhBA) = Some ba4aRight
  ∧ directSum (handednessTerms ba4aLeft ba4aRight) = Fin 0.245
  ∧ round3 (directSum (handednessTerms ba4aLeft ba4aRight)) = Fin 0.245
  ∧ (calculateHandednessIndex handednessBA4aOnly).(value) = Fin 0.7
  ∧ (calculateHandednessIndex handednessBA4aOnly).(value)
    ≠ round3 (directSum (handednessTerms ba4aLeft ba4aRight)).
Proof.
  destruct handednessTerms_BA4aOnly as [Hsum Hweight].
  assert (Hround : round3 (Fin 0.245) = Fin 0.245).
  { rewrite round3_Fin, (Zfloor_eq 245) by lra. f_equal; lra. }
  assert (Hvalue :
    (calculateHandednessIndex handednessBA4aOnly).(value) = Fin 0.7).
  { rewrite (calculateHandednessIndex_renormalized _ ba4aLeft ba4aRight)
      by done.
    rewrite Hsum, Hweight. num_eval.
    rewrite round3_Fin, (Zfloor_eq 700) by lra. f_equal; lra. }
  rewrite Hsum, Hround, Hvalue. repeat split.
  intros [=]. lra.
Qed.

Section DirectSums.
#[local] Open Scope R_scope.

(** [Math.round(x * 1000) / 1000] moves a number by at most 0.0005. *)
Lemma round3_near (x : R) :
  ∃ v, round3 (Fin x) = Fin v ∧ Rabs (v - x) <= 0.0005.
Proof.
  rewrite round3_Fin. eexists. split; [reflexivity|].
  pose proof (Zfloor_bound (x * 1000 + 1 / 2)). apply Rabs_le. lra.
Qed.

Lemma round3_zero : round3 (Fin 0) = Fin 0.
Proof.
  rewrite round3_Fin, (Zfloor_eq 0) by lra. f_equal. lra.
Qed.

(** The direct sum and the total weight of finite terms are finite, and
    the total weight is not negative. *)
Lemma directSum_finite (terms : list (num * num * num)) :
  Forall finiteTerm terms →
  ∃ s w, directSum terms = Fin s ∧ weightSum terms = Fin w ∧ 0 <= w.
Proof.
  induction 1
    as [|term terms (w & zl & zr & -> & Hw) _ (s & W & Hs & HW & Hpos)].
  - exists 0, 0. repeat split; lra.
  - cbn [directSum weightSum foldr].
    fold (directSum terms). fold (weightSum terms).
    rewrite Hs, HW. autorewrite with num_eval. eexists _, _.
    split; [done|]. split; [done|lra].
Qed.

Variable data : DKTData.
Hypothesis Hfinite : finiteData data.

Lemma dominantEyeTerms_finite : Forall finiteTerm (dominantEyeTerms data).
Proof.
  destruct Hfinite as (HL & HR & _).
  apply availableTerms_Forall.
  intros cfg ref l r Hcfg (Href & Hl & Hr)%available_Some_inv.
  apply REFERENCE_DATA_MALE_valid in Href.
  apply HL in Hl. apply HR in Hr. cbn [fst snd].
  destruct (compositeZScore_finite l ref 92 4 4 Href Hl) as [zl ->].
  destruct (compositeZScore_finite r ref 92 4 4 Href Hr) as [zr ->].
  each_config Hcfg; cbn [snd]; eexists _, _, _; (split; [reflexivity|lra]).
Qed.

Lemma handednessTerms_finite (lhBAMap rhBAMap : gmap string DKTRegionData) :
  data.(lhBA) = Some lhBAMap → data.(rhBA) = Some rhBAMap →
  Forall finiteTerm (handednessTerms lhBAMap rhBAMap).
Proof.
  intros HLeq HReq. destruct Hfinite as (_ & _ & HL & HR).
  rewrite HLeq in HL. rewrite HReq in HR. cbn [from_option] in HL, HR.
  apply availableTerms_Forall.
  intros cfg ref l r Hcfg (Href & Hl & Hr)%available_Some_inv.
  apply REFERENCE_DATA_MALE_valid in Href as (Ht & Ha & Hv).
  apply HL in Hl. apply HR in Hr.
  destruct (foldZScores_finite cfg.(cfg_name) l r Hl Hr) as (fL & fR & ->).
  destruct Hl as (Hlt & Hla & _). destruct Hr as (Hrt & Hra & _).
  unfold zScore. cbn [fst snd].
  destruct (zScore_inline_finite _ _ Hlt Ht) as [zlt ->].
  destruct (zScore_inline_finite _ _ Hla Ha) as [zla ->].
  destruct (zScore_inline_finite _ _ Hrt Ht) as [zrt ->].
  destruct (zScore_inline_finite _ _ Hra Ha) as [zra ->].
  each_config Hcfg; cbn [cfg_weight wThick wArea wThird regionConfig];
    autorewrite with num_eval; eexists _, _, _; (split; [reflexivity|lra]).
Qed.

(** The Dominant Eye value is within 0.0005 of the direct sum. *)
Lemma calculateDominantEyeIndex_near_direct_sum :
  ∃ s v, directSum (dominantEyeTerms data) = Fin s
    ∧ (calculateDominantEyeIndex data).(value) = Fin v
    ∧ Rabs (v - s) <= 0.001.
Proof.
  destruct (directSum_finite _ dominantEyeTerms_finite) as (s & w & Hs & _).
  rewrite calculateDominantEyeIndex_direct_sum, Hs.
  destruct (round3_near s) as (v & -> & Hv).
  exists s, v. repeat split; try done. lra.
Qed.

(** The Handedness value is within 0.0005 of the direct sum divided by
    the total weight of the available subregions. *)
Lemma calculateHandednessIndex_near_renormalized
    (lhBAMap rhBAMap : gmap string DKTRegionData) :
  data.(lhBA) = Some lhBAMap → data.(rhBA) = Some rhBAMap →
  ∃ s w v, directSum (handednessTerms lhBAMap rhBAMap) = Fin s
    ∧ weightSum (handednessTerms lhBAMap rhBAMap) = Fin w
    ∧ (calculateHandednessIndex data).(value) = Fin v
    ∧ 0 <= w
    ∧ (0 < w → Rabs (v - s / w) <= 0.001)
    ∧ (w = 0 → v = 0).
Proof.
  intros HLeq HReq.
  destruct (directSum_finite _ (handednessTerms_finite _ _ HLeq HReq))
    as (s & w & Hs & Hw & Hpos).
  rewrite (calculateHandednessIndex_renormalized data _ _ HLeq HReq).
  rewrite Hs, Hw, gtb_Fin.
  case_bool_decide as Hgt.
  - rewrite div_Fin by lra. destruct (round3_near (s / w)) as (v & -> & Hv).
    exists s, w, v. repeat split; try done; try lra.
  - rewrite round3_zero. exists s, w, 0.
    repeat split; try done; try lra.
Qed.

End DirectSums.

Section DirectSumExamples.
#[local] Open Scope R_scope.

Lemma moderateRegions_list_to_map (entries : list (string * DKTRegionData)) :
  Forall (λ e, moderateRegion e.2) entries →
  moderateRegions (list_to_map entries).
Proof.
  induction 1 as [|[n d] entries Hd _ IH]; [apply map_Forall_empty|].
  cbn [list_to_map foldr]. by apply map_Forall_insert_2.
Qed.

Lemma moderateData_handednessScenarioData :
  moderateData handednessScenarioData.
Proof.
  split; [apply map_Forall_empty|]. split; [apply map_Forall_empty|].
  split; cbn [from_option handednessScenarioData lhBA rhBA];
    apply moderateRegions_list_to_map;
    repeat (apply Forall_cons_2;
            [apply moderateRegion_plainRegion; split_reals; lra|]);
    apply Forall_nil_2.
Qed.

End DirectSumExamples.

(** C3, as amended.  For measurements of moderate size, the Dominant Eye
    value is the direct (unnormalized) sum of [weight × (zL − zR)] over
    the available regions, up to the rounding to three decimals: it is
    within 0.001 of that sum; it is not confined to an interval, every
    bound up to [1e300] being exceeded on some dataset.  The Handedness
    value is that sum divided by the total weight of the available
    subregions, up to the same rounding (and 0 when no subregion is
    available); it is within 0.001 of the direct sum itself when all
    three subregions are available, the total weight then being 1. *)
Theorem dominantEye_direct_handedness_renormalized :
  (∀ data : DKTData,
     moderateData data →
     ∃ s v : R,
       directSum (dominantEyeTerms data) = Fin s
       ∧ (calculateDominantEyeIndex data).(value) = Fin v
       ∧ (Rabs (v - s) <= 0.001)%R)
  ∧ (∀ bound : R, (bound <= 1e300)%R → ∃ (data : DKTData) (v : R),
       (calculateDominantEyeIndex data).(value) = Fin v ∧ (bound < v)%R)
  ∧ (∀ (data : DKTData) (lhBAMap rhBAMap : gmap string DKTRegionData),
       data.(lhBA) = Some lhBAMap → data.(rhBA) = Some rhBAMap →
       moderateData data →
       ∃ s w v : R,
         directSum (handednessTerms lhBAMap rhBAMap) = Fin s
         ∧ weightSum (handednessTerms lhBAMap rhBAMap) = Fin w
         ∧ (calculateHandednessIndex data).(value) = Fin v
         ∧ (0 <= w)%R
         ∧ ((0 < w)%R → (Rabs (v - s / w) <= 0.001)%R)
         ∧ (w = 0%R → v = 0%R))
  ∧ (∀ (data : DKTData) (lhBAMap rhBAMap : gmap string DKTRegionData),
       data.(lhBA) = Some lhBAMap → data.(rhBA) = Some rhBAMap →
       moderateData data →
       Forall (λ n, is_Some (lhBAMap !! n) ∧ is_Some (rhBAMap !! n))
         ["BA4a_exvivo"; "BA4p_exvivo"; "BA3b_exvivo"] →
       ∃ s v : R,
         directSum (handednessTerms lhBAMap rhBAMap) = Fin s
         ∧ (calculateHandednessIndex data).(value) = Fin v
         ∧ (Rabs (v - s) <= 0.001)%R).
Proof.
  split; [|split; [|split]].
  - intros data Hdata%moderateData_finite.
    by apply calculateDominantEyeIndex_near_direct_sum.
  - intros bound _.
    exists (pericalcarineOnly (2 * Rmax bound 0 + 1)). eexists.
    rewrite calculateDominantEyeIndex_direct_sum,
      dominantEyeTerms_pericalcarineOnly, round3_Fin.
    split; [reflexivity|].
    pose proof (Zfloor_bound (0.644 * (2 * Rmax bound 0 + 1) * 1000 + 1 / 2)).
    pose proof (Rmax_l bound 0). pose proof (Rmax_r bound 0).
    lra.
  - intros data lhBAMap rhBAMap HL HR Hdata%moderateData_finite.
    by apply calculateHandednessIndex_near_renormalized.
  - intros data lhBAMap rhBAMap HL HR Hdata%moderateData_finite Hall.
    destruct (calculateHandednessIndex_near_renormalized data Hdata _ _ HL HR)
      as (s & w & v & Hs & Hw & Hv & _ & Hnear & _).
    rewrite (handednessTerms_full_weight _ _ Hall) in Hw.
    injection Hw as <-. exists s, v. repeat split; try done.
    replace (v - s)%R with (v - s / 1)%R by lra. apply Hnear. lra.
Qed.

Lemma dominantEye_direct_handedness_renormalized_witness :
  ∃ s v : R,
    directSum
      (handednessTerms
         (list_to_map
            [("BA4a_exvivo", plainRegion (2.85 + 0.20) (1300 + 250) 4300);
             ("BA4p_exvivo", plainRegion (2.80 + 0.19) (1000 + 200) 2700);
             ("BA3b_exvivo", plainRegion (2.15 + 0.18) (2000 + 350) 4500)])
         (list_to_map
            [("BA4a_exvivo", plainRegion 2.85 1300 4300);
             ("BA4p_exvivo", plainRegion 2.80 1000 2700);
             ("BA3b_exvivo", plainRegion 2.15 2000 4500)])) = Fin s
    ∧ (calculateHandednessIndex handednessScenarioData).(value) = Fin v
    ∧ (Rabs (v - s) <= 0.001)%R.
Proof.
  destruct dominantEye_direct_handedness_renormalized as (_ & _ & _ & Hfull).
  apply (Hfull handednessScenarioData); [reflexivity..| |].
  - apply moderateData_handednessScenarioData.
  - repeat (apply Forall_cons_2; [split; eexists; reflexivity|]).
    apply Forall_nil_2.
Defined.

(* ===================================================================== *)
(** ** Propagation of [NaN] through the calculators *)
(* ===================================================================== *)

Section NaNLoops.
Context {C S : Type} (nameOf : C → string).
Context (lhMap rhMap : gmap string DKTRegionData).
Context (body : C → RefEntry → DKTRegionData → DKTRegionData → S → S).

(** If [Q] holds until an available region [cfg] is reached, the step at
    [cfg] turns [Q] into [P], and [P] is kept by every step, then [P]
    holds after the loop. *)
Lemma forAvailable_eventually (Q P : S → Prop) (configs : list C) (init : S)
    (cfg : C) (ref : RefEntry) (l r : DKTRegionData) :
  cfg ∈ configs →
  available lhMap rhMap (nameOf cfg) = Some (ref, l, r) →
  Q init →
  (∀ c ref' l' r' acc, c ∈ configs → Q acc → Q (body c ref' l' r' acc)) →
  (∀ acc, Q acc → P (body cfg ref l r acc)) →
  (∀ c ref' l' r' acc, c ∈ configs → P acc → P (body c ref' l' r' acc)) →
  P (forAvailable nameOf lhMap rhMap body configs init).
Proof.
  intros Hin Hav. revert init.
  induction configs as [|c configs IH]; intros init HQ HQstep Hhit HPstep.
  - by apply elem_of_nil in Hin.
  - rewrite forAvailable_cons.
    apply elem_of_cons in Hin as [<- | Hin].
    + rewrite Hav. apply forAvailable_ind.
      * by apply Hhit.
      * intros c' ref' l' r' acc Hc' _ HP. apply HPstep; [by right|done].
    + apply IH; try done.
      * destruct (available lhMap rhMap (nameOf c)) as [[[ref' l'] r']|];
          [|done].
        apply HQstep; [by left|done].
      * intros c' ref' l' r' acc Hc'. apply HQstep. by right.
      * intros c' ref' l' r' acc Hc'. apply HPstep. by right.
Qed.

End NaNLoops.

Section NaNFacts.
#[local] Open Scope R_scope.

Lemma zToPercentile_NaN : zToPercentile NaN = NaN.
Proof. reflexivity. Qed.

Lemma round_scaled_NaN (k : num) : (Math_round (NaN * k) / k)%num = NaN.
Proof. reflexivity. Qed.

Lemma toFixed3_NaN : toFixed3 NaN = NaN.
Proof. reflexivity. Qed.

Lemma compositeZScore_NaN (d : DKTRegionData) (ref : RefEntry)
    (weights : num * num * num) :
  nanMeasurement d → compositeZScore d ref weights = NaN.
Proof.
  unfold compositeZScore, zScore. intros [-> | ->];
    by autorewrite with num_eval.
Qed.

(** A region of [names] with a [NaN] measurement is a configuration of
    the loop that is available. *)
Lemma hasNaNRegion_config {C : Type} (nameOf : C → string)
    (lhMap rhMap : gmap string DKTRegionData) (configs : list C) :
  Forall (λ c, is_Some (REFERENCE_DATA_MALE !! nameOf c)) configs →
  hasNaNRegion lhMap rhMap (map nameOf configs) →
  ∃ cfg ref l r, cfg ∈ configs
    ∧ available lhMap rhMap (nameOf cfg) = Some (ref, l, r)
    ∧ (nanMeasurement l ∨ nanMeasurement r).
Proof.
  intros Hrefs (n & l & r & Hn & Hl & Hr & Hnan).
  apply list_elem_of_fmap in Hn as (cfg & -> & Hcfg).
  destruct (proj1 (Forall_forall _ _) Hrefs cfg Hcfg) as [ref Href].
  exists cfg, ref, l, r. repeat split; try done.
  by apply available_Some.
Qed.

(** The loops built on [blendBody]: once a region with a [NaN]
    measurement is reached the running total is [NaN]. *)
Lemma blendBody_loop_NaN (metricWeights : num * num * num)
    (blend cL cR : num → num → num)
    (lhMap rhMap : gmap string DKTRegionData)
    (regionWeights : list (string * num)) (init : num * list RegionDetail) :
  (∀ z, blend NaN z = NaN ∧ blend z NaN = NaN) →
  Forall (λ c, is_Some (REFERENCE_DATA_MALE !! c.1)) regionWeights →
  hasNaNRegion lhMap rhMap (map fst regionWeights) →
  (forAvailable fst lhMap rhMap (blendBody metricWeights blend cL cR)
     regionWeights init).1 = NaN.
Proof.
  intros Hblend Hrefs (cfg & ref & l & r & Hcfg & Hav & Hnan)%hasNaNRegion_config;
    [|done].
  apply (forAvailable_eventually fst lhMap rhMap _
           (λ _, True) (λ acc, acc.1 = NaN) _ _ cfg ref l r); try done.
  - intros [total dets] _. destruct cfg as [n w]. cbn [blendBody fst].
    destruct Hnan as [Hnan | Hnan];
      rewrite (compositeZScore_NaN _ _ _ Hnan);
      destruct (Hblend (compositeZScore l ref metricWeights)) as [H1 H2];
      destruct (Hblend (compositeZScore r ref metricWeights)) as [H3 H4];
      rewrite ?H1, ?H2, ?H3, ?H4; by autorewrite with num_eval.
  - intros [n w] ref' l' r' [total dets] _. cbn [blendBody fst].
    intros ->. by autorewrite with num_eval.
Qed.

End NaNFacts.

Section NaNCalculators.
#[local] Open Scope R_scope.

Variable data : DKTData.

(** Every region name of a configuration list has a reference entry. *)
Ltac all_referenced :=
  repeat (apply Forall_cons_2; [by eexists|]); apply Forall_nil_2.

(** The calculators built on [blendBody]. *)
Ltac poisoned_blend H :=
  unfold poisoned;
  match goal with
  | |- context [forAvailable fst ?l ?r (blendBody ?mw ?blend ?cL ?cR)
                  ?cfgs ?init] =>
      let Hloop := fresh "Hloop" in
      assert (Hloop :
        (forAvailable fst l r (blendBody mw blend cL cR) cfgs init).1 = NaN)
        by (apply blendBody_loop_NaN;
            [intros z; split; by autorewrite with num_eval
            |all_referenced
            |exact H]);
      destruct (forAvailable fst l r (blendBody mw blend cL cR) cfgs init)
        as [total dets];
      cbn [fst] in Hloop; subst total; by split
  end.

Lemma calculateOlfactoryIndex_NaN :
  hasNaNRegion data.(lh) data.(rh)
    ["entorhinal"; "parahippocampal"; "medialorbitofrontal"] →
  poisoned (calculateOlfactoryIndex data).
Proof. intros H. unfold calculateOlfactoryIndex. poisoned_blend H. Qed.

Lemma calculateReadingIndex_NaN :
  hasNaNRegion data.(lh) data.(rh)
    ["superiortemporal"; "supramarginal"; "inferiorparietal"; "fusiform"] →
  poisoned (calculateReadingIndex data).
Proof. intros H. unfold calculateReadingIndex. poisoned_blend H. Qed.

Lemma calculateEmpathyIndex_NaN :
  hasNaNRegion data.(lh) data.(rh)
    ["rostralanteriorcingulate"; "medialorbitofrontal"; "insula";
     "posteriorcingulate"] →
  poisoned (calculateEmpathyIndex data).
Proof. intros H. unfold calculateEmpathyIndex. poisoned_blend H. Qed.

Lemma calculateExecutiveIndex_NaN :
  hasNaNRegion data.(lh) data.(rh)
    ["superiorfrontal"; "rostralmiddlefrontal"; "caudalmiddlefrontal";
     "parsopercularis"] →
  poisoned (calculateExecutiveIndex data).
Proof. intros H. unfold calculateExecutiveIndex. poisoned_blend H. Qed.

Lemma calculateSpatialIndex_NaN :
  hasNaNRegion data.(lh) data.(rh)
    ["inferiorparietal"; "superiorparietal"; "precuneus"] →
  poisoned (calculateSpatialIndex data).
Proof. intros H. unfold calculateSpatialIndex. poisoned_blend H. Qed.

Lemma calculateFluidIntelligenceIndex_NaN :
  hasNaNRegion data.(lh) data.(rh)
    ["superiorfrontal"; "inferiorparietal"; "superiortemporal";
     "rostralmiddlefrontal"; "insula"] →
  poisoned (calculateFluidIntelligenceIndex data).
Proof. intros H. unfold calculateFluidIntelligenceIndex. poisoned_blend H. Qed.

Lemma calculateDominantEyeIndex_NaN :
  hasNaNRegion data.(lh) data.(rh) ["pericalcarine"; "cuneus"; "lingual"] →
  poisoned (calculateDominantEyeIndex data).
Proof. intros H. unfold calculateDominantEyeIndex. poisoned_blend H. Qed.

(** The loops with a body of their own: [Q] before the region with the
    [NaN] measurement, [P] from there on. *)
Ltac find_NaN_region H cfg ref l r Hcfg Hav Hnan :=
  match goal with
  | |- context [forAvailable ?n ?lm ?rm ?body ?cfgs ?init] =>
      destruct (hasNaNRegion_config n lm rm cfgs)
        as (cfg & ref & l & r & Hcfg & Hav & Hnan);
      [all_referenced | exact H |]
  end.

Ltac loop_eventually Q P cfg ref l r Hcfg Hav Hloop :=
  match goal with
  | |- context [forAvailable ?n ?lm ?rm ?body ?cfgs ?init] =>
      assert (Hloop : P (forAvailable n lm rm body cfgs init));
      [apply (forAvailable_eventually n lm rm body Q P cfgs init
                cfg ref l r Hcfg Hav)
      |]
  end.

(** The weight of a configuration of the list at hand is positive. *)
Ltac positive_weight Hc :=
  repeat (apply elem_of_cons in Hc as [-> | Hc]);
  [..|by apply elem_of_nil in Hc];
  cbn [cfg_weight regionConfig snd].

Lemma hasNaNRegion_mono (lhMap rhMap : gmap string DKTRegionData)
    (names names' : list string) :
  names ⊆ names' →
  hasNaNRegion lhMap rhMap names → hasNaNRegion lhMap rhMap names'.
Proof.
  intros Hsub (n & l & r & Hn & H). exists n, l, r. split; [|done].
  by apply Hsub.
Qed.

Lemma calculatePreferredNostrilIndex_NaN :
  hasNaNRegion data.(lh) data.(rh)
    ["entorhinal"; "parahippocampal"; "medialorbitofrontal"; "insula"] →
  poisoned (calculatePreferredNostrilIndex data).
Proof.
  intros H. unfold calculatePreferredNostrilIndex, poisoned.
  apply (hasNaNRegion_mono _ _ _
           ["entorhinal"; "parahippocampal"; "medialorbitofrontal"; "insula";
            "entorhinal"]) in H;
    [|intros x; rewrite !elem_of_cons; tauto].
  find_NaN_region H cfg ref l r Hcfg Hav Hnan.
  loop_eventually (λ _ : num * list RegionDetail, True)
    (λ acc : num * list RegionDetail, acc.1 = NaN) cfg ref l r Hcfg Hav Hloop.
  - done.
  - done.
  - intros [raw dets] _. cbn [fst].
    destruct Hnan as [Hnan | Hnan]; rewrite (compositeZScore_NaN _ _ _ Hnan);
      by autorewrite with num_eval.
  - intros c ref' l' r' [raw dets] _. cbn [fst]. intros ->.
    by autorewrite with num_eval.
  - cbv beta in Hloop.
    destruct (forAvailable _ _ _ _ _ _) as [raw dets].
    cbn [fst] in Hloop. subst raw. by split.
Qed.

Lemma calculateLanguageIndex_NaN :
  hasNaNRegion data.(lh) data.(rh)
    ["superiortemporal"; "parsopercularis"; "parstriangularis";
     "middletemporal"; "fusiform"]
  ∨ hasNaNSubregion data ["BA44_exvivo"; "BA45_exvivo"] →
  poisoned (calculateLanguageIndex data).
Proof.
  intros H. unfold calculateLanguageIndex, poisoned. cbv zeta.
  match goal with
  | |- context [match ?acc with (_, _) => _ end] =>
      assert (Hloop : acc.1.1 = NaN);
      [|destruct acc as [[ti tw] dets]; cbn [fst] in Hloop; subst ti;
        destruct (_ && _); by autorewrite with num_eval]
  end.
  destruct H as [H | (lhBAMap & rhBAMap & -> & -> & H)].
  - find_NaN_region H cfg ref l r Hcfg Hav Hnan.
    loop_eventually (λ _ : num * num * list RegionDetail, True)
      (λ acc : num * num * list RegionDetail, acc.1.1 = NaN)
      cfg ref l r Hcfg Hav Hloop.
    + done.
    + done.
    + intros [[ti tw] dets] _. destruct cfg as [n w]. cbn [fst].
      destruct Hnan as [Hnan | Hnan]; rewrite (compositeZScore_NaN _ _ _ Hnan);
        by autorewrite with num_eval.
    + intros [n w] ref' l' r' [[ti tw] dets] _. cbn [fst]. intros ->.
      by autorewrite with num_eval.
    + destruct (lhBA data), (rhBA data); try done.
      apply (forAvailable_ind _ _ _ _
               (λ acc : num * num * list RegionDetail, acc.1.1 = NaN));
        [done|].
      intros [n w] ref' l' r' [[ti tw] dets] _ _. cbn [fst]. intros ->.
      by autorewrite with num_eval.
  - find_NaN_region H cfg ref l r Hcfg Hav Hnan.
    apply (forAvailable_eventually _ _ _ _
             (λ _ : num * num * list RegionDetail, True)
             (λ acc : num * num * list RegionDetail, acc.1.1 = NaN)
             _ _ cfg ref l r Hcfg Hav).
    + done.
    + done.
    + intros [[ti tw] dets] _. destruct cfg as [n w]. cbn [fst].
      destruct Hnan as [Hnan | Hnan]; rewrite (compositeZScore_NaN _ _ _ Hnan);
        by autorewrite with num_eval.
    + intros [n w] ref' l' r' [[ti tw] dets] _. cbn [fst]. intros ->.
      by autorewrite with num_eval.
Qed.

Lemma calculateParietalIQIndex_NaN :
  hasNaNRegion data.(lh) data.(rh)
    ["supramarginal"; "inferiorparietal"; "superiorparietal"; "precuneus";
     "posteriorcingulate"] →
  poisoned (calculateParietalIQIndex data).
Proof.
  intros H. unfold calculateParietalIQIndex, poisoned.
  find_NaN_region H cfg ref l r Hcfg Hav Hnan.
  loop_eventually weightNonneg totalNaN cfg ref l r Hcfg Hav Hloop.
  - exists 0. split; [done|lra].
  - intros c ref' l' r' [[ti tw] dets] Hc (w & Hw & Hpos).
    cbn [fst snd] in Hw. subst tw. positive_weight Hc;
      (eexists; split; [by rewrite add_Fin|lra]).
  - intros [[ti tw] dets] (w & Hw & Hpos). cbn [fst snd] in Hw. subst tw.
    split.
    + cbn [fst].
      destruct Hnan as [[Hnan | Hnan] | [Hnan | Hnan]]; rewrite Hnan;
        by autorewrite with num_eval.
    + pose proof Hcfg as Hc. positive_weight Hc;
        (eexists; split; [by rewrite add_Fin|lra]).
  - intros c ref' l' r' [[ti tw] dets] Hc (Hti & w & Hw & Hpos).
    cbn [fst snd] in Hti, Hw. subst ti tw. split.
    + cbn [fst]. by autorewrite with num_eval.
    + positive_weight Hc; (eexists; split; [by rewrite add_Fin|lra]).
  - destruct (forAvailable _ _ _ _ _ _) as [[ti tw] dets].
    destruct Hloop as (Hti & w & Hw & Hpos). cbn [fst snd] in Hti, Hw.
    subst ti tw. rewrite gtb_Fin. decide_reals.
    by autorewrite with num_eval.
Qed.

Lemma calculateHandednessIndex_NaN :
  hasNaNSubregion data ["BA4a_exvivo"; "BA4p_exvivo"; "BA3b_exvivo"] →
  poisoned (calculateHandednessIndex data).
Proof.
  intros (lhBAMap & rhBAMap & HL & HR & H).
  unfold calculateHandednessIndex, poisoned. rewrite HL, HR.
  find_NaN_region H cfg ref l r Hcfg Hav Hnan.
  loop_eventually weightNonneg totalNaN cfg ref l r Hcfg Hav Hloop.
  - exists 0. split; [done|lra].
  - intros c ref' l' r' [[ti tw] dets] Hc (w & Hw & Hpos).
    cbn [fst snd] in Hw. subst tw. destruct (foldZScores _ _ _).
    positive_weight Hc; (eexists; split; [by rewrite add_Fin|lra]).
  - intros [[ti tw] dets] (w & Hw & Hpos). cbn [fst snd] in Hw. subst tw.
    destruct (foldZScores _ _ _). split.
    + cbn [fst].
      destruct Hnan as [[Hnan | Hnan] | [Hnan | Hnan]]; rewrite Hnan;
        by autorewrite with num_eval.
    + pose proof Hcfg as Hc. positive_weight Hc;
        (eexists; split; [by rewrite add_Fin|lra]).
  - intros c ref' l' r' [[ti tw] dets] Hc (Hti & w & Hw & Hpos).
    cbn [fst snd] in Hti, Hw. subst ti tw. destruct (foldZScores _ _ _).
    split.
    + cbn [fst]. by autorewrite with num_eval.
    + positive_weight Hc; (eexists; split; [by rewrite add_Fin|lra]).
  - destruct (forAvailable _ _ _ _ _ _) as [[ti tw] dets].
    destruct Hloop as (Hti & w & Hw & Hpos). cbn [fst snd] in Hti, Hw.
    subst ti tw. rewrite gtb_Fin. decide_reals.
    by autorewrite with num_eval.
Qed.

Lemma lateralizationRatio_NaN (a b : num) :
  a = NaN ∨ b = NaN → lateralizationRatio a b = NaN.
Proof.
  unfold lateralizationRatio. intros [-> | ->]; by autorewrite with num_eval.
Qed.

Lemma calculateLanguageOutputLateralization_NaN :
  hasNaNSubregion data ["BA44_exvivo"; "BA45_exvivo"] →
  poisoned (calculateLanguageOutputLateralization data).
Proof.
  intros (lhBAMap & rhBAMap & HL & HR & H).
  unfold calculateLanguageOutputLateralization, poisoned. rewrite HL, HR.
  find_NaN_region H cfg ref l r Hcfg Hav Hnan.
  loop_eventually (λ _ : num * num * num * list RegionDetail, True)
    (λ acc : num * num * num * list RegionDetail,
       acc.1.1.1 = NaN ∨ acc.1.1.2 = NaN) cfg ref l r Hcfg Hav Hloop.
  - done.
  - done.
  - intros [[[sl sr] tw] dets] _. destruct (foldZScores _ _ _).
    cbn [fst snd].
    destruct Hnan as [[Hnan | Hnan] | [Hnan | Hnan]]; rewrite Hnan;
      autorewrite with num_eval; auto.
  - intros c ref' l' r' [[[sl sr] tw] dets] _. destruct (foldZScores _ _ _).
    cbn [fst snd]. intros [-> | ->]; autorewrite with num_eval; auto.
  - destruct (forAvailable _ _ _ _ _ _) as [[[sl sr] tw] dets].
    cbn [fst snd] in Hloop. cbn [value percentile].
    by rewrite (lateralizationRatio_NaN _ _ Hloop).
Qed.

Lemma calculateLanguageInputLateralization_NaN :
  hasNaNRegion data.(lh) data.(rh)
    ["superiortemporal"; "inferiorparietal"; "middletemporal";
     "supramarginal"; "fusiform"] →
  poisoned (calculateLanguageInputLateralization data).
Proof.
  intros H. unfold calculateLanguageInputLateralization, poisoned.
  find_NaN_region H cfg ref l r Hcfg Hav Hnan.
  loop_eventually (λ _ : num * num * num * list RegionDetail, True)
    (λ acc : num * num * num * list RegionDetail,
       acc.1.1.1 = NaN ∨ acc.1.1.2 = NaN) cfg ref l r Hcfg Hav Hloop.
  - done.
  - done.
  - intros [[[sl sr] ts] dets] _. cbn [fst snd].
    destruct Hnan as [[Hnan | Hnan] | [Hnan | Hnan]]; rewrite Hnan;
      autorewrite with num_eval; auto.
  - intros c ref' l' r' [[[sl sr] ts] dets] _.
    cbn [fst snd]. intros [-> | ->]; autorewrite with num_eval; auto.
  - destruct (forAvailable _ _ _ _ _ _) as [[[sl sr] ts] dets].
    cbn [fst snd] in Hloop. cbn [value percentile].
    by rewrite (lateralizationRatio_NaN _ _ Hloop).
Qed.

Lemma calculateLanguageLateralizationIndex_NaN :
  hasNaNSubregion data ["BA44_exvivo"; "BA45_exvivo"]
  ∨ hasNaNRegion data.(lh) data.(rh)
      ["superiortemporal"; "inferiorparietal"; "middletemporal";
       "supramarginal"; "fusiform"] →
  poisoned (calculateLanguageLateralizationIndex data).
Proof.
  intros H. unfold calculateLanguageLateralizationIndex, poisoned.
  cbv zeta. cbn [value percentile].
  destruct H as [[Hv _]%calculateLanguageOutputLateralization_NaN
                | [Hv _]%calculateLanguageInputLateralization_NaN];
    rewrite Hv; by autorewrite with num_eval.
Qed.

End NaNCalculators.

Section NaNExample.
#[local] Open Scope R_scope.

Lemma REFERENCE_parahippocampal :
  REFERENCE_DATA_MALE !! "parahippocampal"
  = Some (refEntry (ms 2.75 0.22) (ms 700 120) (ms 2200 380)).
Proof. reflexivity. Qed.

Lemma nanEntorhinalData_hasNaNRegion :
  hasNaNRegion nanEntorhinalData.(lh) nanEntorhinalData.(rh)
    ["entorhinal"; "parahippocampal"; "medialorbitofrontal"].
Proof.
  exists "entorhinal", (nanThickness 480 1600), (plainRegion 3.20 480 1600).
  split; [by left|]. split; [apply lookup_insert_eq|].
  split; [apply lookup_insert_eq|]. left. by left.
Qed.

Lemma calculateOlfactoryIndex_parahippocampalOnly :
  (calculateOlfactoryIndex parahippocampalOnly).(value) = Fin 0.08.
Proof.
  unfold calculateOlfactoryIndex, parahippocampalOnly. cbn [lh rh].
  rewrite !forAvailable_cons, forAvailable_nil. cbn [fst].
  eval_available REFERENCE_parahippocampal.
  decide_strings.
  unfold blendBody, compositeZScore, zScore.
  cbn beta iota zeta delta
    [fst snd value plainRegion thickness surfArea volume
     ref_thickness ref_surfArea ref_volume refEntry mean std ms].
  num_eval.
  rewrite (Math_round_Fin _ 8) by lra.
  rewrite div_Fin by lra. f_equal; lra.
Qed.

End NaNExample.

(** C1, counterexample.  Entorhinal and parahippocampal are measured in
    both hemispheres and the left entorhinal thickness is [NaN], so the
    left composite z-score of entorhinal is [NaN].  The region is not
    excluded: the Olfactory value and percentile are [NaN], whereas the
    dataset without the entorhinal region gives the value 0.08. *)
Lemma olfactory_NaN_region_not_excluded :
  compositeZScore (nanThickness 480 1600)
    (refEntry (ms 3.20 0.35) (ms 480 100) (ms 1600 350))
    (Fin 80, Fin 10, Fin 10) = NaN
  ∧ (calculateOlfactoryIndex nanEntorhinalData).(value) = NaN
  ∧ (calculateOlfactoryIndex nanEntorhinalData).(percentile) = NaN
  ∧ (calculateOlfactoryIndex parahippocampalOnly).(value) = Fin 0.08.
Proof.
  split; [reflexivity|].
  destruct (calculateOlfactoryIndex_NaN nanEntorhinalData
              nanEntorhinalData_hasNaNRegion) as [Hv Hp].
  repeat split; [done..|apply calculateOlfactoryIndex_parahippocampalOnly].
Qed.

(** C1, as amended.  No calculator checks for finiteness.  In every
    index calculator, a region of the index that is measured in both
    hemispheres and has a [NaN] thickness or surface area in one of them
    (for instance from a non-numeric report token), hence a [NaN]
    composite z-score, is not excluded: the [NaN] propagates, and the
    returned value and percentile are both [NaN]. *)
Theorem nan_measurement_propagates (data : DKTData) :
  (hasNaNRegion data.(lh) data.(rh)
     ["entorhinal"; "parahippocampal"; "medialorbitofrontal"] →
   poisoned (calculateOlfactoryIndex data))
  ∧ (hasNaNRegion data.(lh) data.(rh)
       ["superiortemporal"; "parsopercularis"; "parstriangularis";
        "middletemporal"; "fusiform"]
     ∨ hasNaNSubregion data ["BA44_exvivo"; "BA45_exvivo"] →
     poisoned (calculateLanguageIndex data))
  ∧ (hasNaNRegion data.(lh) data.(rh)
       ["superiortemporal"; "supramarginal"; "inferiorparietal"; "fusiform"] →
     poisoned (calculateReadingIndex data))
  ∧ (hasNaNRegion data.(lh) data.(rh)
       ["rostralanteriorcingulate"; "medialorbitofrontal"; "insula";
        "posteriorcingulate"] →
     poisoned (calculateEmpathyIndex data))
  ∧ (hasNaNRegion data.(lh) data.(rh)
       ["superiorfrontal"; "rostralmiddlefrontal"; "caudalmiddlefrontal";
        "parsopercularis"] →
     poisoned (calculateExecutiveIndex data))
  ∧ (hasNaNRegion data.(lh) data.(rh)
       ["inferiorparietal"; "superiorparietal"; "precuneus"] →
     poisoned (calculateSpatialIndex data))
  ∧ (hasNaNRegion data.(lh) data.(rh)
       ["superiorfrontal"; "inferiorparietal"; "superiortemporal";
        "rostralmiddlefrontal"; "insula"] →
     poisoned (calculateFluidIntelligenceIndex data))
  ∧ (hasNaNRegion data.(lh) data.(rh)
       ["supramarginal"; "inferiorparietal"; "superiorparietal"; "precuneus";
        "posteriorcingulate"] →
     poisoned (calculateParietalIQIndex data))
  ∧ (hasNaNSubregion data ["BA4a_exvivo"; "BA4p_exvivo"; "BA3b_exvivo"] →
     poisoned (calculateHandednessIndex data))
  ∧ (hasNaNRegion data.(lh) data.(rh)
       ["pericalcarine"; "cuneus"; "lingual"] →
     poisoned (calculateDominantEyeIndex data))
  ∧ (hasNaNRegion data.(lh) data.(rh)
       ["entorhinal"; "parahippocampal"; "medialorbitofrontal"; "insula"] →
     poisoned (calculatePreferredNostrilIndex data))
  ∧ (hasNaNSubregion data ["BA44_exvivo"; "BA45_exvivo"] →
     poisoned (calculateLanguageOutputLateralization data))
  ∧ (hasNaNRegion data.(lh) data.(rh)
       ["superiortemporal"; "inferiorparietal"; "middletemporal";
        "supramarginal"; "fusiform"] →
     poisoned (calculateLanguageInputLateralization data))
  ∧ (hasNaNSubregion data ["BA44_exvivo"; "BA45_exvivo"]
     ∨ hasNaNRegion data.(lh) data.(rh)
         ["superiortemporal"; "inferiorparietal"; "middletemporal";
          "supramarginal"; "fusiform"] →
     poisoned (calculateLanguageLateralizationIndex data)).
Proof.
  repeat apply conj.
  - apply calculateOlfactoryIndex_NaN.
  - apply calculateLanguageIndex_NaN.
  - apply calculateReadingIndex_NaN.
  - apply calculateEmpathyIndex_NaN.
  - apply calculateExecutiveIndex_NaN.
  - apply calculateSpatialIndex_NaN.
  - apply calculateFluidIntelligenceIndex_NaN.
  - apply calculateParietalIQIndex_NaN.
  - apply calculateHandednessIndex_NaN.
  - apply calculateDominantEyeIndex_NaN.
  - apply calculatePreferredNostrilIndex_NaN.
  - apply calculateLanguageOutputLateralization_NaN.
  - apply calculateLanguageInputLateralization_NaN.
  - apply calculateLanguageLateralizationIndex_NaN.
Qed.

Lemma nan_measurement_propagates_witness :
  poisoned (calculateOlfactoryIndex nanEntorhinalData)
  ∧ poisoned (calculatePreferredNostrilIndex nanEntorhinalData).
Proof.
  destruct (nan_measurement_propagates nanEntorhinalData)
    as (Holf & _ & _ & _ & _ & _ & _ & _ & _ & _ & Hnostril & _).
  split.
  - apply Holf, nanEntorhinalData_hasNaNRegion.
  - apply Hnostril.
    eapply hasNaNRegion_mono; [|apply nanEntorhinalData_hasNaNRegion].
    intros x; rewrite !elem_of_cons; tauto.
Defined.

(* ===================================================================== *)
(** ** Monotonicity of the percentile converter *)
(* ===================================================================== *)

Section PercentileMonotone.
#[local] Open Scope R_scope.

(** One Horner step under the derivative. *)
Lemma derivable_pt_lim_horner (f : R → R) (c t l : R) :
  derivable_pt_lim f t l →
  derivable_pt_lim (λ x, f x * x + c) t (l * t + f t).
Proof.
  intros Hf.
  replace (l * t + f t) with ((l * id t + f t * 1) + 0) by (unfold id; lra).
  apply (derivable_pt_lim_plus (f * id)%F (fct_cte c)).
  - apply derivable_pt_lim_mult; [done|apply derivable_pt_lim_id].
  - apply derivable_pt_lim_const.
Qed.

Lemma derivable_pt_lim_times_id (f : R → R) (t l : R) :
  derivable_pt_lim f t l →
  derivable_pt_lim (λ x, f x * x) t (l * t + f t).
Proof.
  intros Hf.
  replace (l * t + f t) with (l * id t + f t * 1) by (unfold id; lra).
  apply (derivable_pt_lim_mult f id); [done|apply derivable_pt_lim_id].
Qed.

(** The derivative of a quintic without constant term in Horner form. *)
Lemma horner5_derivative (a1 a2 a3 a4 a5 t : R) :
  derivable_pt_lim
    (λ x, ((((a5 * x + a4) * x + a3) * x + a2) * x + a1) * x) t
    (a1 + 2 * a2 * t + 3 * a3 * (t * t) + 4 * a4 * (t * t * t)
     + 5 * a5 * (t * t * t * t)).
Proof.
  replace (a1 + 2 * a2 * t + 3 * a3 * (t * t) + 4 * a4 * (t * t * t)
           + 5 * a5 * (t * t * t * t))
    with (((((0 * t + a5) * t + (a5 * t + a4)) * t
            + ((a5 * t + a4) * t + a3)) * t
           + (((a5 * t + a4) * t + a3) * t + a2)) * t
          + ((((a5 * t + a4) * t + a3) * t + a2) * t + a1)) by ring.
  apply (derivable_pt_lim_times_id
           (λ x, (((a5 * x + a4) * x + a3) * x + a2) * x + a1)).
  apply (derivable_pt_lim_horner (λ x, ((a5 * x + a4) * x + a3) * x + a2)).
  apply (derivable_pt_lim_horner (λ x, (a5 * x + a4) * x + a3)).
  apply (derivable_pt_lim_horner (λ x, a5 * x + a4)).
  apply (derivable_pt_lim_horner (λ _, a5)).
  apply derivable_pt_lim_const.
Qed.

Lemma erfPoly_derivable : derivable erfPoly.
Proof.
  intros t. eexists. apply horner5_derivative.
Qed.

End PercentileMonotone.

Section PercentileMonotone2.
#[local] Open Scope R_scope.

(** The derivative of [erfPoly] is positive on the unit interval. *)
Lemma erfPoly_derivative_nonneg (t : R) :
  0 <= t <= 1 →
  0 <= 0.254829592 + 2 * -0.284496736 * t + 3 * 1.421413741 * (t * t)
       + 4 * -1.453152027 * (t * t * t)
       + 5 * 1.061405429 * (t * t * t * t).
Proof.
  intros Ht.
  assert (H1 : 0 <= 5 * 1.061405429 * (t * t) + 4 * -1.453152027 * t + 2).
  { pose proof (pow2_ge_0 (t - 0.5476)). nra. }
  assert (H2 : 0 <= (3 * 1.421413741 - 2) * (t * t)
                    + 2 * -0.284496736 * t + 0.254829592).
  { pose proof (pow2_ge_0 (t - 0.1256)). nra. }
  assert (H3 : 0 <= t * t) by nra.
  pose proof (Rmult_le_pos _ _ H3 H1). nra.
Qed.

Lemma erfPoly_increasing (s t : R) :
  0 <= s <= 1 → 0 <= t <= 1 → s <= t → erfPoly s <= erfPoly t.
Proof.
  intros Hs Ht [Hlt | ->]; [|lra].
  apply (derive_increasing_interv_var 0 1 erfPoly erfPoly_derivable);
    [lra| |done..].
  intros x Hx.
  rewrite (derive_pt_eq_0 erfPoly x _ (erfPoly_derivable x)
             (horner5_derivative 0.254829592 (-0.284496736) 1.421413741
                (-1.453152027) 1.061405429 x)).
  apply erfPoly_derivative_nonneg. lra.
Qed.

Lemma erfPoly_0 : erfPoly 0 = 0.
Proof. unfold erfPoly. lra. Qed.

Lemma erfPoly_1 : erfPoly 1 = 0.999999999.
Proof. unfold erfPoly. lra. Qed.

(** The argument [1 / (1 + p a)] of the polynomial lies in (0, 1] and
    decreases with [a]. *)
Lemma tailArg_bounds (a : R) : 0 <= a → 0 < 1 / (1 + 0.3275911 * a) <= 1.
Proof.
  intros Ha. split.
  - apply Rdiv_lt_0_compat; lra.
  - apply (Rmult_le_reg_r (1 + 0.3275911 * a)); [lra|].
    unfold Rdiv. rewrite Rmult_assoc, Rinv_l by lra. lra.
Qed.

Lemma tailArg_decreasing (a b : R) :
  0 <= a <= b → 1 / (1 + 0.3275911 * b) <= 1 / (1 + 0.3275911 * a).
Proof.
  intros Hab. unfold Rdiv. rewrite !Rmult_1_l.
  apply Rinv_le_contravar; lra.
Qed.

(** The tail term is non-negative, at most 1 and decreasing. *)
Lemma tailTerm_decreasing (a b : R) :
  0 <= a <= b → 0 <= tailTerm b <= tailTerm a.
Proof.
  intros Hab. unfold tailTerm.
  pose proof (tailArg_bounds a) as Ha. pose proof (tailArg_bounds b) as Hb.
  pose proof (tailArg_decreasing a b Hab) as Hdec.
  assert (HPb : 0 <= erfPoly (1 / (1 + 0.3275911 * b))).
  { rewrite <- erfPoly_0. apply erfPoly_increasing; lra. }
  assert (HP : erfPoly (1 / (1 + 0.3275911 * b))
               <= erfPoly (1 / (1 + 0.3275911 * a))).
  { apply erfPoly_increasing; lra. }
  assert (He : exp (- b * b / 2) <= exp (- a * a / 2)).
  { destruct (Req_dec a b) as [-> | Hne]; [lra|].
    left. apply exp_increasing. nra. }
  pose proof (exp_pos (- b * b / 2)) as Hpos.
  split.
  - apply Rmult_le_pos; lra.
  - apply Rmult_le_compat; lra.
Qed.

Lemma tailTerm_le_1 (a : R) : 0 <= a → 0 <= tailTerm a <= 1.
Proof.
  intros Ha. destruct (tailTerm_decreasing 0 a) as [H0 H1]; [lra|].
  split; [done|].
  assert (tailTerm 0 = 0.999999999) as Ht0.
  { unfold tailTerm. replace (1 / (1 + 0.3275911 * 0)) with 1 by lra.
    replace (- 0 * 0 / 2) with 0 by lra. rewrite exp_0, erfPoly_1. lra. }
  lra.
Qed.

(** The approximated distribution function is non-decreasing. *)
Lemma cdfApprox_monotone (z1 z2 : R) :
  z1 <= z2 → cdfApprox z1 <= cdfApprox z2.
Proof.
  intros Hle. unfold cdfApprox.
  destruct (decide (z1 < 0)) as [Hn1 | Hp1];
    destruct (decide (z2 < 0)) as [Hn2 | Hp2].
  - rewrite !Rabs_left by done.
    destruct (tailTerm_decreasing (- z2) (- z1)); lra.
  - rewrite (Rabs_left z1), (Rabs_pos_eq z2) by lra.
    destruct (tailTerm_le_1 (- z1)); [lra|].
    destruct (tailTerm_le_1 z2); lra.
  - lra.
  - rewrite !Rabs_pos_eq by lra.
    destruct (tailTerm_decreasing z1 z2); lra.
Qed.

End PercentileMonotone2.

(** C5.  [zToPercentile] is monotone non-decreasing on the real numbers:
    for all real [z1 < z2], [zToPercentile(z1) <= zToPercentile(z2)];
    both results are integers. *)
Theorem zToPercentile_monotone (z1 z2 : R) :
  (z1 < z2)%R →
  ∃ p1 p2 : Z,
    zToPercentile (Fin z1) = Fin (IZR p1)
    ∧ zToPercentile (Fin z2) = Fin (IZR p2)
    ∧ (p1 ≤ p2)%Z
    ∧ (zToPercentile (Fin z1) <=? zToPercentile (Fin z2)) = true.
Proof.
  intros Hlt. rewrite !zToPercentile_Fin.
  eexists _, _. split; [reflexivity|]. split; [reflexivity|].
  assert (Hle : (Zfloor (cdfApprox z1 * 100 + 1 / 2)
                 ≤ Zfloor (cdfApprox z2 * 100 + 1 / 2))%Z).
  { apply Zfloor_le.
    pose proof (cdfApprox_monotone z1 z2 (Rlt_le _ _ Hlt)). lra. }
  split; [done|].
  rewrite leb_Fin. apply bool_decide_eq_true_2. by apply IZR_le.
Qed.

Lemma zToPercentile_monotone_witness :
  ∃ p1 p2 : Z,
    zToPercentile (Fin (-1)) = Fin (IZR p1)
    ∧ zToPercentile (Fin 1) = Fin (IZR p2)
    ∧ (p1 ≤ p2)%Z
    ∧ (zToPercentile (Fin (-1)) <=? zToPercentile (Fin 1)) = true.
Proof. apply (zToPercentile_monotone (-1) 1). lra. Defined.

(* ===================================================================== *)
(** * Further properties of the code *)
(* ===================================================================== *)

(** ** Z-score primitives *)

(** X1.  [zScore] is monotone and centred: for a positive standard
    deviation a larger value never has a smaller z-score, and the mean
    itself has z-score 0. *)
Theorem zScore_monotone_zero_at_mean (x x' mu sigma : R) :
  (0 < sigma)%R → (x <= x')%R →
  (zScore (Fin x) (Fin mu) (Fin sigma)
   <=? zScore (Fin x') (Fin mu) (Fin sigma)) = true
  ∧ zScore (Fin mu) (Fin mu) (Fin sigma) = Fin 0.
Proof.
  intros Hs Hx. unfold zScore. rewrite !sub_Fin, !div_Fin by lra.
  rewrite leb_Fin. split.
  - apply bool_decide_eq_true_2. apply Rmult_le_compat_r; [|lra].
    left. by apply Rinv_0_lt_compat.
  - f_equal. field. lra.
Qed.

Lemma zScore_monotone_zero_at_mean_witness :
  (zScore (Fin 2.65) (Fin 2.65) (Fin 0.18)
   <=? zScore (Fin 3.01) (Fin 2.65) (Fin 0.18)) = true
  ∧ zScore (Fin 2.65) (Fin 2.65) (Fin 0.18) = Fin 0.
Proof. apply (zScore_monotone_zero_at_mean 2.65 3.01 2.65 0.18); lra. Defined.

(** ** Percentile converter *)

Section PercentileRange.
#[local] Open Scope R_scope.

Lemma cdfApprox_unit (z : R) : 0 <= cdfApprox z <= 1.
Proof.
  unfold cdfApprox.
  destruct (tailTerm_le_1 (Rabs z) (Rabs_pos z)).
  case_decide; lra.
Qed.

(** For a positive argument the two tails add up to one. *)
Lemma cdfApprox_reflect (z : R) : 0 < z → cdfApprox (- z) = 1 - cdfApprox z.
Proof.
  intros Hz. unfold cdfApprox.
  rewrite decide_True, decide_False by lra.
  rewrite Rabs_Ropp. lra.
Qed.

Lemma zToPercentile_PInf : zToPercentile PInf = Fin 100.
Proof.
  unfold zToPercentile.
  assert (Hm : (Fin 0.3275911 * Math_abs PInf)%num = PInf).
  { unfold Math_abs, mul, mulInf. by decide_reals. }
  rewrite Hm.
  assert (He : Math_exp (- Math_abs PInf * Math_abs PInf / Fin 2)%num = Fin 0).
  { unfold Math_abs, neg, mul, mulInf, div, signedInf, negb.
    by decide_reals. }
  rewrite He.
  assert (Ht : (Fin 1.0 / (Fin 1.0 + PInf))%num = Fin 0) by reflexivity.
  rewrite Ht. cbn [ltb]. num_eval.
  apply (Math_round_Fin _ 100). lra.
Qed.

Lemma zToPercentile_NInf : zToPercentile NInf = Fin 0.
Proof.
  unfold zToPercentile.
  assert (Hm : (Fin 0.3275911 * Math_abs NInf)%num = PInf).
  { unfold Math_abs, mul, mulInf. by decide_reals. }
  rewrite Hm.
  assert (He : Math_exp (- Math_abs NInf * Math_abs NInf / Fin 2)%num = Fin 0).
  { unfold Math_abs, neg, mul, mulInf, div, signedInf, negb.
    by decide_reals. }
  rewrite He.
  assert (Ht : (Fin 1.0 / (Fin 1.0 + PInf))%num = Fin 0) by reflexivity.
  rewrite Ht. cbn [ltb]. num_eval.
  apply (Math_round_Fin _ 0). lra.
Qed.

End PercentileRange.

(** X3.  [zToPercentile] of a finite z-score is an integer between 0 and
    100; [+Infinity] gives 100, [-Infinity] gives 0 and [NaN] gives
    [NaN]. *)
Theorem zToPercentile_range :
  (∀ z : R, ∃ p : Z, zToPercentile (Fin z) = Fin (IZR p) ∧ (0 ≤ p ≤ 100)%Z)
  ∧ zToPercentile PInf = Fin 100
  ∧ zToPercentile NInf = Fin 0
  ∧ zToPercentile NaN = NaN.
Proof.
  split; [|split; [|split]].
  - intros z. rewrite zToPercentile_Fin. eexists. split; [reflexivity|].
    pose proof (cdfApprox_unit z) as Hc.
    pose proof (Zfloor_bound (cdfApprox z * 100 + 1 / 2)) as Hb.
    split.
    + apply Zfloor_lub. lra.
    + assert (Zfloor (cdfApprox z * 100 + 1 / 2) < 101)%Z; [|lia].
      apply lt_IZR. lra.
  - apply zToPercentile_PInf.
  - apply zToPercentile_NInf.
  - reflexivity.
Qed.

(** X4.  The converter is symmetric about 50 up to rounding: for every
    real [z] the percentiles of [z] and [-z] are integers that add up to
    100 or to 101 (each of the two is rounded half-up on its own). *)
Theorem zToPercentile_symmetry (z : R) :
  ∃ p q : Z,
    zToPercentile (Fin z) = Fin (IZR p)
    ∧ zToPercentile (Fin (- z)) = Fin (IZR q)
    ∧ ((p + q = 100)%Z ∨ (p + q = 101)%Z).
Proof.
  rewrite !zToPercentile_Fin. eexists _, _.
  split; [reflexivity|]. split; [reflexivity|].
  pose proof (Zfloor_bound (cdfApprox z * 100 + 1 / 2)) as Hp.
  pose proof (Zfloor_bound (cdfApprox (- z) * 100 + 1 / 2)) as Hq.
  assert (Hsum : (1 <= cdfApprox z + cdfApprox (- z) <= 1.000000001)%R).
  { destruct (Rtotal_order z 0) as [Hneg | [-> | Hpos]].
    - pose proof (cdfApprox_reflect (- z)) as Hr.
      rewrite Ropp_involutive in Hr. lra.
    - rewrite Ropp_0. unfold cdfApprox, tailTerm, erfPoly.
      rewrite decide_False by lra. rewrite Rabs_R0.
      replace (- 0 * 0 / 2)%R with 0%R by lra. rewrite exp_0.
      replace (1 / (1 + 0.3275911 * 0))%R with 1%R by lra. lra.
    - rewrite (cdfApprox_reflect z) by lra. lra. }
  assert (Hlo : (99 < Zfloor (cdfApprox z * 100 + 1 / 2)
                      + Zfloor (cdfApprox (- z) * 100 + 1 / 2))%Z).
  { apply lt_IZR. rewrite plus_IZR. lra. }
  assert (Hhi : (Zfloor (cdfApprox z * 100 + 1 / 2)
                 + Zfloor (cdfApprox (- z) * 100 + 1 / 2) < 102)%Z).
  { apply lt_IZR. rewrite plus_IZR. lra. }
  lia.
Qed.

(** ** Ranges of the results *)

Section Ranges.
#[local] Open Scope R_scope.

Lemma Math_round_integer (x : R) (lo hi : Z) :
  IZR lo <= x <= IZR hi → integerBetween lo hi (Math_round (Fin x)).
Proof.
  intros Hx. eexists. split; [reflexivity|].
  pose proof (Zfloor_bound (x + 1 / 2)) as Hb. split.
  - apply Zfloor_lub. lra.
  - assert (Zfloor (x + 1 / 2) < hi + 1)%Z; [|lia].
    apply lt_IZR. rewrite plus_IZR. lra.
Qed.

Lemma Math_min_Fin_PInf (x : R) : Math_min (Fin x) PInf = Fin x.
Proof. reflexivity. Qed.

Lemma Math_min_Fin_NInf (x : R) : Math_min (Fin x) NInf = NInf.
Proof. reflexivity. Qed.

Lemma Math_max_Fin_NInf (x : R) : Math_max (Fin x) NInf = Fin x.
Proof. reflexivity. Qed.

(** [Math.round(Math.max(lo, Math.min(hi, p)))] is [NaN] or an integer
    of the interval. *)
Lemma round_clamp_range (lo hi : Z) (p : num) :
  (lo ≤ hi)%Z →
  let c := Math_round (Math_max (Fin (IZR lo)) (Math_min (Fin (IZR hi)) p)) in
  c = NaN ∨ integerBetween lo hi c.
Proof.
  intros Hle%IZR_le. destruct p as [| | |x]; cbn zeta.
  - by left.
  - right. rewrite Math_min_Fin_PInf, Math_max_Fin.
    apply Math_round_integer. split; [apply Rmax_l|].
    apply Rmax_lub; lra.
  - right. rewrite Math_min_Fin_NInf, Math_max_Fin_NInf.
    apply Math_round_integer. lra.
  - right. rewrite Math_min_Fin, Math_max_Fin.
    apply Math_round_integer. split; [apply Rmax_l|].
    apply Rmax_lub; [lra|apply Rmin_l].
Qed.

(** [Math.max(lo, Math.min(hi, Math.round(x)))], the clamp of the
    Parietal IQ. *)
Lemma clamp_round_range (lo hi : Z) (x : num) :
  (lo ≤ hi)%Z →
  let c := Math_max (Fin (IZR lo)) (Math_min (Fin (IZR hi)) (Math_round x)) in
  c = NaN ∨ integerBetween lo hi c.
Proof.
  intros Hle. destruct x as [| | |x]; cbn zeta.
  - by left.
  - right. unfold Math_round. rewrite Math_min_Fin_PInf, Math_max_Fin.
    exists hi. split; [|lia]. f_equal. apply Rmax_right. by apply IZR_le.
  - right. unfold Math_round. rewrite Math_min_Fin_NInf, Math_max_Fin_NInf.
    exists lo. split; [done|lia].
  - right. unfold Math_round. rewrite Math_min_Fin, Math_max_Fin.
    exists (Z.max lo (Z.min hi (Zfloor (x + 1 / 2)))). split; [|lia].
    f_equal.
    destruct (Z.min_spec hi (Zfloor (x + 1 / 2))) as [[H1 ->] | [H1 ->]];
      [rewrite Rmin_left by (apply IZR_le; lia)
      |rewrite Rmin_right by (apply IZR_le; lia)];
      match goal with
      | |- Rmax _ (IZR ?n) = _ =>
          destruct (Z.max_spec lo n) as [[H2 ->] | [H2 ->]];
          [rewrite Rmax_right by (apply IZR_le; lia)
          |rewrite Rmax_left by (apply IZR_le; lia)]; done
      end.
Qed.

End Ranges.

(** X5.  Whatever the dataset, the value of the Parietal IQ Prediction
    index is [NaN] or an integer between 70 and 145: the clamp is applied
    after the rounding, and an infinite z-score is clamped as well. *)
Theorem parietalIQ_value_range (data : DKTData) :
  (calculateParietalIQIndex data).(value) = NaN
  ∨ integerBetween 70 145 (calculateParietalIQIndex data).(value).
Proof.
  unfold calculateParietalIQIndex.
  destruct (forAvailable _ _ _ _ _ _) as [[totalIndex totalWeight] dets].
  cbn [value]. by apply (clamp_round_range 70 145).
Qed.

Section PercentileBands.
#[local] Open Scope R_scope.

Lemma languageOutputPercentile_range (li : num) :
  languageOutputPercentile li = NaN
  ∨ integerBetween 1 99 (languageOutputPercentile li).
Proof. by apply (round_clamp_range 1 99). Qed.

Lemma languageInputPercentile_range (li : num) :
  languageInputPercentile li = NaN
  ∨ integerBetween 1 99 (languageInputPercentile li).
Proof. by apply (round_clamp_range 1 99). Qed.

Lemma integerBetween_50 : integerBetween 1 99 (Fin 50).
Proof. exists 50%Z. split; [done|lia]. Qed.

Lemma nostrilPercentile_range (oli : num) :
  let p := if (oli >=? Fin 0)%num
           then Math_min (Fin 99) (Math_round (Fin 50 + oli * Fin 40)%num)
           else Math_max (Fin 1) (Math_round (Fin 50 + oli * Fin 40)%num) in
  p = NaN ∨ integerBetween 1 99 p.
Proof.
  destruct oli as [| | |x]; cbn zeta.
  - by left.
  - right. exists 99%Z. split; [|lia].
    unfold mul, mulInf. by decide_reals.
  - right. exists 1%Z. split; [|lia].
    unfold mul, mulInf. by decide_reals.
  - right. rewrite geb_Fin, mul_Fin, add_Fin. unfold Math_round.
    pose proof (Zfloor_bound (50 + x * 40 + 1 / 2)) as Hb.
    case_bool_decide as Hx.
    + rewrite Math_min_Fin.
      assert (50 ≤ Zfloor (50 + x * 40 + 1 / 2))%Z as H50
        by (apply Zfloor_lub; lra).
      exists (Z.min 99 (Zfloor (50 + x * 40 + 1 / 2))). split; [|lia].
      f_equal.
      destruct (Z.min_spec 99 (Zfloor (50 + x * 40 + 1 / 2)))
        as [[H1 ->] | [H1 ->]];
        [apply Rmin_left|apply Rmin_right]; apply IZR_le; lia.
    + rewrite Math_max_Fin.
      assert (Zfloor (50 + x * 40 + 1 / 2) < 51)%Z as H50
        by (apply lt_IZR; lra).
      exists (Z.max 1 (Zfloor (50 + x * 40 + 1 / 2))). split; [|lia].
      f_equal.
      destruct (Z.max_spec 1 (Zfloor (50 + x * 40 + 1 / 2)))
        as [[H1 ->] | [H1 ->]];
        [apply Rmax_right|apply Rmax_left]; apply IZR_le; lia.
Qed.

End PercentileBands.

(** X6.  Whatever the dataset, the percentile of the Preferred Nostril
    index and of the three language lateralization indices is [NaN] or
    an integer between 1 and 99: these indices never report percentile 0
    or 100. *)
Theorem lateralization_percentile_range (data : DKTData) :
  ((calculatePreferredNostrilIndex data).(percentile) = NaN
   ∨ integerBetween 1 99 (calculatePreferredNostrilIndex data).(percentile))
  ∧ ((calculateLanguageOutputLateralization data).(percentile) = NaN
     ∨ integerBetween 1 99
         (calculateLanguageOutputLateralization data).(percentile))
  ∧ ((calculateLanguageInputLateralization data).(percentile) = NaN
     ∨ integerBetween 1 99
         (calculateLanguageInputLateralization data).(percentile))
  ∧ ((calculateLanguageLateralizationIndex data).(percentile) = NaN
     ∨ integerBetween 1 99
         (calculateLanguageLateralizationIndex data).(percentile)).
Proof.
  split; [|split; [|split]].
  - unfold calculatePreferredNostrilIndex.
    destruct (forAvailable _ _ _ _ _ _) as [rawScore dets].
    cbn [percentile]. apply nostrilPercentile_range.
  - unfold calculateLanguageOutputLateralization.
    destruct (lhBA data), (rhBA data);
      try (right; apply integerBetween_50).
    destruct (forAvailable _ _ _ _ _ _) as [[[sl sr] tw] dets].
    cbn [percentile]. apply languageOutputPercentile_range.
  - unfold calculateLanguageInputLateralization.
    destruct (forAvailable _ _ _ _ _ _) as [[[sl sr] ts] dets].
    cbn [percentile]. apply languageInputPercentile_range.
  - unfold calculateLanguageLateralizationIndex. cbv zeta. cbn [percentile].
    by apply (round_clamp_range 1 99).
Qed.

(** ** What the calculators read and what they report *)

Section LoopRelations.
Context {C S S' : Type} (nameOf : C → string).
Context (lhMap rhMap lhMap' rhMap' : gmap string DKTRegionData).
Context (body : C → RefEntry → DKTRegionData → DKTRegionData → S → S).
Context (body' : C → RefEntry → DKTRegionData → DKTRegionData → S' → S').

(** Two loops over the same configurations keep a relation between
    their states when they skip the same regions and their bodies keep
    the relation. *)
Lemma forAvailable_rel (Rel : S → S' → Prop) (configs : list C)
    (init : S) (init' : S') :
  Rel init init' →
  (∀ c, c ∈ configs →
     match available lhMap rhMap (nameOf c),
           available lhMap' rhMap' (nameOf c) with
     | Some (ref, l, r), Some (ref', l', r') =>
         ∀ acc acc', Rel acc acc' →
           Rel (body c ref l r acc) (body' c ref' l' r' acc')
     | None, None => True
     | _, _ => False
     end) →
  Rel (forAvailable nameOf lhMap rhMap body configs init)
      (forAvailable nameOf lhMap' rhMap' body' configs init').
Proof.
  revert init init'.
  induction configs as [|c configs IH]; intros init init' Hinit Hstep; [done|].
  rewrite !forAvailable_cons. apply IH.
  - specialize (Hstep c (list_elem_of_here _ _)).
    destruct (available lhMap rhMap (nameOf c)) as [[[ref l] r]|],
      (available lhMap' rhMap' (nameOf c)) as [[[ref' l'] r']|];
      try done. by apply Hstep.
  - intros c' Hc'. apply Hstep. by right.
Qed.

End LoopRelations.

Section Locality.
Context {C S : Type} (nameOf : C → string).
Context (body : C → RefEntry → DKTRegionData → DKTRegionData → S → S).

Lemma available_same (lhMap rhMap lhMap' rhMap' : gmap string DKTRegionData)
    (n : string) :
  lhMap !! n = lhMap' !! n → rhMap !! n = rhMap' !! n →
  available lhMap rhMap n = available lhMap' rhMap' n.
Proof. unfold available. by intros -> ->. Qed.

(** A loop only reads the regions of its configurations. *)
Lemma forAvailable_sameRegions (data data' : DKTData) (configs : list C)
    (init : S) :
  sameRegions data data' (map nameOf configs) →
  forAvailable nameOf data.(lh) data.(rh) body configs init
  = forAvailable nameOf data'.(lh) data'.(rh) body configs init.
Proof.
  intros Hsame. apply (forAvailable_rel _ _ _ _ _ _ _ eq); [done|].
  intros c Hc.
  assert (Hn : nameOf c ∈ map nameOf configs) by by apply list_elem_of_fmap_2.
  destruct (proj1 (Forall_forall _ _) Hsame _ Hn) as [Hl Hr].
  rewrite (available_same _ _ _ _ _ Hl Hr).
  destruct (available _ _ _) as [[[ref l] r]|]; [|done].
  by intros acc acc' ->.
Qed.

End Locality.

(** Rewrite the loop of the goal to the dataset [H] relates it to. *)
Ltac same_loop H :=
  match goal with
  | |- context [forAvailable ?n (lh ?d) (rh ?d) ?b ?cfgs ?i] =>
      rewrite (forAvailable_sameRegions n b d _ cfgs i H)
  end.

(** X7.  The calculators that work on the standard regions read nothing
    but the regions of their own configuration: two datasets that hold
    the same measurements for these regions get the same result (value,
    percentile, z-score and details), whatever else they contain. *)
Theorem calculators_read_configured_regions (data data' : DKTData) :
  (sameRegions data data'
     ["entorhinal"; "parahippocampal"; "medialorbitofrontal"] →
   calculateOlfactoryIndex data = calculateOlfactoryIndex data')
  ∧ (sameRegions data data'
       ["superiortemporal"; "supramarginal"; "inferiorparietal"; "fusiform"] →
     calculateReadingIndex data = calculateReadingIndex data')
  ∧ (sameRegions data data'
       ["rostralanteriorcingulate"; "medialorbitofrontal"; "insula";
        "posteriorcingulate"] →
     calculateEmpathyIndex data = calculateEmpathyIndex data')
  ∧ (sameRegions data data'
       ["superiorfrontal"; "rostralmiddlefrontal"; "caudalmiddlefrontal";
        "parsopercularis"] →
     calculateExecutiveIndex data = calculateExecutiveIndex data')
  ∧ (sameRegions data data'
       ["inferiorparietal"; "superiorparietal"; "precuneus"] →
     calculateSpatialIndex data = calculateSpatialIndex data')
  ∧ (sameRegions data data'
       ["superiorfrontal"; "inferiorparietal"; "superiortemporal";
        "rostralmiddlefrontal"; "insula"] →
     calculateFluidIntelligenceIndex data
     = calculateFluidIntelligenceIndex data')
  ∧ (sameRegions data data'
       ["supramarginal"; "inferiorparietal"; "superiorparietal"; "precuneus";
        "posteriorcingulate"] →
     calculateParietalIQIndex data = calculateParietalIQIndex data')
  ∧ (sameRegions data data' ["pericalcarine"; "cuneus"; "lingual"] →
     calculateDominantEyeIndex data = calculateDominantEyeIndex data')
  ∧ (sameRegions data data'
       ["entorhinal"; "parahippocampal"; "medialorbitofrontal"; "insula"] →
     calculatePreferredNostrilIndex data
     = calculatePreferredNostrilIndex data')
  ∧ (sameRegions data data'
       ["superiortemporal"; "inferiorparietal"; "middletemporal";
        "supramarginal"; "fusiform"] →
     calculateLanguageInputLateralization data
     = calculateLanguageInputLateralization data').
Proof.
  repeat apply conj; intros H.
  - unfold calculateOlfactoryIndex.
    by same_loop H.
  - unfold calculateReadingIndex.
    by same_loop H.
  - unfold calculateEmpathyIndex.
    by same_loop H.
  - unfold calculateExecutiveIndex.
    by same_loop H.
  - unfold calculateSpatialIndex.
    by same_loop H.
  - unfold calculateFluidIntelligenceIndex.
    by same_loop H.
  - unfold calculateParietalIQIndex.
    by same_loop H.
  - unfold calculateDominantEyeIndex.
    by same_loop H.
  - unfold calculatePreferredNostrilIndex.
    assert (H' : sameRegions data data'
              ["entorhinal"; "parahippocampal"; "medialorbitofrontal";
               "insula"; "entorhinal"]).
    { unfold sameRegions in *.
      rewrite !Forall_cons in H. rewrite !Forall_cons. tauto. }
    by same_loop H'.
  - unfold calculateLanguageInputLateralization.
    by same_loop H.
Qed.

Lemma calculators_read_configured_regions_witness :
  calculateReadingIndex superiorTemporalWithPericalcarine
  = calculateReadingIndex superiorTemporalOnly.
Proof.
  destruct (calculators_read_configured_regions
              superiorTemporalWithPericalcarine superiorTemporalOnly)
    as (_ & Hreading & _).
  apply Hreading. repeat (apply Forall_cons_2; [by split|]). apply Forall_nil_2.
Defined.

Section DetailLists.
Context {C S : Type} (nameOf label : C → string).
Context (lhMap rhMap : gmap string DKTRegionData).
Context (body : C → RefEntry → DKTRegionData → DKTRegionData → S → S).
Context (dets : S → list RegionDetail).

(** A loop whose body pushes one detail labelled [label cfg] reports the
    available configurations, in order, after the details it started
    with. *)
Lemma forAvailable_detail_regions (configs : list C) (init : S) :
  (∀ c ref l r acc,
     map region (dets (body c ref l r acc))
     = (map region (dets acc) ++ [label c])%list) →
  map region (dets (forAvailable nameOf lhMap rhMap body configs init))
  = (map region (dets init)
     ++ availableLabels lhMap rhMap
          (map (λ c, (nameOf c, label c)) configs))%list.
Proof.
  intros Hbody. revert init.
  induction configs as [|c configs IH]; intros init.
  - by rewrite forAvailable_nil, app_nil_r.
  - rewrite forAvailable_cons, IH. unfold availableLabels.
    cbn [map omap list_omap fst snd].
    destruct (available lhMap rhMap (nameOf c)) as [[[ref l] r]|]; [|done].
    by rewrite Hbody, <- app_assoc.
Qed.

End DetailLists.

Section DetailRegions.

Lemma map_region_push (ds : list RegionDetail) (n : string)
    (w z_L z_R c_L c_R : num) :
  map region (push ds (mkDetail n w z_L z_R c_L c_R))
  = (map region ds ++ [n])%list.
Proof. unfold push. by rewrite map_app. Qed.

Variable data : DKTData.

(** Read the detail regions of the loop of the goal off the loop;
    [lbl] labels the details. *)
Ltac detail_regions_with lbl :=
  unfold detailRegions;
  match goal with
  | |- context [forAvailable ?n ?l ?r ?b ?cfgs ?i] =>
      let H := fresh "H" in
      pose proof (forAvailable_detail_regions n lbl l r b snd cfgs i) as H;
      destruct (forAvailable n l r b cfgs i);
      repeat match goal with p : (_ * _)%type |- _ => destruct p end;
      cbn [details snd fst] in *; rewrite H; [reflexivity|];
      intros c ref' l' r' acc;
      repeat match goal with p : (_ * _)%type |- _ => destruct p end;
      try destruct (foldZScores _ _ _);
      cbn [blendBody snd fst]; apply map_region_push
  end.

Ltac detail_regions :=
  match goal with
  | |- context [forAvailable ?n _ _ _ _ _] => detail_regions_with n
  end.

Lemma calculateOlfactoryIndex_regions :
  detailRegions (calculateOlfactoryIndex data)
  = availableNames data.(lh) data.(rh)
      ["entorhinal"; "parahippocampal"; "medialorbitofrontal"].
Proof. unfold calculateOlfactoryIndex. detail_regions. Qed.

Lemma calculateReadingIndex_regions :
  detailRegions (calculateReadingIndex data)
  = availableNames data.(lh) data.(rh)
      ["superiortemporal"; "supramarginal"; "inferiorparietal"; "fusiform"].
Proof. unfold calculateReadingIndex. detail_regions. Qed.

Lemma calculateEmpathyIndex_regions :
  detailRegions (calculateEmpathyIndex data)
  = availableNames data.(lh) data.(rh)
      ["rostralanteriorcingulate"; "medialorbitofrontal"; "insula";
       "posteriorcingulate"].
Proof. unfold calculateEmpathyIndex. detail_regions. Qed.

Lemma calculateExecutiveIndex_regions :
  detailRegions (calculateExecutiveIndex data)
  = availableNames data.(lh) data.(rh)
      ["superiorfrontal"; "rostralmiddlefrontal"; "caudalmiddlefrontal";
       "parsopercularis"].
Proof. unfold calculateExecutiveIndex. detail_regions. Qed.

Lemma calculateSpatialIndex_regions :
  detailRegions (calculateSpatialIndex data)
  = availableNames data.(lh) data.(rh)
      ["inferiorparietal"; "superiorparietal"; "precuneus"].
Proof. unfold calculateSpatialIndex. detail_regions. Qed.

Lemma calculateFluidIntelligenceIndex_regions :
  detailRegions (calculateFluidIntelligenceIndex data)
  = availableNames data.(lh) data.(rh)
      ["superiorfrontal"; "inferiorparietal"; "superiortemporal";
       "rostralmiddlefrontal"; "insula"].
Proof. unfold calculateFluidIntelligenceIndex. detail_regions. Qed.

Lemma calculateParietalIQIndex_regions :
  detailRegions (calculateParietalIQIndex data)
  = availableNames data.(lh) data.(rh)
      ["supramarginal"; "inferiorparietal"; "superiorparietal"; "precuneus";
       "posteriorcingulate"].
Proof. unfold calculateParietalIQIndex. detail_regions. Qed.

Lemma calculateDominantEyeIndex_regions :
  detailRegions (calculateDominantEyeIndex data)
  = availableNames data.(lh) data.(rh) ["pericalcarine"; "cuneus"; "lingual"].
Proof. unfold calculateDominantEyeIndex. detail_regions. Qed.

Lemma calculatePreferredNostrilIndex_regions :
  detailRegions (calculatePreferredNostrilIndex data)
  = availableLabels data.(lh) data.(rh)
      [("entorhinal", "entorhinal"); ("parahippocampal", "parahippocampal");
       ("medialorbitofrontal", "medialorbitofrontal"); ("insula", "insula");
       ("entorhinal", "piriform")].
Proof.
  unfold calculatePreferredNostrilIndex.
  detail_regions_with (fst : string * num → string).
Qed.

Lemma calculateLanguageInputLateralization_regions :
  detailRegions (calculateLanguageInputLateralization data)
  = availableNames data.(lh) data.(rh)
      ["superiortemporal"; "inferiorparietal"; "middletemporal";
       "supramarginal"; "fusiform"].
Proof. unfold calculateLanguageInputLateralization. detail_regions. Qed.

Lemma calculateHandednessIndex_regions :
  detailRegions (calculateHandednessIndex data)
  = availableSubregionLabels data
      [("BA4a_exvivo", "BA4a_exvivo"); ("BA4p_exvivo", "BA4p_exvivo");
       ("BA3b_exvivo", "BA3b_exvivo")].
Proof.
  unfold calculateHandednessIndex, availableSubregionLabels.
  destruct (lhBA data), (rhBA data); try done. detail_regions.
Qed.

Lemma calculateLanguageOutputLateralization_regions :
  detailRegions (calculateLanguageOutputLateralization data)
  = availableSubregionLabels data
      [("BA44_exvivo", "BA44_exvivo"); ("BA45_exvivo", "BA45_exvivo")].
Proof.
  unfold calculateLanguageOutputLateralization, availableSubregionLabels.
  destruct (lhBA data), (rhBA data); try done. detail_regions.
Qed.

Lemma calculateLanguageIndex_regions :
  detailRegions (calculateLanguageIndex data)
  = (availableNames data.(lh) data.(rh)
       ["superiortemporal"; "parsopercularis"; "parstriangularis";
        "middletemporal"; "fusiform"]
     ++ availableSubregionLabels data
          [("BA44_exvivo", "BA44_exvivo (Broca)");
           ("BA45_exvivo", "BA45_exvivo (Broca)")])%list.
Proof.
  unfold calculateLanguageIndex, availableSubregionLabels, detailRegions.
  cbv zeta.
  match goal with
  | |- context [forAvailable ?n ?l ?r ?b ?cfgs (Fin 0, Fin 0, [])] =>
      pose proof (forAvailable_detail_regions n n l r b snd cfgs
                    (Fin 0, Fin 0, [])) as Hdkt;
      set (afterDKT := forAvailable n l r b cfgs (Fin 0, Fin 0, [])) in *
  end.
  assert (HafterDKT : map region afterDKT.2
            = availableNames (lh data) (rh data)
                ["superiortemporal"; "parsopercularis"; "parstriangularis";
                 "middletemporal"; "fusiform"]).
  { apply Hdkt. intros [n w] ref' l' r' [[ti tw] ds]. apply map_region_push. }
  clear Hdkt. rewrite <- HafterDKT.
  destruct (lhBA data) as [lhBAMap|], (rhBA data) as [rhBAMap|];
    try (destruct afterDKT as [[ti tw] ds]; cbn [details snd];
         by rewrite app_nil_r).
  match goal with
  | |- context [forAvailable ?n ?l ?r ?b ?cfgs afterDKT] =>
      pose proof (forAvailable_detail_regions n
                    (λ c : string * num, c.1 +:+ " (Broca)") l r b snd cfgs
                    afterDKT) as Hba;
      destruct (forAvailable n l r b cfgs afterDKT) as [[ti tw] ds]
  end.
  cbn [details snd] in *. apply Hba.
  intros [n w] ref' l' r' [[ti' tw'] ds']. apply map_region_push.
Qed.

Lemma calculateLanguageLateralizationIndex_regions :
  detailRegions (calculateLanguageLateralizationIndex data)
  = (map (λ n, n +:+ " (Output)")
       (detailRegions (calculateLanguageOutputLateralization data))
     ++ map (λ n, n +:+ " (Input)")
          (detailRegions (calculateLanguageInputLateralization data)))%list.
Proof.
  unfold calculateLanguageLateralizationIndex, detailRegions.
  cbv zeta. cbn [details].
  by rewrite map_app, !map_map.
Qed.

End DetailRegions.

(** X8.  Every calculator reports exactly one detail per region that
    passes its guard (reference entry and both hemispheres present), in
    the order of its configuration and under the configured name; a
    skipped region leaves no detail.  The Language Composite index adds
    the suffix [" (Broca)"] to its subregions, the Preferred Nostril
    index reports its fifth term as [piriform] although it is read from
    [entorhinal], and the combined Language Lateralization index lists
    the output details and then the input details, tagged
    [" (Output)"] and [" (Input)"].  The subregion-based lists are empty
    when a subregion map is absent. *)
Theorem details_list_available_regions (data : DKTData) :
  detailRegions (calculateOlfactoryIndex data)
  = availableNames data.(lh) data.(rh)
      ["entorhinal"; "parahippocampal"; "medialorbitofrontal"]
  ∧ detailRegions (calculateLanguageIndex data)
    = (availableNames data.(lh) data.(rh)
         ["superiortemporal"; "parsopercularis"; "parstriangularis";
          "middletemporal"; "fusiform"]
       ++ availableSubregionLabels data
            [("BA44_exvivo", "BA44_exvivo (Broca)");
             ("BA45_exvivo", "BA45_exvivo (Broca)")])%list
  ∧ detailRegions (calculateReadingIndex data)
    = availableNames data.(lh) data.(rh)
        ["superiortemporal"; "supramarginal"; "inferiorparietal"; "fusiform"]
  ∧ detailRegions (calculateEmpathyIndex data)
    = availableNames data.(lh) data.(rh)
        ["rostralanteriorcingulate"; "medialorbitofrontal"; "insula";
         "posteriorcingulate"]
  ∧ detailRegions (calculateExecutiveIndex data)
    = availableNames data.(lh) data.(rh)
        ["superiorfrontal"; "rostralmiddlefrontal"; "caudalmiddlefrontal";
         "parsopercularis"]
  ∧ detailRegions (calculateSpatialIndex data)
    = availableNames data.(lh) data.(rh)
        ["inferiorparietal"; "superiorparietal"; "precuneus"]
  ∧ detailRegions (calculateFluidIntelligenceIndex data)
    = availableNames data.(lh) data.(rh)
        ["superiorfrontal"; "inferiorparietal"; "superiortemporal";
         "rostralmiddlefrontal"; "insula"]
  ∧ detailRegions (calculateParietalIQIndex data)
    = availableNames data.(lh) data.(rh)
        ["supramarginal"; "inferiorparietal"; "superiorparietal"; "precuneus";
         "posteriorcingulate"]
  ∧ detailRegions (calculateHandednessIndex data)
    = availableSubregionLabels data
        [("BA4a_exvivo", "BA4a_exvivo"); ("BA4p_exvivo", "BA4p_exvivo");
         ("BA3b_exvivo", "BA3b_exvivo")]
  ∧ detailRegions (calculateDominantEyeIndex data)
    = availableNames data.(lh) data.(rh)
        ["pericalcarine"; "cuneus"; "lingual"]
  ∧ detailRegions (calculatePreferredNostrilIndex data)
    = availableLabels data.(lh) data.(rh)
        [("entorhinal", "entorhinal"); ("parahippocampal", "parahippocampal");
         ("medialorbitofrontal", "medialorbitofrontal"); ("insula", "insula");
         ("entorhinal", "piriform")]
  ∧ detailRegions (calculateLanguageOutputLateralization data)
    = availableSubregionLabels data
        [("BA44_exvivo", "BA44_exvivo"); ("BA45_exvivo", "BA45_exvivo")]
  ∧ detailRegions (calculateLanguageInputLateralization data)
    = availableNames data.(lh) data.(rh)
        ["superiortemporal"; "inferiorparietal"; "middletemporal";
         "supramarginal"; "fusiform"]
  ∧ detailRegions (calculateLanguageLateralizationIndex data)
    = (map (λ n, n +:+ " (Output)")
         (detailRegions (calculateLanguageOutputLateralization data))
       ++ map (λ n, n +:+ " (Input)")
            (detailRegions (calculateLanguageInputLateralization data)))%list.
Proof.
  repeat apply conj.
  - apply calculateOlfactoryIndex_regions.
  - apply calculateLanguageIndex_regions.
  - apply calculateReadingIndex_regions.
  - apply calculateEmpathyIndex_regions.
  - apply calculateExecutiveIndex_regions.
  - apply calculateSpatialIndex_regions.
  - apply calculateFluidIntelligenceIndex_regions.
  - apply calculateParietalIQIndex_regions.
  - apply calculateHandednessIndex_regions.
  - apply calculateDominantEyeIndex_regions.
  - apply calculatePreferredNostrilIndex_regions.
  - apply calculateLanguageOutputLateralization_regions.
  - apply calculateLanguageInputLateralization_regions.
  - apply calculateLanguageLateralizationIndex_regions.
Qed.

(** ** Exchanging the hemispheres *)

Section NumSymmetry.
#[local] Open Scope R_scope.

Ltac num_cases :=
  unfold sub; unfold add, mul, div, neg, mulInf, signedInf, negb, Math_abs;
  repeat case_decide; try reflexivity; try lra;
  try (f_equal; (lra || (field; lra))).

Lemma add_comm (a b : num) : (a + b)%num = (b + a)%num.
Proof. destruct a, b; num_cases. Qed.

Lemma neg_add (a b : num) : (- (a + b))%num = (- a + - b)%num.
Proof. destruct a, b; num_cases. Qed.

Lemma neg_sub (a b : num) : (- (a - b))%num = (b - a)%num.
Proof. destruct a, b; num_cases. Qed.

Lemma mul_neg_l (a b : num) : (- a * b)%num = (- (a * b))%num.
Proof. destruct a, b; num_cases. Qed.

Lemma mul_neg_r (a b : num) : (a * - b)%num = (- (a * b))%num.
Proof. destruct a, b; num_cases. Qed.

Lemma div_neg_l (a b : num) : (- a / b)%num = (- (a / b))%num.
Proof. destruct a, b; num_cases. Qed.

Lemma neg_zero : (- Fin 0)%num = Fin 0.
Proof. num_cases. Qed.

Lemma toFixed3_neg (a : num) : toFixed3 (- a)%num = (- toFixed3 a)%num.
Proof.
  destruct a as [| | |x]; try reflexivity.
  unfold neg, toFixed3. rewrite Rabs_Ropp.
  destruct (decide (1e21 <= Rabs x)); [done|].
  destruct (Rtotal_order x 0) as [Hneg | [-> | Hpos]].
  - rewrite decide_False, decide_True by lra.
    rewrite (Rabs_left x) by done. f_equal. lra.
  - rewrite Ropp_0, Rabs_R0. rewrite !decide_False by lra.
    replace (0 * 1000 + 1 / 2) with (1 / 2) by lra.
    rewrite (Zfloor_eq 0) by lra. f_equal. lra.
  - rewrite decide_True, decide_False by lra.
    rewrite (Rabs_pos_eq x) by lra. done.
Qed.

Lemma lateralizationRatio_swap (a b : num) :
  lateralizationRatio b a = (- lateralizationRatio a b)%num.
Proof.
  unfold lateralizationRatio.
  by rewrite <- div_neg_l, neg_sub, (add_comm (Math_abs b)).
Qed.

End NumSymmetry.

Section SwapLoops.
Context {C S S' : Type} (nameOf : C → string).
Context (lhMap rhMap : gmap string DKTRegionData).
Context (body : C → RefEntry → DKTRegionData → DKTRegionData → S → S).
Context (body' : C → RefEntry → DKTRegionData → DKTRegionData → S' → S').

Lemma available_swap (n : string) :
  available rhMap lhMap n
  = match available lhMap rhMap n with
    | Some (ref, l, r) => Some (ref, r, l)
    | None => None
    end.
Proof. unfold available. by repeat case_match. Qed.

(** A loop and the loop on the exchanged hemispheres visit the same
    regions, with the two measurements exchanged. *)
Lemma forAvailable_swap (Rel : S → S' → Prop) (configs : list C)
    (init : S) (init' : S') :
  Rel init init' →
  (∀ c ref l r acc acc', c ∈ configs →
     Rel acc acc' → Rel (body c ref l r acc) (body' c ref r l acc')) →
  Rel (forAvailable nameOf lhMap rhMap body configs init)
      (forAvailable nameOf rhMap lhMap body' configs init').
Proof.
  intros Hinit Hstep. apply forAvailable_rel; [done|].
  intros c Hc. rewrite available_swap.
  destruct (available lhMap rhMap (nameOf c)) as [[[ref l] r]|]; [|done].
  intros acc acc'. by apply Hstep.
Qed.

End SwapLoops.

Section SwapCalculators.
#[local] Open Scope R_scope.

Variable data : DKTData.

(** The calculators that average the two hemispheres. *)
Ltac swap_symmetric :=
  unfold swapHemispheres; cbn [lh rh lhBA rhBA];
  match goal with
  | |- context [forAvailable ?n ?l ?r ?b ?cfgs ?i] =>
      let H := fresh "H" in
      assert (H : (forAvailable n l r b cfgs i).1
                  = (forAvailable n r l b cfgs i).1);
      [apply (forAvailable_swap n l r b b (λ acc acc', acc.1 = acc'.1));
       [done|];
       intros c ref' l' r' acc acc' _ Hacc;
       repeat match goal with p : (_ * _)%type |- _ => destruct p end;
       cbn [blendBody fst snd] in *; subst;
       by rewrite (add_comm (compositeZScore l' _ _))
      |destruct (forAvailable n l r b cfgs i),
          (forAvailable n r l b cfgs i);
       cbn [fst value percentile] in *; by subst]
  end.

Lemma calculateOlfactoryIndex_swap :
  (calculateOlfactoryIndex (swapHemispheres data)).(value)
  = (calculateOlfactoryIndex data).(value)
  ∧ (calculateOlfactoryIndex (swapHemispheres data)).(percentile)
    = (calculateOlfactoryIndex data).(percentile).
Proof. unfold calculateOlfactoryIndex. swap_symmetric. Qed.

Lemma calculateEmpathyIndex_swap :
  (calculateEmpathyIndex (swapHemispheres data)).(value)
  = (calculateEmpathyIndex data).(value)
  ∧ (calculateEmpathyIndex (swapHemispheres data)).(percentile)
    = (calculateEmpathyIndex data).(percentile).
Proof. unfold calculateEmpathyIndex. swap_symmetric. Qed.

Lemma calculateExecutiveIndex_swap :
  (calculateExecutiveIndex (swapHemispheres data)).(value)
  = (calculateExecutiveIndex data).(value)
  ∧ (calculateExecutiveIndex (swapHemispheres data)).(percentile)
    = (calculateExecutiveIndex data).(percentile).
Proof. unfold calculateExecutiveIndex. swap_symmetric. Qed.

Lemma calculateFluidIntelligenceIndex_swap :
  (calculateFluidIntelligenceIndex (swapHemispheres data)).(value)
  = (calculateFluidIntelligenceIndex data).(value)
  ∧ (calculateFluidIntelligenceIndex (swapHemispheres data)).(percentile)
    = (calculateFluidIntelligenceIndex data).(percentile).
Proof. unfold calculateFluidIntelligenceIndex. swap_symmetric. Qed.

Lemma calculateParietalIQIndex_swap :
  (calculateParietalIQIndex (swapHemispheres data)).(value)
  = (calculateParietalIQIndex data).(value)
  ∧ (calculateParietalIQIndex (swapHemispheres data)).(percentile)
    = (calculateParietalIQIndex data).(percentile)
  ∧ (calculateParietalIQIndex (swapHemispheres data)).(zScore_field)
    = (calculateParietalIQIndex data).(zScore_field).
Proof.
  unfold calculateParietalIQIndex, swapHemispheres. cbn [lh rh lhBA rhBA].
  match goal with
  | |- context [forAvailable ?n ?l ?r ?b ?cfgs ?i] =>
      assert (H : (forAvailable n l r b cfgs i).1
                  = (forAvailable n r l b cfgs i).1);
      [apply (forAvailable_swap n l r b b
                (λ acc acc' : num * num * list RegionDetail,
                   acc.1 = acc'.1)); [done|]
      |destruct (forAvailable n l r b cfgs i) as [[ti tw] ds],
          (forAvailable n r l b cfgs i) as [[ti' tw'] ds'];
       cbn [fst value percentile zScore_field] in *; by simplify_eq]
  end.
  intros c ref' l' r' [[ti tw] ds] [[ti' tw'] ds'] _ Hacc.
  cbn [fst] in *. simplify_eq. do 4 f_equal. apply add_comm.
Qed.

(** The calculators that take a left-right difference and round with
    [toFixed]. *)
Lemma calculatePreferredNostrilIndex_swap :
  (calculatePreferredNostrilIndex (swapHemispheres data)).(value)
  = (- (calculatePreferredNostrilIndex data).(value))%num.
Proof.
  unfold calculatePreferredNostrilIndex, swapHemispheres.
  cbn [lh rh lhBA rhBA].
  match goal with
  | |- context [forAvailable ?n ?l ?r ?b ?cfgs ?i] =>
      assert (H : (forAvailable n l r b cfgs i).1
                  = (- (forAvailable n r l b cfgs i).1)%num);
      [apply (forAvailable_swap n l r b b
                (λ acc acc' : num * list RegionDetail,
                   acc.1 = (- acc'.1)%num));
        [cbn [fst]; by rewrite neg_zero|]
      |destruct (forAvailable n l r b cfgs i) as [raw ds],
          (forAvailable n r l b cfgs i) as [raw' ds'];
       cbn [fst value] in *; subst raw; apply toFixed3_neg]
  end.
  intros c ref' l' r' [raw ds] [raw' ds'] _ Hacc.
  cbn [fst] in *. subst raw.
  by rewrite neg_add, <- mul_neg_r, neg_sub.
Qed.

Lemma ratio_sums_swap {A B : Type} (acc acc' : num * num * A * B) :
  acc.1.1.1 = acc'.1.1.2 → acc.1.1.2 = acc'.1.1.1 →
  toFixed3 (lateralizationRatio acc.1.1.1 acc.1.1.2)
  = (- toFixed3 (lateralizationRatio acc'.1.1.1 acc'.1.1.2))%num.
Proof.
  intros -> ->. by rewrite <- toFixed3_neg, <- lateralizationRatio_swap.
Qed.

Lemma calculateLanguageInputLateralization_swap :
  (calculateLanguageInputLateralization (swapHemispheres data)).(value)
  = (- (calculateLanguageInputLateralization data).(value))%num.
Proof.
  unfold calculateLanguageInputLateralization, swapHemispheres.
  cbn [lh rh lhBA rhBA].
  match goal with
  | |- context [forAvailable ?n ?l ?r ?b ?cfgs ?i] =>
      assert (H : (λ acc acc' : num * num * num * list RegionDetail,
                     acc.1.1.1 = acc'.1.1.2 ∧ acc.1.1.2 = acc'.1.1.1)
                    (forAvailable n l r b cfgs i)
                    (forAvailable n r l b cfgs i));
      [apply (forAvailable_swap n l r b b); [done|]
      |destruct H as [H1 H2];
       pose proof (ratio_sums_swap _ _ H1 H2) as Hr;
       destruct (forAvailable n l r b cfgs i) as [[[sl sr] ts] ds],
          (forAvailable n r l b cfgs i) as [[[sl' sr'] ts'] ds'];
       exact Hr]
  end.
  intros c ref' l' r' [[[sl sr] ts] ds] [[[sl' sr'] ts'] ds'] _ [H1 H2].
  cbn [fst snd] in *. by subst.
Qed.

Lemma calculateLanguageOutputLateralization_swap :
  (calculateLanguageOutputLateralization (swapHemispheres data)).(value)
  = (- (calculateLanguageOutputLateralization data).(value))%num.
Proof.
  unfold calculateLanguageOutputLateralization, swapHemispheres.
  cbn [lh rh lhBA rhBA].
  destruct (lhBA data) as [lhBAMap|], (rhBA data) as [rhBAMap|];
    try (cbn [neutralResult value]; by rewrite neg_zero).
  match goal with
  | |- context [forAvailable ?n ?l ?r ?b ?cfgs ?i] =>
      assert (H : (λ acc acc' : num * num * num * list RegionDetail,
                     acc.1.1.1 = acc'.1.1.2 ∧ acc.1.1.2 = acc'.1.1.1)
                    (forAvailable n l r b cfgs i)
                    (forAvailable n r l b cfgs i));
      [apply (forAvailable_swap n l r b b); [done|]
      |destruct H as [H1 H2];
       pose proof (ratio_sums_swap _ _ H1 H2) as Hr;
       destruct (forAvailable n l r b cfgs i) as [[[sl sr] tw] ds],
          (forAvailable n r l b cfgs i) as [[[sl' sr'] tw'] ds'];
       exact Hr]
  end.
  intros c ref' l' r' [[[sl sr] tw] ds] [[[sl' sr'] tw'] ds'] _ [H1 H2].
  cbn [fst snd] in *. subst.
  assert (Hfold : foldZScores (cfg_name c) r' l'
                  = ((foldZScores (cfg_name c) l' r').2,
                     (foldZScores (cfg_name c) l' r').1)).
  { unfold foldZScores. by repeat case_match. }
  rewrite Hfold. by destruct (foldZScores (cfg_name c) l' r').
Qed.

Lemma calculateLanguageLateralizationIndex_swap :
  (calculateLanguageLateralizationIndex (swapHemispheres data)).(value)
  = (- (calculateLanguageLateralizationIndex data).(value))%num.
Proof.
  unfold calculateLanguageLateralizationIndex. cbv zeta. cbn [value].
  rewrite calculateLanguageOutputLateralization_swap,
    calculateLanguageInputLateralization_swap.
  by rewrite <- toFixed3_neg, neg_add, !mul_neg_l.
Qed.

End SwapCalculators.

(** X9.  The indices that average the two hemispheres, [(zL + zR) / 2],
    do not depend on which hemisphere is which: exchanging the left and
    right measurements leaves the value and the percentile of the
    Olfactory, Empathy, Executive Function, Fluid Intelligence and
    Parietal IQ indices unchanged (for the last one also the z-score). *)
Theorem symmetric_indices_ignore_hemisphere_order (data : DKTData) :
  ((calculateOlfactoryIndex (swapHemispheres data)).(value)
   = (calculateOlfactoryIndex data).(value)
   ∧ (calculateOlfactoryIndex (swapHemispheres data)).(percentile)
     = (calculateOlfactoryIndex data).(percentile))
  ∧ ((calculateEmpathyIndex (swapHemispheres data)).(value)
     = (calculateEmpathyIndex data).(value)
     ∧ (calculateEmpathyIndex (swapHemispheres data)).(percentile)
       = (calculateEmpathyIndex data).(percentile))
  ∧ ((calculateExecutiveIndex (swapHemispheres data)).(value)
     = (calculateExecutiveIndex data).(value)
     ∧ (calculateExecutiveIndex (swapHemispheres data)).(percentile)
       = (calculateExecutiveIndex data).(percentile))
  ∧ ((calculateFluidIntelligenceIndex (swapHemispheres data)).(value)
     = (calculateFluidIntelligenceIndex data).(value)
     ∧ (calculateFluidIntelligenceIndex (swapHemispheres data)).(percentile)
       = (calculateFluidIntelligenceIndex data).(percentile))
  ∧ ((calculateParietalIQIndex (swapHemispheres data)).(value)
     = (calculateParietalIQIndex data).(value)
     ∧ (calculateParietalIQIndex (swapHemispheres data)).(percentile)
       = (calculateParietalIQIndex data).(percentile)
     ∧ (calculateParietalIQIndex (swapHemispheres data)).(zScore_field)
       = (calculateParietalIQIndex data).(zScore_field)).
Proof.
  split; [|split; [|split; [|split]]].
  - apply calculateOlfactoryIndex_swap.
  - apply calculateEmpathyIndex_swap.
  - apply calculateExecutiveIndex_swap.
  - apply calculateFluidIntelligenceIndex_swap.
  - apply calculateParietalIQIndex_swap.
Qed.

(** X10.  The lateralization indices that round with [toFixed] are odd
    in the hemispheres: exchanging the left and right measurements
    (subregion maps included) turns the value of the Preferred Nostril,
    Language Output, Language Input and combined Language Lateralization
    index into its negative, exactly. *)
Theorem lateralization_values_are_odd (data : DKTData) :
  (calculatePreferredNostrilIndex (swapHemispheres data)).(value)
  = - (calculatePreferredNostrilIndex data).(value)
  ∧ (calculateLanguageOutputLateralization (swapHemispheres data)).(value)
    = - (calculateLanguageOutputLateralization data).(value)
  ∧ (calculateLanguageInputLateralization (swapHemispheres data)).(value)
    = - (calculateLanguageInputLateralization data).(value)
  ∧ (calculateLanguageLateralizationIndex (swapHemispheres data)).(value)
    = - (calculateLanguageLateralizationIndex data).(value).
Proof.
  split; [|split; [|split]].
  - apply calculatePreferredNostrilIndex_swap.
  - apply calculateLanguageOutputLateralization_swap.
  - apply calculateLanguageInputLateralization_swap.
  - apply calculateLanguageLateralizationIndex_swap.
Qed.

(** ** Report parser: rows, duplicates, comments and curvature *)

Section ParserFacts.

(** The table never ends: [inTable] is not reset. *)
Lemma parseLine_inTable (st : ParseState) (line : string) :
  st.(inTable) = true → (parseLine st line).(inTable) = true.
Proof.
  intros Hin. unfold parseLine. repeat case_match; done.
Qed.

Lemma fold_parseLine_inTable (lines : list string) (st : ParseState) :
  st.(inTable) = true → (fold_left parseLine lines st).(inTable) = true.
Proof.
  revert st. induction lines as [|line lines IH]; intros st Hin; [done|].
  cbn [fold_left]. apply IH. by apply parseLine_inTable.
Qed.

Lemma parseLine_header (st : ParseState) (line : string) :
  includes "ColHeaders" line = true → (parseLine st line).(inTable) = true.
Proof. intros Hh. unfold parseLine. by rewrite Hh. Qed.

(** A line changes the entry of [regionName] only if it is its first
    token. *)
Lemma parseLine_other_key (st : ParseState) (line regionName : string) :
  item (lineTokens line) 0 ≠ regionName →
  (parseLine st line).(st_data) !! regionName = st.(st_data) !! regionName.
Proof.
  intros Hne. unfold parseLine. fold (lineTokens line).
  repeat case_match; try done; cbn [st_data]; by rewrite lookup_insert_ne.
Qed.

Lemma fold_parseLine_other_key (lines : list string) (st : ParseState)
    (regionName : string) :
  Forall (λ line, item (lineTokens line) 0 ≠ regionName) lines →
  (fold_left parseLine lines st).(st_data) !! regionName
  = st.(st_data) !! regionName.
Proof.
  revert st. induction lines as [|line lines IH]; intros st Hall; [done|].
  apply Forall_cons in Hall as [Hline Hall]. cbn [fold_left].
  rewrite IH by done. by apply parseLine_other_key.
Qed.

(** A skipped line leaves the state as it is. *)
Lemma parseLine_skipped (st : ParseState) (line : string) :
  isSkippedLine line → parseLine st line = st.
Proof.
  intros (Hh & [Hblank | Hcomment]); unfold parseLine; rewrite Hh.
  - rewrite Hblank. cbn [negb]. by rewrite andb_false_r.
  - rewrite Hcomment. cbn [negb]. by rewrite andb_false_r.
Qed.

Lemma fold_parseLine_filter (lines : list string) (st : ParseState) :
  fold_left parseLine (filter (λ line, ¬ isSkippedLine line) lines) st
  = fold_left parseLine lines st.
Proof.
  revert st. induction lines as [|line lines IH]; intros st; [done|].
  destruct (decide (isSkippedLine line)) as [Hskip | Hkeep].
  - rewrite filter_cons_False by (by intros H).
    cbn [fold_left]. by rewrite (parseLine_skipped _ _ Hskip).
  - rewrite filter_cons_True by done. cbn [fold_left]. apply IH.
Qed.

(** The invariant on the curvature fields. *)
Lemma parseLine_curvature (st : ParseState) (line : string) :
  map_Forall (λ _ d, curvatureAllOrNone d) st.(st_data) →
  map_Forall (λ _ d, curvatureAllOrNone d) (parseLine st line).(st_data).
Proof.
  intros Hinv. unfold parseLine.
  destruct (includes "ColHeaders" line); [done|].
  destruct (_ && _ && _); [|done].
  destruct (5 <=? _)%nat; [|done].
  destruct (String.eqb _ "__proto__"); [done|].
  cbn [st_data]. apply map_Forall_insert_2; [|done].
  unfold curvatureAllOrNone. cbn.
  destruct (_ && _); [left|right]; by repeat split.
Qed.

Lemma parseLine_no_curvature (st : ParseState) (line : string) :
  includes "MeanCurv" line = false → includes "CurvInd" line = false →
  st.(hasExtendedCols) = false ∧ map_Forall (λ _ d, noCurvature d) st.(st_data) →
  (parseLine st line).(hasExtendedCols) = false
  ∧ map_Forall (λ _ d, noCurvature d) (parseLine st line).(st_data).
Proof.
  intros Hm Hc [Hext Hinv]. unfold parseLine. rewrite Hm, Hc.
  destruct (includes "ColHeaders" line); [done|].
  destruct (_ && _ && _); [|done].
  destruct (5 <=? _)%nat; [|done].
  destruct (String.eqb _ "__proto__"); [done|].
  cbn [st_data hasExtendedCols].
  split; [done|]. apply map_Forall_insert_2; [|done].
  unfold noCurvature. cbn. by rewrite Hext.
Qed.

End ParserFacts.

(** X11.  A data row of the table (not a header, not blank, not starting
    with [#], at least five tokens, a first token other than
    [__proto__]) that comes after a header line and is not followed by a
    line with the same first token is found in the result under its first
    token, with surface area, volume and thickness read from tokens 2, 3
    and 4.  In particular, of several rows with the same region name the
    last one wins. *)
Theorem parseDKTStats_row_lookup (content row : string)
    (before after : list string) :
  split newline content = (before ++ row :: after)%list →
  Exists (λ line, includes "ColHeaders" line = true) before →
  isDataRow row →
  Forall (λ line, item (lineTokens line) 0 ≠ item (lineTokens row) 0) after →
  ∃ d, parseDKTStats content !! item (lineTokens row) 0 = Some d
    ∧ d.(surfArea) = parseFloat (item (lineTokens row) 2)
    ∧ d.(volume) = parseFloat (item (lineTokens row) 3)
    ∧ d.(thickness) = parseFloat (item (lineTokens row) 4).
Proof.
  intros Hsplit Hheader Hrow Hafter. unfold parseDKTStats. fold newline.
  rewrite Hsplit, fold_left_app. cbn [fold_left].
  assert (Hin : (fold_left parseLine before initialParseState).(inTable)
                = true).
  { apply Exists_exists in Hheader as (line & Hline & Hh).
    apply list_elem_of_split in Hline as (l1 & l2 & ->).
    rewrite fold_left_app. cbn [fold_left].
    apply fold_parseLine_inTable. by apply parseLine_header. }
  destruct (parseLine_dataRow _ _ Hin Hrow) as (d & Hd & Hfields).
  exists d. split; [|done].
  rewrite fold_parseLine_other_key by done.
  rewrite Hd. apply lookup_insert_eq.
Qed.

Lemma parseDKTStats_row_lookup_witness :
  ∃ d, parseDKTStats duplicateRowReport !! "entorhinal" = Some d
    ∧ d.(surfArea) = parseFloat "480"
    ∧ d.(volume) = parseFloat "1600"
    ∧ d.(thickness) = parseFloat "3.20".
Proof.
  apply (parseDKTStats_row_lookup duplicateRowReport entorhinalRow
           [extendedHeader; "entorhinal 1 2 3 4 5"] []).
  - reflexivity.
  - apply Exists_cons_hd. reflexivity.
  - split; [reflexivity|]. split; [reflexivity|]. split; [reflexivity|].
    split; [vm_compute; lia|]. by intros [=].
  - apply Forall_nil_2.
Defined.

(** X12.  Blank lines and comment lines (lines starting with [#] that do
    not contain [ColHeaders]) are ignored wherever they stand: two
    reports whose remaining lines are the same parse to the same
    mapping. *)
Theorem parseDKTStats_ignores_comments (content content' : string) :
  filter (λ line, ¬ isSkippedLine line) (split newline content)
  = filter (λ line, ¬ isSkippedLine line) (split newline content') →
  parseDKTStats content = parseDKTStats content'.
Proof.
  intros Hsame. unfold parseDKTStats. fold newline.
  rewrite <- (fold_parseLine_filter (split newline content)).
  rewrite <- (fold_parseLine_filter (split newline content')).
  by rewrite Hsame.
Qed.

Lemma parseDKTStats_ignores_comments_witness :
  parseDKTStats commentedReport
  = parseDKTStats (extendedHeader +:+ String newline entorhinalRow).
Proof.
  apply parseDKTStats_ignores_comments. reflexivity.
Defined.

(** X13.  In every parsed measurement the four curvature fields are all
    present or all absent. *)
Theorem parseDKTStats_curvature_all_or_none (content : string) :
  map_Forall (λ _ d, curvatureAllOrNone d) (parseDKTStats content).
Proof.
  unfold parseDKTStats. fold newline.
  generalize (split newline content) as lines.
  assert (Hinit : map_Forall (λ _ d, curvatureAllOrNone d)
                    initialParseState.(st_data))
    by apply map_Forall_empty.
  revert Hinit. generalize initialParseState as st.
  intros st Hst lines. revert st Hst.
  induction lines as [|line lines IH]; intros st Hst; [done|].
  cbn [fold_left]. apply IH. by apply parseLine_curvature.
Qed.

(** X14.  Six-column mode: when no line of the report contains
    [MeanCurv] or [CurvInd], no parsed measurement has a curvature field,
    however many tokens its row has. *)
Theorem parseDKTStats_six_column_mode (content : string) :
  Forall (λ line, includes "MeanCurv" line = false
                  ∧ includes "CurvInd" line = false)
    (split newline content) →
  map_Forall (λ _ d, noCurvature d) (parseDKTStats content).
Proof.
  unfold parseDKTStats. fold newline.
  generalize (split newline content) as lines.
  assert (Hinit : initialParseState.(hasExtendedCols) = false
                  ∧ map_Forall (λ _ d, noCurvature d)
                      initialParseState.(st_data))
    by (split; [done|apply map_Forall_empty]).
  revert Hinit. generalize initialParseState as st.
  intros st Hst lines Hall. revert st Hst.
  induction Hall as [|line lines [Hm Hc] _ IH]; intros st Hst.
  - apply Hst.
  - cbn [fold_left]. apply IH. by apply parseLine_no_curvature.
Qed.

Lemma parseDKTStats_six_column_mode_witness :
  map_Forall (λ _ d, noCurvature d) (parseDKTStats sixColumnReport).
Proof.
  apply parseDKTStats_six_column_mode.
  repeat (apply Forall_cons; split; [by split|]). apply Forall_nil_2.
Defined.

(** ** A subject at the reference means *)

Section AtReference.
#[local] Open Scope R_scope.

Lemma zScore_inline_at_mean (m : MeanStd) :
  positiveStd m → ((m.(mean) - m.(mean)) / m.(std))%num = Fin 0.
Proof.
  intros (mu & sigma & -> & Hpos). cbn [mean std ms].
  rewrite sub_Fin, div_Fin by lra. f_equal. field. lra.
Qed.

Lemma compositeZScore_at_reference (d : DKTRegionData) (ref : RefEntry)
    (a b c : R) :
  validRef ref → atReferenceMeans ref d →
  compositeZScore d ref (Fin a, Fin b, Fin c) = Fin 0.
Proof.
  intros (Ht & Ha & Hv) (Hdt & Hda & Hdv).
  unfold compositeZScore, zScore. rewrite Hdt, Hda, Hdv.
  rewrite !zScore_inline_at_mean by done. cbn [fst snd].
  num_eval. f_equal. lra.
Qed.

Lemma foldZScores_at_reference (regionName : string) (l r : DKTRegionData) :
  foldAtReference regionName l → foldAtReference regionName r →
  foldZScores regionName l r = (Fin 0, Fin 0).
Proof.
  unfold foldAtReference, foldZScores.
  destruct (BA_CURVATURE_REFERENCE !! regionName) as [curvRef|] eqn:Href;
    [|done].
  apply BA_CURVATURE_REFERENCE_valid in Href as [_ Hfold].
  destruct (foldInd l) as [foldL|]; [|done].
  destruct (foldInd r) as [foldR|]; [|done].
  intros -> ->. by rewrite zScore_inline_at_mean.
Qed.

Lemma regionsAtReference_reference :
  regionsAtReference (referenceRegion <$> REFERENCE_DATA_MALE).
Proof.
  intros regionName ref d Href Hd. rewrite lookup_fmap, Href in Hd.
  injection Hd as <-. split; [done|].
  unfold foldAtReference. by destruct (BA_CURVATURE_REFERENCE !! _).
Qed.

Lemma dataAtReference_referenceData : dataAtReference referenceData.
Proof.
  split; [|split; [|split]]; apply regionsAtReference_reference.
Qed.

Context (lhMap rhMap : gmap string DKTRegionData).
Hypothesis HL : regionsAtReference lhMap.
Hypothesis HR : regionsAtReference rhMap.

(** The loops built on [blendBody] keep the total at zero. *)
Lemma blendBody_loop_at_reference (a b c : R)
    (blend cL cR : num → num → num)
    (regionWeights : list (string * num)) (dets : list RegionDetail) :
  blend (Fin 0) (Fin 0) = Fin 0 →
  Forall (λ cfg, ∃ w : R, cfg.2 = Fin w) regionWeights →
  (forAvailable fst lhMap rhMap (blendBody (Fin a, Fin b, Fin c) blend cL cR)
     regionWeights (Fin 0, dets)).1 = Fin 0.
Proof.
  intros Hblend Hweights.
  apply (forAvailable_ind _ _ _ _
           (λ acc : num * list RegionDetail, acc.1 = Fin 0)); [done|].
  intros [n wt] ref l r [total ds] Hcfg (Href & Hl & Hr)%available_Some_inv.
  cbn [fst blendBody]. intros ->.
  destruct (proj1 (Forall_forall _ _) Hweights _ Hcfg) as [w Hw].
  cbn [snd] in Hw. subst wt.
  destruct (HL _ _ _ Href Hl) as [Hlm _].
  destruct (HR _ _ _ Href Hr) as [Hrm _].
  apply REFERENCE_DATA_MALE_valid in Href.
  rewrite !compositeZScore_at_reference by done.
  rewrite Hblend. num_eval. f_equal. lra.
Qed.

(** The loops that accumulate a total index and a total weight. *)
Lemma weighted_loop_at_reference {C : Type} (nameOf : C → string)
    (body : C → RefEntry → DKTRegionData → DKTRegionData
            → num * num * list RegionDetail → num * num * list RegionDetail)
    (configs : list C) (init : num * num * list RegionDetail) :
  (∃ W, init.1 = (Fin 0, Fin W) ∧ 0 <= W) →
  (∀ cfg ref l r W ds,
     cfg ∈ configs →
     validRef ref →
     atReferenceMeans ref l → atReferenceMeans ref r →
     foldAtReference (nameOf cfg) l → foldAtReference (nameOf cfg) r →
     0 <= W →
     ∃ W', (body cfg ref l r (Fin 0, Fin W, ds)).1 = (Fin 0, Fin W')
           ∧ 0 <= W') →
  ∃ W, (forAvailable nameOf lhMap rhMap body configs init).1 = (Fin 0, Fin W)
       ∧ 0 <= W.
Proof.
  intros Hinit Hstep.
  apply (forAvailable_ind _ _ _ _
           (λ acc : num * num * list RegionDetail,
              ∃ W, acc.1 = (Fin 0, Fin W) ∧ 0 <= W)); [done|].
  intros cfg ref l r [[total weight] ds] Hcfg
    (Href & Hl & Hr)%available_Some_inv (W & HW & Hpos).
  cbn [fst] in HW. injection HW as -> ->.
  destruct (HL _ _ _ Href Hl) as [Hlm Hlf].
  destruct (HR _ _ _ Href Hr) as [Hrm Hrf].
  apply REFERENCE_DATA_MALE_valid in Href.
  by apply Hstep.
Qed.

(** The loops that accumulate the two contribution sums. *)
Lemma contribution_loop_at_reference {C : Type} (nameOf : C → string)
    (body : C → RefEntry → DKTRegionData → DKTRegionData
            → num * num * num * list RegionDetail
            → num * num * num * list RegionDetail)
    (configs : list C) (init : num * num * num * list RegionDetail) :
  init.1.1 = (Fin 0, Fin 0) →
  (∀ cfg ref l r s ds,
     cfg ∈ configs →
     validRef ref →
     atReferenceMeans ref l → atReferenceMeans ref r →
     foldAtReference (nameOf cfg) l → foldAtReference (nameOf cfg) r →
     (body cfg ref l r (Fin 0, Fin 0, s, ds)).1.1 = (Fin 0, Fin 0)) →
  (forAvailable nameOf lhMap rhMap body configs init).1.1 = (Fin 0, Fin 0).
Proof.
  intros Hinit Hstep.
  apply (forAvailable_ind _ _ _ _
           (λ acc : num * num * num * list RegionDetail,
              acc.1.1 = (Fin 0, Fin 0))); [done|].
  intros cfg ref l r [[[sL sR] s] ds] Hcfg
    (Href & Hl & Hr)%available_Some_inv HW.
  cbn [fst] in HW. injection HW as -> ->.
  destruct (HL _ _ _ Href Hl) as [Hlm Hlf].
  destruct (HR _ _ _ Href Hr) as [Hrm Hrf].
  apply REFERENCE_DATA_MALE_valid in Href.
  by apply Hstep.
Qed.

End AtReference.

(** Rewrite the measurements of a region at the reference means and
    evaluate the z-scores written out in a loop body. *)
Ltac at_means Href Hl Hr :=
  let Hlt := fresh "Hlt" in let Hla := fresh "Hla" in
  let Hlv := fresh "Hlv" in let Hrt := fresh "Hrt" in
  let Hra := fresh "Hra" in let Hrv := fresh "Hrv" in
  destruct Href as (? & ? & ?);
  destruct Hl as (Hlt & Hla & Hlv); destruct Hr as (Hrt & Hra & Hrv);
  rewrite ?Hlt, ?Hla, ?Hlv, ?Hrt, ?Hra, ?Hrv;
  rewrite !zScore_inline_at_mean by done.

Section AtReferenceCalculators.
#[local] Open Scope R_scope.

Variable data : DKTData.
Hypothesis Hdata : dataAtReference data.

Ltac finite_weights :=
  repeat (apply Forall_cons_2; [by eexists|]); apply Forall_nil_2.

Ltac blend_at_reference :=
  destruct Hdata as (HL & HR & _); cbv zeta;
  match goal with
  | |- context [forAvailable fst ?l ?r
                  (blendBody (Fin ?a, Fin ?b, Fin ?c) ?blend ?cL ?cR)
                  ?cfgs (Fin 0, ?ds)] =>
      let Hloop := fresh "Hloop" in
      pose proof (blendBody_loop_at_reference l r HL HR a b c blend cL cR
                    cfgs ds) as Hloop;
      destruct (forAvailable fst l r
                  (blendBody (Fin a, Fin b, Fin c) blend cL cR) cfgs
                  (Fin 0, ds)) as [total dets];
      cbn [fst] in Hloop; rewrite Hloop;
      [|num_eval; f_equal; lra|finite_weights]
  end;
  cbn [value percentile];
  by rewrite round_scaled_zero, zToPercentile_zero by lra.

Lemma calculateOlfactoryIndex_at_reference :
  (calculateOlfactoryIndex data).(value) = Fin 0
  ∧ (calculateOlfactoryIndex data).(percentile) = Fin 50.
Proof. unfold calculateOlfactoryIndex. blend_at_reference. Qed.

Lemma calculateReadingIndex_at_reference :
  (calculateReadingIndex data).(value) = Fin 0
  ∧ (calculateReadingIndex data).(percentile) = Fin 50.
Proof. unfold calculateReadingIndex. blend_at_reference. Qed.

Lemma calculateEmpathyIndex_at_reference :
  (calculateEmpathyIndex data).(value) = Fin 0
  ∧ (calculateEmpathyIndex data).(percentile) = Fin 50.
Proof. unfold calculateEmpathyIndex. blend_at_reference. Qed.

Lemma calculateExecutiveIndex_at_reference :
  (calculateExecutiveIndex data).(value) = Fin 0
  ∧ (calculateExecutiveIndex data).(percentile) = Fin 50.
Proof. unfold calculateExecutiveIndex. blend_at_reference. Qed.

Lemma calculateSpatialIndex_at_reference :
  (calculateSpatialIndex data).(value) = Fin 0
  ∧ (calculateSpatialIndex data).(percentile) = Fin 50.
Proof. unfold calculateSpatialIndex. blend_at_reference. Qed.

Lemma calculateFluidIntelligenceIndex_at_reference :
  (calculateFluidIntelligenceIndex data).(value) = Fin 0
  ∧ (calculateFluidIntelligenceIndex data).(percentile) = Fin 50.
Proof. unfold calculateFluidIntelligenceIndex. blend_at_reference. Qed.

Lemma calculateDominantEyeIndex_at_reference :
  (calculateDominantEyeIndex data).(value) = Fin 0
  ∧ (calculateDominantEyeIndex data).(percentile) = Fin 50.
Proof. unfold calculateDominantEyeIndex. blend_at_reference. Qed.

Lemma zero_over_weight (W : R) : 0 < W → (Fin 0 / Fin W)%num = Fin 0.
Proof. intros HW. rewrite div_Fin by lra. f_equal. field. lra. Qed.

(** Close a step of a loop with a total index and a total weight. *)
Ltac weighted_step :=
  cbn [fst snd]; num_eval;
  match goal with
  | |- ∃ W', (Fin ?t, Fin ?w) = _ ∧ _ =>
      exists w; split; [f_equal; f_equal; lra | lra]
  end.

Lemma calculateLanguageIndex_at_reference :
  (calculateLanguageIndex data).(value) = Fin 0
  ∧ (calculateLanguageIndex data).(percentile) = Fin 50.
Proof.
  destruct Hdata as (HL & HR & HLBA & HRBA).
  unfold calculateLanguageIndex. cbv zeta.
  match goal with
  | |- context [forAvailable fst (lh data) (rh data) ?body ?cfgs ?init] =>
      destruct (weighted_loop_at_reference (lh data) (rh data) HL HR
                  fst body cfgs init) as (W & HW & Hpos);
      [by exists 0
      |intros cfg ref l r W ds Hcfg Href Hl Hr _ _ HW; each_config Hcfg;
       cbn [fst snd]; rewrite !compositeZScore_at_reference by done;
       weighted_step
      |destruct (forAvailable fst (lh data) (rh data) body cfgs init)
         as [[total weight] ds]]
  end.
  cbn [fst] in HW. injection HW as -> ->.
  assert (Hfinal : ∀ W' ds',
            0 <= W' →
            let totalIndex :=
              if ((Fin W' >? Fin 0) && (Fin W' <? Fin 1))%num
              then (Fin 0 / Fin W')%num else Fin 0 in
            value {| name := "Language Composite Index";
                     value := (Math_round (totalIndex * Fin 100)
                               / Fin 100)%num;
                     percentile := zToPercentile totalIndex;
                     zScore_field := None; details := ds' |} = Fin 0
            ∧ percentile {| name := "Language Composite Index";
                     value := (Math_round (totalIndex * Fin 100)
                               / Fin 100)%num;
                     percentile := zToPercentile totalIndex;
                     zScore_field := None; details := ds' |} = Fin 50).
  { intros W' ds' HW'. cbv zeta. cbn [value percentile].
    rewrite gtb_Fin, ltb_Fin.
    destruct (bool_decide (0 < W')) eqn:Hgt;
      [apply bool_decide_eq_true in Hgt; rewrite zero_over_weight by done|];
      destruct (bool_decide (W' < 1)); cbn [andb];
      by rewrite round_scaled_zero, zToPercentile_zero by lra. }
  destruct (lhBA data) as [lhBAMap|], (rhBA data) as [rhBAMap|];
    try by apply Hfinal.
  cbn [from_option] in HLBA, HRBA.
  match goal with
  | |- context [forAvailable fst lhBAMap rhBAMap ?body ?cfgs ?init] =>
      destruct (weighted_loop_at_reference lhBAMap rhBAMap HLBA HRBA
                  fst body cfgs init) as (W' & HW' & Hpos');
      [by exists W
      |intros cfg ref l r W0 ds0 Hcfg Href Hl Hr _ _ HW0; each_config Hcfg;
       cbn [fst snd]; rewrite !compositeZScore_at_reference by done;
       weighted_step
      |destruct (forAvailable fst lhBAMap rhBAMap body cfgs init)
         as [[total weight] ds']]
  end.
  cbn [fst] in HW'. injection HW' as -> ->. by apply Hfinal.
Qed.

Lemma calculateParietalIQIndex_at_reference :
  (calculateParietalIQIndex data).(value) = Fin 100
  ∧ (calculateParietalIQIndex data).(percentile) = Fin 50.
Proof.
  destruct Hdata as (HL & HR & _).
  unfold calculateParietalIQIndex. cbv zeta.
  match goal with
  | |- context [forAvailable cfg_name (lh data) (rh data) ?body ?cfgs ?init] =>
      destruct (weighted_loop_at_reference (lh data) (rh data) HL HR
                  cfg_name body cfgs init) as (W & HW & Hpos);
      [by exists 0
      |intros cfg ref l r W ds Hcfg Href Hl Hr _ _ HW; at_means Href Hl Hr;
       each_config Hcfg; cbn [cfg_weight wThick wArea wThird regionConfig];
       weighted_step
      |destruct (forAvailable cfg_name (lh data) (rh data) body cfgs init)
         as [[total weight] ds]]
  end.
  cbn [fst] in HW. injection HW as -> ->. cbn [value percentile].
  rewrite gtb_Fin.
  destruct (bool_decide (0 < W)) eqn:Hgt;
    [apply bool_decide_eq_true in Hgt; rewrite zero_over_weight by done|];
    rewrite zToPercentile_zero; (split; [|done]);
    autorewrite with num_eval;
    rewrite (Math_round_Fin _ 100) by lra;
    autorewrite with num_eval; f_equal; split_reals; lra.
Qed.

Lemma calculateHandednessIndex_at_reference :
  (calculateHandednessIndex data).(value) = Fin 0
  ∧ (calculateHandednessIndex data).(percentile) = Fin 50.
Proof.
  destruct Hdata as (_ & _ & HLBA & HRBA).
  unfold calculateHandednessIndex. cbv zeta.
  destruct (lhBA data) as [lhBAMap|], (rhBA data) as [rhBAMap|]; try done.
  cbn [from_option] in HLBA, HRBA.
  match goal with
  | |- context [forAvailable cfg_name lhBAMap rhBAMap ?body ?cfgs ?init] =>
      destruct (weighted_loop_at_reference lhBAMap rhBAMap HLBA HRBA
                  cfg_name body cfgs init) as (W & HW & Hpos);
      [by exists 0
      |intros cfg ref l r W ds Hcfg Href Hl Hr Hlf Hrf HW;
       rewrite (foldZScores_at_reference _ _ _ Hlf Hrf);
       at_means Href Hl Hr;
       each_config Hcfg; cbn [cfg_weight wThick wArea wThird regionConfig];
       weighted_step
      |destruct (forAvailable cfg_name lhBAMap rhBAMap body cfgs init)
         as [[total weight] ds]]
  end.
  cbn [fst] in HW. injection HW as -> ->. cbn [value percentile].
  rewrite gtb_Fin.
  destruct (bool_decide (0 < W)) eqn:Hgt;
    [apply bool_decide_eq_true in Hgt; rewrite zero_over_weight by done|];
    by rewrite round_scaled_zero, zToPercentile_zero by lra.
Qed.

Lemma calculatePreferredNostrilIndex_at_reference :
  (calculatePreferredNostrilIndex data).(value) = Fin 0
  ∧ (calculatePreferredNostrilIndex data).(percentile) = Fin 50.
Proof.
  destruct Hdata as (HL & HR & _).
  unfold calculatePreferredNostrilIndex. cbv zeta.
  match goal with
  | |- context [forAvailable ?n (lh data) (rh data) ?body ?cfgs ?init] =>
      pose proof (forAvailable_ind n (lh data) (rh data) body
        (λ acc : num * list RegionDetail, acc.1 = Fin 0) cfgs init) as Hind;
      destruct (forAvailable n (lh data) (rh data) body cfgs init)
        as [rawScore ds]
  end.
  cbn [fst] in Hind.
  assert (Hraw : rawScore = Fin 0).
  { apply Hind; [done|].
    intros cfg ref l r [total ds'] Hcfg (Href & Hl & Hr)%available_Some_inv.
    cbn [fst]. intros ->.
    destruct (HL _ _ _ Href Hl) as [Hlm _].
    destruct (HR _ _ _ Href Hr) as [Hrm _].
    apply REFERENCE_DATA_MALE_valid in Href.
    rewrite !compositeZScore_at_reference by done.
    each_config Hcfg; cbn [snd]; num_eval; f_equal; lra. }
  subst rawScore.
  cbn [value percentile]. rewrite toFixed3_zero. num_eval.
  rewrite (Math_round_Fin _ 50) by lra. autorewrite with num_eval.
  split; [done|]. f_equal. split_reals. lra.
Qed.

Lemma calculateLanguageOutputLateralization_at_reference :
  (calculateLanguageOutputLateralization data).(value) = Fin 0
  ∧ (calculateLanguageOutputLateralization data).(percentile) = Fin 50.
Proof.
  destruct Hdata as (_ & _ & HLBA & HRBA).
  unfold calculateLanguageOutputLateralization. cbv zeta.
  destruct (lhBA data) as [lhBAMap|], (rhBA data) as [rhBAMap|]; try done.
  cbn [from_option] in HLBA, HRBA.
  match goal with
  | |- context [forAvailable cfg_name lhBAMap rhBAMap ?body ?cfgs ?init] =>
      pose proof (contribution_loop_at_reference lhBAMap rhBAMap HLBA HRBA
                    cfg_name body cfgs init) as Hloop;
      destruct (forAvailable cfg_name lhBAMap rhBAMap body cfgs init)
        as [[[sL sR] s] ds]
  end.
  cbn [fst] in Hloop.
  assert (Hsums : (sL, sR) = (Fin 0, Fin 0)).
  { apply Hloop; [done|].
    intros cfg ref l r s0 ds0 Hcfg Href Hl Hr Hlf Hrf.
    rewrite (foldZScores_at_reference _ _ _ Hlf Hrf).
    at_means Href Hl Hr.
    each_config Hcfg; cbn [cfg_weight wThick wArea wThird regionConfig fst];
      autorewrite with num_eval; f_equal; f_equal; lra. }
  injection Hsums as -> ->.
  cbn [value percentile]. rewrite lateralizationRatio_zero.
  by rewrite toFixed3_zero, languageOutputPercentile_zero.
Qed.

Lemma calculateLanguageInputLateralization_at_reference :
  (calculateLanguageInputLateralization data).(value) = Fin 0
  ∧ (calculateLanguageInputLateralization data).(percentile) = Fin 50.
Proof.
  destruct Hdata as (HL & HR & _).
  unfold calculateLanguageInputLateralization. cbv zeta.
  match goal with
  | |- context [forAvailable cfg_name (lh data) (rh data) ?body ?cfgs ?init] =>
      pose proof (contribution_loop_at_reference (lh data) (rh data) HL HR
                    cfg_name body cfgs init) as Hloop;
      destruct (forAvailable cfg_name (lh data) (rh data) body cfgs init)
        as [[[sL sR] s] ds]
  end.
  cbn [fst] in Hloop.
  assert (Hsums : (sL, sR) = (Fin 0, Fin 0)).
  { apply Hloop; [done|].
    intros cfg ref l r s0 ds0 Hcfg Href Hl Hr _ _.
    at_means Href Hl Hr. unfold DKT_LANGUAGE_INPUT_REGIONS in Hcfg.
    each_config Hcfg; cbn [cfg_weight wThick wArea wThird regionConfig fst];
      autorewrite with num_eval; f_equal; f_equal; lra. }
  injection Hsums as -> ->.
  cbn [value percentile]. rewrite lateralizationRatio_zero.
  by rewrite toFixed3_zero, languageInputPercentile_zero.
Qed.

Lemma calculateLanguageLateralizationIndex_at_reference :
  (calculateLanguageLateralizationIndex data).(value) = Fin 0
  ∧ (calculateLanguageLateralizationIndex data).(percentile) = Fin 50.
Proof.
  destruct calculateLanguageOutputLateralization_at_reference as [Hov _].
  destruct calculateLanguageInputLateralization_at_reference as [Hiv _].
  unfold calculateLanguageLateralizationIndex.
  cbv zeta. cbn [value percentile].
  rewrite Hov, Hiv. autorewrite with num_eval.
  replace (0 * 0.6 + 0 * 0.4) with 0 by lra.
  rewrite toFixed3_zero. num_eval. split; [done|].
  apply Math_round_Fin. split_reals. lra.
Qed.

End AtReferenceCalculators.

(** X15.  A subject at the reference means scores neutral everywhere:
    when every measured region that has a reference entry equals the
    reference means in thickness, surface area and volume (and in the
    folding index where it is used), each index returns value 0 and
    percentile 50, and the Parietal IQ Prediction returns 100 and
    percentile 50; regions may be missing. *)
Theorem reference_subject_scores_neutral (data : DKTData) :
  dataAtReference data →
  Forall (λ res : IndexResult,
            res.(value) = Fin 0 ∧ res.(percentile) = Fin 50)
    [calculateOlfactoryIndex data; calculateLanguageIndex data;
     calculateReadingIndex data; calculateEmpathyIndex data;
     calculateExecutiveIndex data; calculateSpatialIndex data;
     calculateFluidIntelligenceIndex data;
     calculateHandednessIndex data; calculateDominantEyeIndex data;
     calculatePreferredNostrilIndex data;
     calculateLanguageOutputLateralization data;
     calculateLanguageInputLateralization data;
     calculateLanguageLateralizationIndex data]
  ∧ (calculateParietalIQIndex data).(value) = Fin 100
  ∧ (calculateParietalIQIndex data).(percentile) = Fin 50.
Proof.
  intros Hdata. split.
  - repeat apply Forall_cons_2; try apply Forall_nil_2.
    + by apply calculateOlfactoryIndex_at_reference.
    + by apply calculateLanguageIndex_at_reference.
    + by apply calculateReadingIndex_at_reference.
    + by apply calculateEmpathyIndex_at_reference.
    + by apply calculateExecutiveIndex_at_reference.
    + by apply calculateSpatialIndex_at_reference.
    + by apply calculateFluidIntelligenceIndex_at_reference.
    + by apply calculateHandednessIndex_at_reference.
    + by apply calculateDominantEyeIndex_at_reference.
    + by apply calculatePreferredNostrilIndex_at_reference.
    + by apply calculateLanguageOutputLateralization_at_reference.
    + by apply calculateLanguageInputLateralization_at_reference.
    + by apply calculateLanguageLateralizationIndex_at_reference.
  - by apply calculateParietalIQIndex_at_reference.
Qed.

Lemma reference_subject_scores_neutral_witness :
  Forall (λ res : IndexResult,
            res.(value) = Fin 0 ∧ res.(percentile) = Fin 50)
    [calculateOlfactoryIndex referenceData;
     calculateLanguageIndex referenceData;
     calculateReadingIndex referenceData;
     calculateEmpathyIndex referenceData;
     calculateExecutiveIndex referenceData;
     calculateSpatialIndex referenceData;
     calculateFluidIntelligenceIndex referenceData;
     calculateHandednessIndex referenceData;
     calculateDominantEyeIndex referenceData;
     calculatePreferredNostrilIndex referenceData;
     calculateLanguageOutputLateralization referenceData;
     calculateLanguageInputLateralization referenceData;
     calculateLanguageLateralizationIndex referenceData]
  ∧ (calculateParietalIQIndex referenceData).(value) = Fin 100
  ∧ (calculateParietalIQIndex referenceData).(percentile) = Fin 50.
Proof.
  apply (reference_subject_scores_neutral referenceData).
  apply dataAtReference_referenceData.
Defined.

(** ** Percentile bands above the lowest band *)

Section BandMonotone.
#[local] Open Scope R_scope.

Lemma Zfloor_monotone (x y : R) : x <= y → (Zfloor x ≤ Zfloor y)%Z.
Proof.
  intros Hxy. pose proof (Zfloor_bound x) as [Hx _].
  apply Zfloor_lub. lra.
Qed.

(** [Math.round] is monotone. *)
Lemma Math_round_monotone (x y : R) :
  x <= y → (Math_round (Fin x) <=? Math_round (Fin y))%num = true.
Proof.
  intros Hxy. unfold Math_round.
  rewrite leb_Fin. apply bool_decide_eq_true. apply IZR_le.
  apply Zfloor_monotone. lra.
Qed.

Lemma languageOutputPercentile_monotone (a b : R) :
  -0.25 <= a → a <= b →
  (languageOutputPercentile (Fin a) <=? languageOutputPercentile (Fin b))%num
  = true.
Proof.
  intros Ha Hab. unfold languageOutputPercentile. cbv zeta.
  rewrite !geb_Fin.
  rewrite (bool_decide_eq_true_2 (-0.25 <= a)) by done.
  rewrite (bool_decide_eq_true_2 (-0.25 <= b)) by lra.
  destruct (bool_decide (0.25 <= a)) eqn:Ha1,
           (bool_decide (0.10 <= a)) eqn:Ha2,
           (bool_decide (-0.10 <= a)) eqn:Ha3,
           (bool_decide (0.25 <= b)) eqn:Hb1,
           (bool_decide (0.10 <= b)) eqn:Hb2,
           (bool_decide (-0.10 <= b)) eqn:Hb3;
    rewrite ?bool_decide_eq_true, ?bool_decide_eq_false in *;
    try lra;
    autorewrite with num_eval; apply Math_round_monotone;
    unfold Rmax, Rmin; repeat destruct (Rle_dec _ _); lra.
Qed.

Lemma languageInputPercentile_monotone (a b : R) :
  -0.15 <= a → a <= b →
  (languageInputPercentile (Fin a) <=? languageInputPercentile (Fin b))%num
  = true.
Proof.
  intros Ha Hab. unfold languageInputPercentile. cbv zeta.
  rewrite !geb_Fin.
  rewrite (bool_decide_eq_true_2 (-0.15 <= a)) by done.
  rewrite (bool_decide_eq_true_2 (-0.15 <= b)) by lra.
  destruct (bool_decide (0.20 <= a)) eqn:Ha1,
           (bool_decide (0.05 <= a)) eqn:Ha2,
           (bool_decide (-0.05 <= a)) eqn:Ha3,
           (bool_decide (0.20 <= b)) eqn:Hb1,
           (bool_decide (0.05 <= b)) eqn:Hb2,
           (bool_decide (-0.05 <= b)) eqn:Hb3;
    rewrite ?bool_decide_eq_true, ?bool_decide_eq_false in *;
    try lra;
    autorewrite with num_eval; apply Math_round_monotone;
    unfold Rmax, Rmin; repeat destruct (Rle_dec _ _); lra.
Qed.

End BandMonotone.

(** X16.  Above their lowest band the percentile bands are monotone: for
    ratios [a <= b] the Language Output percentile of [a] is at most that
    of [b] when [a >= -0.25], and the Language Input percentile of [a] is
    at most that of [b] when [a >= -0.15]. *)
Theorem language_percentile_bands_monotone (a b : R) :
  (a <= b)%R →
  ((-0.25 <= a)%R →
   (languageOutputPercentile (Fin a) <=? languageOutputPercentile (Fin b))
   = true)
  ∧ ((-0.15 <= a)%R →
     (languageInputPercentile (Fin a) <=? languageInputPercentile (Fin b))
     = true).
Proof.
  intros Hab. split; intros Ha.
  - by apply languageOutputPercentile_monotone.
  - by apply languageInputPercentile_monotone.
Qed.

Lemma language_percentile_bands_monotone_witness :
  (languageOutputPercentile (Fin 0) <=? languageOutputPercentile (Fin 0.3))
  = true
  ∧ (languageInputPercentile (Fin 0) <=? languageInputPercentile (Fin 0.3))
    = true.
Proof.
  destruct (language_percentile_bands_monotone 0 0.3) as [Hout Hin];
    [lra|].
  split; [apply Hout|apply Hin]; lra.
Defined.

(** ** Finite measurements give finite results *)

Section FiniteResults.
#[local] Open Scope R_scope.

Lemma isFinite_Math_round (x : R) : isFinite (Math_round (Fin x)) = true.
Proof. done. Qed.

Lemma isFinite_toFixed3 (x : R) : isFinite (toFixed3 (Fin x)) = true.
Proof. unfold toFixed3. by repeat case_decide. Qed.

Lemma isFinite_round_scaled (x k : R) :
  k ≠ 0 → isFinite (Math_round (Fin x * Fin k) / Fin k)%num = true.
Proof.
  intros Hk. rewrite mul_Fin. unfold Math_round. by rewrite div_Fin.
Qed.

Lemma isFinite_zToPercentile (z : R) : isFinite (zToPercentile (Fin z)) = true.
Proof. by rewrite zToPercentile_Fin. Qed.

Lemma isFinite_languageOutputPercentile (li : R) :
  isFinite (languageOutputPercentile (Fin li)) = true.
Proof.
  unfold languageOutputPercentile. cbv zeta. rewrite !geb_Fin.
  repeat case_bool_decide; by autorewrite with num_eval.
Qed.

Lemma isFinite_languageInputPercentile (li : R) :
  isFinite (languageInputPercentile (Fin li)) = true.
Proof.
  unfold languageInputPercentile. cbv zeta. rewrite !geb_Fin.
  repeat case_bool_decide; by autorewrite with num_eval.
Qed.

Context (lhMap rhMap : gmap string DKTRegionData).
Hypothesis HL : finiteRegions lhMap.
Hypothesis HR : finiteRegions rhMap.

(** A loop whose state begins with finite numbers keeps them finite when
    its body does, on finite measurements against a valid reference. *)
Lemma forAvailable_finite {C S : Type} (nameOf : C → string)
    (body : C → RefEntry → DKTRegionData → DKTRegionData → S → S)
    (P : S → Prop) (configs : list C) (init : S) :
  P init →
  (∀ cfg ref l r acc,
     cfg ∈ configs → validRef ref → finiteRegion l → finiteRegion r →
     P acc → P (body cfg ref l r acc)) →
  P (forAvailable nameOf lhMap rhMap body configs init).
Proof.
  intros Hinit Hstep. apply forAvailable_ind; [done|].
  intros cfg ref l r acc Hcfg (Href & Hl & Hr)%available_Some_inv Hacc.
  apply Hstep.
  - exact Hcfg.
  - exact (REFERENCE_DATA_MALE_valid (nameOf cfg) ref Href).
  - exact (HL (nameOf cfg) l Hl).
  - exact (HR (nameOf cfg) r Hr).
  - exact Hacc.
Qed.

Lemma blendBody_loop_finite (a b c : R)
    (blend cL cR : num → num → num)
    (regionWeights : list (string * num)) (dets : list RegionDetail) :
  (∀ x y, ∃ z, blend (Fin x) (Fin y) = Fin z) →
  Forall (λ cfg, ∃ w : R, cfg.2 = Fin w) regionWeights →
  ∃ t, (forAvailable fst lhMap rhMap
          (blendBody (Fin a, Fin b, Fin c) blend cL cR)
          regionWeights (Fin 0, dets)).1 = Fin t.
Proof.
  intros Hblend Hweights.
  apply (forAvailable_finite fst _
           (λ acc : num * list RegionDetail, ∃ t, acc.1 = Fin t));
    [by exists 0|].
  intros [n wt] ref l r [total ds] Hcfg Href Hl Hr [t Ht].
  cbn [fst] in Ht. subst total. cbn [fst blendBody].
  destruct (proj1 (Forall_forall _ _) Hweights _ Hcfg) as [w Hw].
  cbn [snd] in Hw. subst wt.
  destruct (compositeZScore_finite l ref a b c Href Hl) as [zl ->].
  destruct (compositeZScore_finite r ref a b c Href Hr) as [zr ->].
  destruct (Hblend zl zr) as [z ->].
  autorewrite with num_eval. by eexists.
Qed.

End FiniteResults.

(** The z-scores written out in a loop body, on finite measurements. *)
Ltac finite_quotient Hx Hm :=
  let z := fresh "z" in let Hz := fresh "Hz" in
  destruct (zScore_inline_finite _ _ Hx Hm) as [z Hz]; rewrite ?Hz.

Ltac finite_z Href Hl Hr :=
  let Ht := fresh "Ht" in let Ha := fresh "Ha" in let Hv := fresh "Hv" in
  let Hlt := fresh "Hlt" in let Hla := fresh "Hla" in
  let Hlv := fresh "Hlv" in let Hrt := fresh "Hrt" in
  let Hra := fresh "Hra" in let Hrv := fresh "Hrv" in
  destruct Href as (Ht & Ha & Hv);
  destruct Hl as (Hlt & Hla & Hlv & _); destruct Hr as (Hrt & Hra & Hrv & _);
  finite_quotient Hlt Ht; finite_quotient Hla Ha; finite_quotient Hlv Hv;
  finite_quotient Hrt Ht; finite_quotient Hra Ha; finite_quotient Hrv Hv.

Section FiniteCalculators.
#[local] Open Scope R_scope.

Variable data : DKTData.
Hypothesis Hdata : finiteData data.

Ltac finite_weights :=
  repeat (apply Forall_cons_2; [by eexists|]); apply Forall_nil_2.

Ltac blend_finite :=
  destruct Hdata as (HL & HR & _); cbv zeta;
  match goal with
  | |- context [forAvailable fst ?l ?r
                  (blendBody (Fin ?a, Fin ?b, Fin ?c) ?blend ?cL ?cR)
                  ?cfgs (Fin 0, ?ds)] =>
      let Hloop := fresh "Hloop" in
      destruct (blendBody_loop_finite l r HL HR a b c blend cL cR cfgs ds)
        as [t Hloop];
      [intros x y; autorewrite with num_eval; divide_reals; by eexists
      |finite_weights
      |destruct (forAvailable fst l r
                   (blendBody (Fin a, Fin b, Fin c) blend cL cR) cfgs
                   (Fin 0, ds)) as [total dets];
       cbn [fst] in Hloop; subst total]
  end;
  cbn [value percentile];
  by rewrite isFinite_round_scaled, isFinite_zToPercentile by lra.

Lemma calculateOlfactoryIndex_finite :
  isFinite (calculateOlfactoryIndex data).(value) = true
  ∧ isFinite (calculateOlfactoryIndex data).(percentile) = true.
Proof. unfold calculateOlfactoryIndex. blend_finite. Qed.

Lemma calculateReadingIndex_finite :
  isFinite (calculateReadingIndex data).(value) = true
  ∧ isFinite (calculateReadingIndex data).(percentile) = true.
Proof. unfold calculateReadingIndex. blend_finite. Qed.

Lemma calculateEmpathyIndex_finite :
  isFinite (calculateEmpathyIndex data).(value) = true
  ∧ isFinite (calculateEmpathyIndex data).(percentile) = true.
Proof. unfold calculateEmpathyIndex. blend_finite. Qed.

Lemma calculateExecutiveIndex_finite :
  isFinite (calculateExecutiveIndex data).(value) = true
  ∧ isFinite (calculateExecutiveIndex data).(percentile) = true.
Proof. unfold calculateExecutiveIndex. blend_finite. Qed.

Lemma calculateSpatialIndex_finite :
  isFinite (calculateSpatialIndex data).(value) = true
  ∧ isFinite (calculateSpatialIndex data).(percentile) = true.
Proof. unfold calculateSpatialIndex. blend_finite. Qed.

Lemma calculateFluidIntelligenceIndex_finite :
  isFinite (calculateFluidIntelligenceIndex data).(value) = true
  ∧ isFinite (calculateFluidIntelligenceIndex data).(percentile) = true.
Proof. unfold calculateFluidIntelligenceIndex. blend_finite. Qed.

Lemma calculateDominantEyeIndex_finite :
  isFinite (calculateDominantEyeIndex data).(value) = true
  ∧ isFinite (calculateDominantEyeIndex data).(percentile) = true.
Proof. unfold calculateDominantEyeIndex. blend_finite. Qed.

(** A step of a loop with a total index and a total weight. *)
Ltac finite_weighted_step :=
  cbn [fst snd]; num_eval;
  match goal with
  | |- ∃ t' W', (Fin ?t, Fin ?w) = _ ∧ _ =>
      exists t, w; split; [reflexivity | lra]
  end.

Lemma calculateLanguageIndex_finite :
  isFinite (calculateLanguageIndex data).(value) = true
  ∧ isFinite (calculateLanguageIndex data).(percentile) = true.
Proof.
  destruct Hdata as (HL & HR & HLBA & HRBA).
  unfold calculateLanguageIndex. cbv zeta.
  match goal with
  | |- context [forAvailable fst (lh data) (rh data) ?body ?cfgs ?init] =>
      destruct (forAvailable_finite (lh data) (rh data) HL HR fst body
                  (λ acc, ∃ t W, acc.1 = (Fin t, Fin W) ∧ 0 <= W)
                  cfgs init) as (t & W & HW & Hpos);
      [exists 0, 0; split; [done|lra]
      |intros cfg ref l r [[ti tw] ds] Hcfg Href Hl Hr (t & W & HW & Hpos);
       cbn [fst] in HW; injection HW as -> ->;
       destruct (compositeZScore_finite l ref 45 30 25 Href Hl) as [zl Hzl];
       destruct (compositeZScore_finite r ref 45 30 25 Href Hr) as [zr Hzr];
       each_config Hcfg; rewrite Hzl, Hzr; finite_weighted_step
      |destruct (forAvailable fst (lh data) (rh data) body cfgs init)
         as [[total weight] ds]]
  end.
  cbn [fst] in HW. injection HW as -> ->.
  assert (Hfinal : ∀ t' W' ds',
            let totalIndex :=
              if ((Fin W' >? Fin 0) && (Fin W' <? Fin 1))%num
              then (Fin t' / Fin W')%num else Fin t' in
            isFinite
              (value {| name := "Language Composite Index";
                        value := (Math_round (totalIndex * Fin 100)
                                  / Fin 100)%num;
                        percentile := zToPercentile totalIndex;
                        zScore_field := None; details := ds' |}) = true
            ∧ isFinite
                (percentile {| name := "Language Composite Index";
                        value := (Math_round (totalIndex * Fin 100)
                                  / Fin 100)%num;
                        percentile := zToPercentile totalIndex;
                        zScore_field := None; details := ds' |}) = true).
  { intros t' W' ds'. cbv zeta. cbn [value percentile].
    rewrite gtb_Fin, ltb_Fin.
    destruct (bool_decide (0 < W')) eqn:Hgt;
      [apply bool_decide_eq_true in Hgt; rewrite div_Fin by lra|];
      destruct (bool_decide (W' < 1)); cbn [andb];
      by rewrite isFinite_round_scaled, isFinite_zToPercentile by lra. }
  destruct (lhBA data) as [lhBAMap|], (rhBA data) as [rhBAMap|];
    try by apply Hfinal.
  cbn [from_option] in HLBA, HRBA.
  match goal with
  | |- context [forAvailable fst lhBAMap rhBAMap ?body ?cfgs ?init] =>
      destruct (forAvailable_finite lhBAMap rhBAMap HLBA HRBA fst body
                  (λ acc, ∃ t W, acc.1 = (Fin t, Fin W) ∧ 0 <= W)
                  cfgs init) as (t' & W' & HW' & Hpos');
      [by exists t, W
      |intros cfg ref l r [[ti tw] ds0] Hcfg Href Hl Hr
         (t0 & W0 & HW0 & Hpos0);
       cbn [fst] in HW0; injection HW0 as -> ->;
       destruct (compositeZScore_finite l ref 45 30 25 Href Hl) as [zl Hzl];
       destruct (compositeZScore_finite r ref 45 30 25 Href Hr) as [zr Hzr];
       each_config Hcfg; rewrite Hzl, Hzr; finite_weighted_step
      |destruct (forAvailable fst lhBAMap rhBAMap body cfgs init)
         as [[total weight] ds']]
  end.
  cbn [fst] in HW'. injection HW' as -> ->. by apply Hfinal.
Qed.

Lemma calculateParietalIQIndex_finite :
  isFinite (calculateParietalIQIndex data).(value) = true
  ∧ isFinite (calculateParietalIQIndex data).(percentile) = true.
Proof.
  destruct Hdata as (HL & HR & _).
  unfold calculateParietalIQIndex. cbv zeta.
  match goal with
  | |- context [forAvailable cfg_name (lh data) (rh data) ?body ?cfgs ?init] =>
      destruct (forAvailable_finite (lh data) (rh data) HL HR cfg_name body
                  (λ acc, ∃ t W, acc.1 = (Fin t, Fin W) ∧ 0 <= W)
                  cfgs init) as (t & W & HW & Hpos);
      [exists 0, 0; split; [done|lra]
      |intros cfg ref l r [[ti tw] ds] Hcfg Href Hl Hr (t & W & HW & Hpos);
       cbn [fst] in HW; injection HW as -> ->;
       finite_z Href Hl Hr;
       each_config Hcfg; cbn [cfg_weight wThick wArea wThird regionConfig];
       finite_weighted_step
      |destruct (forAvailable cfg_name (lh data) (rh data) body cfgs init)
         as [[total weight] ds]]
  end.
  cbn [fst] in HW. injection HW as -> ->. cbn [value percentile].
  rewrite gtb_Fin.
  destruct (bool_decide (0 < W)) eqn:Hgt;
    [apply bool_decide_eq_true in Hgt; rewrite div_Fin by lra|];
    rewrite isFinite_zToPercentile; (split; [|done]);
    autorewrite with num_eval; unfold Math_round;
    by autorewrite with num_eval.
Qed.

Lemma calculateHandednessIndex_finite :
  isFinite (calculateHandednessIndex data).(value) = true
  ∧ isFinite (calculateHandednessIndex data).(percentile) = true.
Proof.
  destruct Hdata as (_ & _ & HLBA & HRBA).
  unfold calculateHandednessIndex. cbv zeta.
  destruct (lhBA data) as [lhBAMap|], (rhBA data) as [rhBAMap|]; try done.
  cbn [from_option] in HLBA, HRBA.
  match goal with
  | |- context [forAvailable cfg_name lhBAMap rhBAMap ?body ?cfgs ?init] =>
      destruct (forAvailable_finite lhBAMap rhBAMap HLBA HRBA cfg_name body
                  (λ acc, ∃ t W, acc.1 = (Fin t, Fin W) ∧ 0 <= W)
                  cfgs init) as (t & W & HW & Hpos);
      [exists 0, 0; split; [done|lra]
      |intros cfg ref l r [[ti tw] ds] Hcfg Href Hl Hr (t & W & HW & Hpos);
       cbn [fst] in HW; injection HW as -> ->;
       destruct (foldZScores_finite cfg.(cfg_name) l r Hl Hr)
         as (fL & fR & ->);
       finite_z Href Hl Hr;
       each_config Hcfg; cbn [cfg_weight wThick wArea wThird regionConfig];
       finite_weighted_step
      |destruct (forAvailable cfg_name lhBAMap rhBAMap body cfgs init)
         as [[total weight] ds]]
  end.
  cbn [fst] in HW. injection HW as -> ->. cbn [value percentile].
  rewrite gtb_Fin.
  destruct (bool_decide (0 < W)) eqn:Hgt;
    [apply bool_decide_eq_true in Hgt; rewrite div_Fin by lra|];
    by rewrite isFinite_round_scaled, isFinite_zToPercentile by lra.
Qed.

Lemma calculatePreferredNostrilIndex_finite :
  isFinite (calculatePreferredNostrilIndex data).(value) = true
  ∧ isFinite (calculatePreferredNostrilIndex data).(percentile) = true.
Proof.
  destruct Hdata as (HL & HR & _).
  unfold calculatePreferredNostrilIndex. cbv zeta.
  match goal with
  | |- context [forAvailable ?n (lh data) (rh data) ?body ?cfgs ?init] =>
      destruct (forAvailable_finite (lh data) (rh data) HL HR n body
                  (λ acc, ∃ t, acc.1 = Fin t) cfgs init) as (t & Ht);
      [by exists 0
      |intros cfg ref l r [total ds] Hcfg Href Hl Hr [t Ht];
       cbn [fst] in Ht; subst total;
       destruct (compositeZScore_finite l ref 70 20 10 Href Hl) as [zl Hzl];
       destruct (compositeZScore_finite r ref 70 20 10 Href Hr) as [zr Hzr];
       rewrite Hzl, Hzr;
       each_config Hcfg; cbn [fst snd]; autorewrite with num_eval;
       by eexists
      |destruct (forAvailable n (lh data) (rh data) body cfgs init)
         as [rawScore ds]]
  end.
  cbn [fst] in Ht. subst rawScore. cbn [value percentile].
  rewrite isFinite_toFixed3. split; [done|].
  rewrite geb_Fin. case_bool_decide; autorewrite with num_eval;
    unfold Math_round; by autorewrite with num_eval.
Qed.

Lemma calculateLanguageOutputLateralization_finite :
  isFinite (calculateLanguageOutputLateralization data).(value) = true
  ∧ isFinite (calculateLanguageOutputLateralization data).(percentile) = true.
Proof.
  destruct Hdata as (_ & _ & HLBA & HRBA).
  unfold calculateLanguageOutputLateralization. cbv zeta.
  destruct (lhBA data) as [lhBAMap|], (rhBA data) as [rhBAMap|]; try done.
  cbn [from_option] in HLBA, HRBA.
  match goal with
  | |- context [forAvailable cfg_name lhBAMap rhBAMap ?body ?cfgs ?init] =>
      destruct (forAvailable_finite lhBAMap rhBAMap HLBA HRBA cfg_name body
                  (λ acc, ∃ a b, acc.1.1 = (Fin a, Fin b))
                  cfgs init) as (a & b & Hab);
      [by exists 0, 0
      |intros cfg ref l r [[[sL sR] s] ds] Hcfg Href Hl Hr (a & b & Hab);
       cbn [fst] in Hab; injection Hab as -> ->;
       destruct (foldZScores_finite cfg.(cfg_name) l r Hl Hr)
         as (fL & fR & ->);
       finite_z Href Hl Hr;
       each_config Hcfg; cbn [cfg_weight wThick wArea wThird regionConfig fst];
       autorewrite with num_eval; by eexists _, _
      |destruct (forAvailable cfg_name lhBAMap rhBAMap body cfgs init)
         as [[[sL sR] s] ds]]
  end.
  cbn [fst] in Hab. injection Hab as -> ->. cbn [value percentile].
  destruct (lateralizationRatio_bounds a b) as [-> _].
  by rewrite isFinite_toFixed3, isFinite_languageOutputPercentile.
Qed.

Lemma calculateLanguageInputLateralization_finite :
  isFinite (calculateLanguageInputLateralization data).(value) = true
  ∧ isFinite (calculateLanguageInputLateralization data).(percentile) = true.
Proof.
  destruct Hdata as (HL & HR & _).
  unfold calculateLanguageInputLateralization. cbv zeta.
  match goal with
  | |- context [forAvailable cfg_name (lh data) (rh data) ?body ?cfgs ?init] =>
      destruct (forAvailable_finite (lh data) (rh data) HL HR cfg_name body
                  (λ acc, ∃ a b, acc.1.1 = (Fin a, Fin b))
                  cfgs init) as (a & b & Hab);
      [by exists 0, 0
      |intros cfg ref l r [[[sL sR] s] ds] Hcfg Href Hl Hr (a & b & Hab);
       cbn [fst] in Hab; injection Hab as -> ->;
       finite_z Href Hl Hr;
       unfold DKT_LANGUAGE_INPUT_REGIONS in Hcfg;
       each_config Hcfg; cbn [cfg_weight wThick wArea wThird regionConfig fst];
       autorewrite with num_eval; by eexists _, _
      |destruct (forAvailable cfg_name (lh data) (rh data) body cfgs init)
         as [[[sL sR] s] ds]]
  end.
  cbn [fst] in Hab. injection Hab as -> ->. cbn [value percentile].
  destruct (lateralizationRatio_bounds a b) as [-> _].
  by rewrite isFinite_toFixed3, isFinite_languageInputPercentile.
Qed.

Lemma calculateLanguageLateralizationIndex_finite :
  isFinite (calculateLanguageLateralizationIndex data).(value) = true
  ∧ isFinite (calculateLanguageLateralizationIndex data).(percentile) = true.
Proof.
  destruct calculateLanguageOutputLateralization_finite
    as [[x Hx]%isFinite_Fin _].
  destruct calculateLanguageInputLateralization_finite
    as [[y Hy]%isFinite_Fin _].
  unfold calculateLanguageLateralizationIndex.
  cbv zeta. cbn [value percentile]. rewrite Hx, Hy.
  autorewrite with num_eval. rewrite isFinite_toFixed3. split; [done|].
  repeat case_bool_decide; by autorewrite with num_eval.
Qed.

End FiniteCalculators.

(** X17.  Measurements of moderate size give finite results: when every
    number of the dataset is finite and of magnitude at most one hundred
    thousand, the value and the percentile of every index are finite
    numbers.  The divisions by the total weight are guarded and the
    reference deviations are positive, so no [NaN] or infinity arises. *)
Theorem moderate_measurements_finite_results (data : DKTData) :
  moderateData data →
  Forall (λ res : IndexResult,
            isFinite res.(value) = true ∧ isFinite res.(percentile) = true)
    [calculateOlfactoryIndex data; calculateLanguageIndex data;
     calculateReadingIndex data; calculateEmpathyIndex data;
     calculateExecutiveIndex data; calculateSpatialIndex data;
     calculateFluidIntelligenceIndex data; calculateParietalIQIndex data;
     calculateHandednessIndex data; calculateDominantEyeIndex data;
     calculatePreferredNostrilIndex data;
     calculateLanguageOutputLateralization data;
     calculateLanguageInputLateralization data;
     calculateLanguageLateralizationIndex data].
Proof.
  intros Hdata%moderateData_finite.
  repeat apply Forall_cons_2; try apply Forall_nil_2.
  - by apply calculateOlfactoryIndex_finite.
  - by apply calculateLanguageIndex_finite.
  - by apply calculateReadingIndex_finite.
  - by apply calculateEmpathyIndex_finite.
  - by apply calculateExecutiveIndex_finite.
  - by apply calculateSpatialIndex_finite.
  - by apply calculateFluidIntelligenceIndex_finite.
  - by apply calculateParietalIQIndex_finite.
  - by apply calculateHandednessIndex_finite.
  - by apply calculateDominantEyeIndex_finite.
  - by apply calculatePreferredNostrilIndex_finite.
  - by apply calculateLanguageOutputLateralization_finite.
  - by apply calculateLanguageInputLateralization_finite.
  - by apply calculateLanguageLateralizationIndex_finite.
Qed.

Lemma moderate_measurements_finite_results_witness :
  Forall (λ res : IndexResult,
            isFinite res.(value) = true ∧ isFinite res.(percentile) = true)
    [calculateOlfactoryIndex superiorTemporalOnly;
     calculateLanguageIndex superiorTemporalOnly;
     calculateReadingIndex superiorTemporalOnly;
     calculateEmpathyIndex superiorTemporalOnly;
     calculateExecutiveIndex superiorTemporalOnly;
     calculateSpatialIndex superiorTemporalOnly;
     calculateFluidIntelligenceIndex superiorTemporalOnly;
     calculateParietalIQIndex superiorTemporalOnly;
     calculateHandednessIndex superiorTemporalOnly;
     calculateDominantEyeIndex superiorTemporalOnly;
     calculatePreferredNostrilIndex superiorTemporalOnly;
     calculateLanguageOutputLateralization superiorTemporalOnly;
     calculateLanguageInputLateralization superiorTemporalOnly;
     calculateLanguageLateralizationIndex superiorTemporalOnly].
Proof.
  apply (moderate_measurements_finite_results superiorTemporalOnly).
  apply moderateData_superiorTemporalOnly.
Defined.

Section CombinedRange.
#[local] Open Scope R_scope.

Lemma toFixed3_closed_unit_interval (c : R) :
  -1 <= c <= 1 → ∃ x, toFixed3 (Fin c) = Fin x ∧ -1 <= x <= 1.
Proof.
  intros Hc.
  destruct (Req_dec c 1) as [-> | Hne1].
  { exists 1. split; [|lra]. unfold toFixed3.
    rewrite Rabs_pos_eq by lra. decide_reals.
    rewrite (Zfloor_eq 1000) by lra. f_equal. lra. }
  destruct (Req_dec c (-1)) as [-> | Hne2].
  { exists (-1). split; [|lra]. unfold toFixed3.
    rewrite Rabs_left by lra. decide_reals.
    rewrite (Zfloor_eq 1000) by lra. f_equal. lra. }
  apply toFixed3_unit_interval. lra.
Qed.

End CombinedRange.

(** X18.  For a dataset whose measurements are finite and of magnitude
    at most one hundred thousand, the value of the combined Language
    Lateralization index, the three-decimal rounding of 0.6 times the
    output value plus 0.4 times the input value, is a number between -1
    and 1. *)
Theorem combined_lateralization_value_range (data : DKTData) :
  moderateData data →
  ∃ x : R, (calculateLanguageLateralizationIndex data).(value) = Fin x
           ∧ (-1 <= x <= 1)%R.
Proof.
  intros Hfinite%moderateData_finite.
  destruct (calculateLanguageOutputLateralization_rounded_ratio data Hfinite)
    as (_ & _ & _ & o & _ & _ & _ & _ & Ho & Hob).
  destruct (calculateLanguageInputLateralization_rounded_ratio data Hfinite)
    as (_ & _ & _ & i & _ & _ & _ & _ & Hi & Hib).
  unfold calculateLanguageLateralizationIndex. cbv zeta. cbn [value].
  rewrite Ho, Hi. autorewrite with num_eval.
  apply toFixed3_closed_unit_interval. lra.
Qed.

Lemma combined_lateralization_value_range_witness :
  ∃ x : R,
    (calculateLanguageLateralizationIndex superiorTemporalOnly).(value) = Fin x
    ∧ (-1 <= x <= 1)%R.
Proof.
  apply (combined_lateralization_value_range superiorTemporalOnly).
  apply moderateData_superiorTemporalOnly.
Defined.

(** ** Renormalized indices are weighted averages *)

(** Prove the first premise of [H] and specialize [H] to it. *)
Ltac feed H :=
  match type of H with
  | ?A → _ =>
      let Hp := fresh "Hp" in
      assert (Hp : A); [|specialize (H Hp); clear Hp]
  end.

Section PartialCoverage.
#[local] Open Scope R_scope.

Lemma REFERENCE_supramarginal :
  REFERENCE_DATA_MALE !! "supramarginal"
  = Some (refEntry (ms 2.60 0.17) (ms 3800 500) (ms 11500 1600)).
Proof. reflexivity. Qed.

Lemma deviatedPartialData_available (k : R) (regionName : string)
    (ref : RefEntry) :
  REFERENCE_DATA_MALE !! regionName = Some ref →
  regionName ≠ "fusiform" → regionName ≠ "precuneus" →
  is_Some (available (deviatedPartialData k).(lh) (deviatedPartialData k).(rh)
             regionName).
Proof.
  intros Href Hf Hp. unfold available, deviatedPartialData. cbn [lh rh].
  rewrite !lookup_delete_ne, lookup_fmap, Href by done. by eexists.
Qed.

Lemma deviatedPartialData_language_details (k : R) :
  (calculateLanguageIndex (deviatedPartialData k)).(details) ≠ [].
Proof.
  intros Hnil.
  pose proof (calculateLanguageIndex_regions (deviatedPartialData k)) as H.
  unfold detailRegions in H. rewrite Hnil in H.
  unfold availableNames, availableLabels in H. cbn [map omap list_omap] in H.
  destruct (deviatedPartialData_available k "superiortemporal" _
              REFERENCE_superiortemporal) as [x Hx]; [done..|].
  cbn [fst] in H. by rewrite Hx in H.
Qed.

Lemma deviatedPartialData_parietal_details (k : R) :
  (calculateParietalIQIndex (deviatedPartialData k)).(details) ≠ [].
Proof.
  intros Hnil.
  pose proof (calculateParietalIQIndex_regions (deviatedPartialData k)) as H.
  unfold detailRegions in H. rewrite Hnil in H.
  unfold availableNames, availableLabels in H. cbn [map omap list_omap] in H.
  destruct (deviatedPartialData_available k "supramarginal" _
              REFERENCE_supramarginal) as [x Hx]; [done..|].
  cbn [fst] in H. by rewrite Hx in H.
Qed.

End PartialCoverage.

Section WithinDeviations.
#[local] Open Scope R_scope.

Variables a b : R.

Lemma zScore_inline_within (m : MeanStd) (x : num) :
  positiveStd m → zWithin a b m x →
  ∃ z, ((x - m.(mean)) / m.(std))%num = Fin z ∧ a <= z <= b.
Proof.
  intros (mu & sigma & -> & Hpos) (mu' & sigma' & t & [= <- <-] & -> & Ht).
  cbn [mean std ms]. rewrite sub_Fin, div_Fin by lra.
  eexists. split; [reflexivity|].
  assert (Hz : (t - mu) / sigma * sigma = t - mu) by (field; lra).
  split; apply (Rmult_le_reg_r sigma); lra.
Qed.

Lemma compositeZScore_within (d : DKTRegionData) (ref : RefEntry)
    (wT wS wV : R) :
  validRef ref → withinDeviations a b ref d →
  0 <= wT → 0 <= wS → 0 <= wV → wT + wS + wV = 100 →
  ∃ z, compositeZScore d ref (Fin wT, Fin wS, Fin wV) = Fin z ∧ a <= z <= b.
Proof.
  intros (Ht & Ha & Hv) (Hdt & Hda & Hdv) HwT HwS HwV Hsum.
  unfold compositeZScore, zScore.
  destruct (zScore_inline_within _ _ Ht Hdt) as (zt & -> & Hzt).
  destruct (zScore_inline_within _ _ Ha Hda) as (zs & -> & Hzs).
  destruct (zScore_inline_within _ _ Hv Hdv) as (zv & -> & Hzv).
  cbn [fst snd]. num_eval. eexists. split; [reflexivity|].
  assert (a * (wT / 100) <= zt * (wT / 100) <= b * (wT / 100))
    by (split; apply Rmult_le_compat_r; lra).
  assert (a * (wS / 100) <= zs * (wS / 100) <= b * (wS / 100))
    by (split; apply Rmult_le_compat_r; lra).
  assert (a * (wV / 100) <= zv * (wV / 100) <= b * (wV / 100))
    by (split; apply Rmult_le_compat_r; lra).
  assert (a = a * (wT / 100) + a * (wS / 100) + a * (wV / 100))
    by (replace a with (a * ((wT + wS + wV) / 100)) at 1
          by (rewrite Hsum; lra); lra).
  assert (b = b * (wT / 100) + b * (wS / 100) + b * (wV / 100))
    by (replace b with (b * ((wT + wS + wV) / 100)) at 1
          by (rewrite Hsum; lra); lra).
  lra.
Qed.

(** [Math.round(x * 100) / 100] moves a number by at most 0.005. *)
Lemma round2_near (x : R) :
  ∃ v, round2 (Fin x) = Fin v ∧ x - 0.005 <= v <= x + 0.005.
Proof.
  unfold round2, Math_round. rewrite mul_Fin, div_Fin by lra.
  eexists. split; [reflexivity|].
  pose proof (Zfloor_bound (x * 100 + 1 / 2)). lra.
Qed.

Context (lhMap rhMap : gmap string DKTRegionData).
Hypothesis HL : regionsWithinDeviations a b lhMap.
Hypothesis HR : regionsWithinDeviations a b rhMap.

(** A loop that adds [weight × z] to the total index and [weight] to the
    total weight, with [z] between [a] and [b]: the total index stays
    between [a] and [b] times the total weight, the total weight is
    bounded by the weights of the list, and it is positive once a detail
    has been pushed. *)
Lemma renormalized_loop_within {C : Type} (nameOf : C → string)
    (wr : C → R)
    (body : C → RefEntry → DKTRegionData → DKTRegionData
            → num * num * list RegionDetail → num * num * list RegionDetail)
    (configs : list C) :
  (∀ cfg, cfg ∈ configs → 0 < wr cfg) →
  (∀ cfg ref l r T W ds,
     cfg ∈ configs → validRef ref →
     withinDeviations a b ref l → withinDeviations a b ref r →
     a * W <= T <= b * W →
     ∃ T' ds', body cfg ref l r (Fin T, Fin W, ds)
               = (Fin T', Fin (W + wr cfg), ds')
       ∧ a * (W + wr cfg) <= T' <= b * (W + wr cfg)) →
  ∀ (B : R) (init : num * num * list RegionDetail),
    (∃ T W, init.1 = (Fin T, Fin W) ∧ a * W <= T <= b * W
            ∧ 0 <= W <= B ∧ (init.2 ≠ [] → 0 < W)) →
    ∃ T W, (forAvailable nameOf lhMap rhMap body configs init).1
           = (Fin T, Fin W)
       ∧ a * W <= T <= b * W
       ∧ 0 <= W <= B + foldr Rplus 0 (map wr configs)
       ∧ ((forAvailable nameOf lhMap rhMap body configs init).2 ≠ []
          → 0 < W).
Proof.
  induction configs as [|cfg configs IH]; intros Hpos Hstep B init Hinit.
  - destruct Hinit as (T & W & HW & HT & Hb & Hne). exists T, W.
    rewrite forAvailable_nil. cbn [map foldr].
    split; [done|]. split; [done|]. split; [lra|done].
  - rewrite forAvailable_cons. cbn [map foldr].
    assert (Hw : 0 < wr cfg) by (apply Hpos; left).
    assert (Hpos' : ∀ c, c ∈ configs → 0 < wr c)
      by (intros c Hc; apply Hpos; by right).
    assert (Hstep' : ∀ c ref l r T W ds,
              c ∈ configs → validRef ref →
              withinDeviations a b ref l → withinDeviations a b ref r →
              a * W <= T <= b * W →
              ∃ T' ds', body c ref l r (Fin T, Fin W, ds)
                        = (Fin T', Fin (W + wr c), ds')
                ∧ a * (W + wr c) <= T' <= b * (W + wr c))
      by (intros c ref l r T W ds Hc; apply Hstep; by right).
    destruct (available lhMap rhMap (nameOf cfg)) as [[[ref l] r]|] eqn:Hav.
    + apply available_Some_inv in Hav as (Href & Hl & Hr).
      destruct Hinit as (T & W & HW & HT & Hb & Hne).
      destruct init as [[ti tw] ds]. cbn [fst] in HW. injection HW as -> ->.
      destruct (Hstep cfg ref l r T W ds) as (T' & ds' & -> & HT');
        [left|exact (REFERENCE_DATA_MALE_valid _ _ Href)
        |exact (HL _ _ _ Href Hl)|exact (HR _ _ _ Href Hr)|exact HT|].
      destruct (IH Hpos' Hstep' (B + wr cfg)
                  (Fin T', Fin (W + wr cfg), ds'))
        as (T2 & W2 & HW2 & HT2 & Hb2 & Hne2).
      { exists T', (W + wr cfg). cbn [fst snd].
        split; [done|]. split; [done|]. split; [lra|]. intros _. lra. }
      exists T2, W2. split; [done|]. split; [done|]. split; [lra|done].
    + destruct (IH Hpos' Hstep' B init Hinit)
        as (T2 & W2 & HW2 & HT2 & Hb2 & Hne2).
      exists T2, W2. split; [done|]. split; [done|]. split; [lra|done].
Qed.

End WithinDeviations.



Section WeightedAverages.
#[local] Open Scope R_scope.

Variable data : DKTData.
Variables a b : R.
Hypothesis Hdata : dataWithinDeviations a b data.

(** A step of the Language Composite loops: both composite z-scores lie
    between [a] and [b], and so does their blend. *)
Ltac language_step :=
  intros cfg ref l r acc accW accDetails Hcfg Href Hl Hr Hacc;
  destruct (compositeZScore_within a b l ref 45 30 25 Href Hl)
    as (zl & Hzl & Hzlb); [lra..|];
  destruct (compositeZScore_within a b r ref 45 30 25 Href Hr)
    as (zr & Hzr & Hzrb); [lra..|];
  each_config Hcfg; cbn [fst snd pairWeight]; rewrite Hzl, Hzr;
  autorewrite with num_eval; eexists _, _; (split; [reflexivity|lra]).

Lemma calculateLanguageIndex_within :
  (calculateLanguageIndex data).(details) ≠ [] →
  ∃ v, (calculateLanguageIndex data).(value) = Fin v
       ∧ a - 0.01 <= v <= b + 0.01.
Proof.
  destruct Hdata as (HL & HR & HLBA & HRBA).
  unfold calculateLanguageIndex. cbv zeta.
  match goal with
  | |- context [forAvailable fst (lh data) (rh data) ?body ?cfgs ?init] =>
      pose proof (renormalized_loop_within a b (lh data) (rh data) HL HR
                    fst pairWeight body cfgs) as Hloop;
      feed Hloop;
      [intros cfg Hcfg; each_config Hcfg; cbn; lra|];
      feed Hloop; [language_step|];
      destruct (Hloop 0 init) as (T & W & HW & HT & Hb & Hne);
      [exists 0, 0; cbn [fst snd]; split; [done|];
       split; [lra|]; split; [lra|done]|];
      clear Hloop;
      destruct (forAvailable fst (lh data) (rh data) body cfgs init)
        as [[total weight] ds]
  end.
  cbn [fst snd map foldr pairWeight] in HW, Hb, Hne.
  injection HW as -> ->.
  assert (Hfinal : ∀ T' W' ds',
            a * W' <= T' <= b * W' → 0 <= W' <= 1 →
            (ds' ≠ [] → 0 < W') → ds' ≠ [] →
            let totalIndex :=
              if ((Fin W' >? Fin 0) && (Fin W' <? Fin 1))%num
              then (Fin T' / Fin W')%num else Fin T' in
            ∃ v, value {| name := "Language Composite Index";
                          value := (Math_round (totalIndex * Fin 100)
                                    / Fin 100)%num;
                          percentile := zToPercentile totalIndex;
                          zScore_field := None; details := ds' |} = Fin v
                 ∧ a - 0.01 <= v <= b + 0.01).
  { intros T' W' ds' HT' HW' Hne' Hds. specialize (Hne' Hds).
    cbv zeta. cbn [value].
    rewrite gtb_Fin, ltb_Fin. rewrite bool_decide_eq_true_2 by done.
    cbn [andb].
    assert (Hz : ∃ z, (if bool_decide (W' < 1)
                       then (Fin T' / Fin W')%num else Fin T') = Fin z
                      ∧ a <= z <= b).
    { case_bool_decide as Hlt.
      - rewrite div_Fin by lra. eexists. split; [reflexivity|].
        assert (Hq : T' / W' * W' = T') by (field; lra).
        split; apply (Rmult_le_reg_r W'); lra.
      - assert (W' = 1) as -> by lra. exists T'. split; [done|lra]. }
    destruct Hz as (z & -> & Hz).
    fold (round2 (Fin z)). destruct (round2_near z) as (v & -> & Hv).
    exists v. split; [done|lra]. }
  destruct (lhBA data) as [lhBAMap|], (rhBA data) as [rhBAMap|];
    try (cbn [details]; intros Hds; apply Hfinal; [done|lra|done..]).
  cbn [from_option] in HLBA, HRBA.
  match goal with
  | |- context [forAvailable fst lhBAMap rhBAMap ?body ?cfgs ?init] =>
      pose proof (renormalized_loop_within a b lhBAMap rhBAMap HLBA HRBA
                    fst pairWeight body cfgs) as Hloop;
      feed Hloop;
      [intros cfg Hcfg; each_config Hcfg; cbn; lra|];
      feed Hloop; [language_step|];
      destruct (Hloop 0.7 init) as (T' & W' & HW' & HT' & Hb' & Hne');
      [exists T, W; cbn [fst snd]; split; [done|];
       split; [done|]; split; [lra|done]|];
      clear Hloop;
      destruct (forAvailable fst lhBAMap rhBAMap body cfgs init)
        as [[total weight] ds']
  end.
  cbn [fst snd map foldr pairWeight] in HW', Hb', Hne'.
  injection HW' as -> ->.
  cbn [details]. intros Hds. apply Hfinal; [done|lra|done..].
Qed.

Lemma calculateParietalIQIndex_within :
  (calculateParietalIQIndex data).(details) ≠ [] →
  ∃ z, (calculateParietalIQIndex data).(zScore_field) = Some (Fin z)
       ∧ a - 0.01 <= z <= b + 0.01.
Proof.
  destruct Hdata as (HL & HR & _).
  unfold calculateParietalIQIndex. cbv zeta.
  match goal with
  | |- context [forAvailable cfg_name (lh data) (rh data) ?body ?cfgs ?init] =>
      pose proof (renormalized_loop_within a b (lh data) (rh data) HL HR
                    cfg_name configWeight body cfgs) as Hloop;
      feed Hloop;
      [intros cfg Hcfg; each_config Hcfg; cbn; lra|];
      feed Hloop;
      [intros cfg ref l r T W ds Hcfg (Ht & Ha & Hv)
         (Hlt & Hla & Hlv) (Hrt & Hra & Hrv) HT;
       destruct (zScore_inline_within a b _ _ Ht Hlt) as (zlt & -> & ?);
       destruct (zScore_inline_within a b _ _ Ha Hla) as (zla & -> & ?);
       destruct (zScore_inline_within a b _ _ Hv Hlv) as (zlv & -> & ?);
       destruct (zScore_inline_within a b _ _ Ht Hrt) as (zrt & -> & ?);
       destruct (zScore_inline_within a b _ _ Ha Hra) as (zra & -> & ?);
       destruct (zScore_inline_within a b _ _ Hv Hrv) as (zrv & -> & ?);
       each_config Hcfg;
       cbn [cfg_weight wThick wArea wThird regionConfig configWeight];
       num_eval; eexists _, _; (split; [reflexivity|lra])|];
      destruct (Hloop 0 init) as (T & W & HW & HT & Hb & Hne);
      [exists 0, 0; cbn [fst snd]; split; [done|];
       split; [lra|]; split; [lra|done]|];
      clear Hloop;
      destruct (forAvailable cfg_name (lh data) (rh data) body cfgs init)
        as [[total weight] ds]
  end.
  cbn [fst snd] in HW, Hne. injection HW as -> ->.
  cbn [details zScore_field]. intros Hds. specialize (Hne Hds).
  rewrite gtb_Fin, bool_decide_eq_true_2 by done.
  rewrite div_Fin by lra.
  fold (round2 (Fin (T / W))). destruct (round2_near (T / W)) as (v & -> & Hv).
  exists v. split; [done|].
  assert (Hq : T / W * W = T) by (field; lra).
  assert (a <= T / W <= b) by (split; apply (Rmult_le_reg_r W); lra).
  lra.
Qed.

End WeightedAverages.

Section PartialCoverageWithin.
#[local] Open Scope R_scope.

Lemma regionsWithinDeviations_deviated (k : R) :
  regionsWithinDeviations k k (deviatedRegion k <$> REFERENCE_DATA_MALE).
Proof.
  intros regionName ref d Href Hd. rewrite lookup_fmap, Href in Hd.
  injection Hd as <-.
  apply REFERENCE_DATA_MALE_valid in Href
    as ((mt & st & Ht & _) & (ma & sa & Ha & _) & (mv & sv & Hv & _)).
  unfold withinDeviations, deviatedRegion. cbn [thickness surfArea volume].
  rewrite Ht, Ha, Hv. cbn [mean std ms]. autorewrite with num_eval.
  repeat split; eexists _, _, _; (split; [reflexivity|]);
    (split; [reflexivity|lra]).
Qed.

Lemma regionsWithinDeviations_delete (a b : R)
    (m : gmap string DKTRegionData) (regionName : string) :
  regionsWithinDeviations a b m →
  regionsWithinDeviations a b (delete regionName m).
Proof.
  intros Hm n ref d Href [_ Hd]%lookup_delete_Some. by apply (Hm n).
Qed.

Lemma dataWithinDeviations_partial (k : R) :
  dataWithinDeviations k k (deviatedPartialData k).
Proof.
  split; [apply regionsWithinDeviations_deviated|].
  split; [|split; exact I].
  do 2 apply regionsWithinDeviations_delete.
  apply regionsWithinDeviations_deviated.
Qed.

End PartialCoverageWithin.

(** X19.  Renormalized indices are weighted averages of z-scores,
    whatever the coverage.  When thickness, surface area and volume of
    every measured region lie between [a] and [b] reference deviations
    from the reference means (with [-1000 <= a] and [b <= 1000]) and at
    least one region contributes a detail, the value of the Language
    Composite Index and the z-score of the Parietal IQ Prediction lie
    between [a - 0.01] and [b + 0.01], whichever regions are missing:
    dividing by the total weight of the available regions keeps the index
    on the scale of a single z-score. *)
Theorem renormalized_indices_within_deviations (data : DKTData) (a b : R) :
  (-1000 <= a)%R → (b <= 1000)%R →
  dataWithinDeviations a b data →
  ((calculateLanguageIndex data).(details) ≠ [] →
   ∃ v : R, (calculateLanguageIndex data).(value) = Fin v
            ∧ (a - 0.01 <= v <= b + 0.01)%R)
  ∧ ((calculateParietalIQIndex data).(details) ≠ [] →
     ∃ z : R, (calculateParietalIQIndex data).(zScore_field) = Some (Fin z)
              ∧ (a - 0.01 <= z <= b + 0.01)%R).
Proof.
  intros _ _ Hdata. split.
  - by apply calculateLanguageIndex_within.
  - by apply calculateParietalIQIndex_within.
Qed.

Lemma renormalized_indices_within_deviations_witness :
  (∃ v : R, (calculateLanguageIndex (deviatedPartialData 1)).(value) = Fin v
            ∧ (1 - 0.01 <= v <= 1 + 0.01)%R)
  ∧ (∃ z : R,
       (calculateParietalIQIndex (deviatedPartialData 1)).(zScore_field)
       = Some (Fin z)
       ∧ (1 - 0.01 <= z <= 1 + 0.01)%R).
Proof.
  destruct (renormalized_indices_within_deviations
              (deviatedPartialData 1) 1 1) as [Hlanguage Hparietal];
    [lra|lra|apply dataWithinDeviations_partial|].
  split.
  - apply Hlanguage, deviatedPartialData_language_details.
  - apply Hparietal, deviatedPartialData_parietal_details.
Defined.

(** ** Monotonicity of the cognitive indices *)

Section Monotone.
#[local] Open Scope R_scope.

Lemma quotient_le (t t' m s : R) :
  0 < s → t <= t' → (t - m) / s <= (t' - m) / s.
Proof.
  intros Hs Hle. apply Rmult_le_compat_r; [|lra].
  left. by apply Rinv_0_lt_compat.
Qed.

Lemma zScore_inline_le (x x' : R) (m : MeanStd) :
  positiveStd m → x <= x' →
  ∃ z z', ((Fin x - m.(mean)) / m.(std))%num = Fin z
          ∧ ((Fin x' - m.(mean)) / m.(std))%num = Fin z' ∧ z <= z'.
Proof.
  intros (mu & sigma & -> & Hpos) Hle. cbn [mean std ms].
  rewrite !sub_Fin, !div_Fin by lra. eexists _, _.
  split; [done|]. split; [done|]. by apply quotient_le.
Qed.

Lemma compositeZScore_le (d d' : DKTRegionData) (ref : RefEntry)
    (a b c : R) :
  validRef ref → measurementLe d d' → 0 <= a → 0 <= b → 0 <= c →
  ∃ z z', compositeZScore d ref (Fin a, Fin b, Fin c) = Fin z
          ∧ compositeZScore d' ref (Fin a, Fin b, Fin c) = Fin z'
          ∧ z <= z'.
Proof.
  intros (Ht & Ha & Hv)
    (t & s & v & t' & s' & v' & Hdt & Hds & Hdv & Hdt' & Hds' & Hdv'
     & Hlt & Hls & Hlv) Hwa Hwb Hwc.
  unfold compositeZScore, zScore.
  rewrite Hdt, Hds, Hdv, Hdt', Hds', Hdv'.
  destruct (zScore_inline_le t t' _ Ht Hlt) as (zt & zt' & -> & -> & Hzt).
  destruct (zScore_inline_le s s' _ Ha Hls) as (zs & zs' & -> & -> & Hzs).
  destruct (zScore_inline_le v v' _ Hv Hlv) as (zv & zv' & -> & -> & Hzv).
  cbn [fst snd]. num_eval. eexists _, _.
  split; [done|]. split; [done|].
  assert (zt * (a / 100) <= zt' * (a / 100))
    by (apply Rmult_le_compat_r; lra).
  assert (zs * (b / 100) <= zs' * (b / 100))
    by (apply Rmult_le_compat_r; lra).
  assert (zv * (c / 100) <= zv' * (c / 100))
    by (apply Rmult_le_compat_r; lra).
  lra.
Qed.

Lemma round_scaled_le (t t' k : R) :
  0 < k → t <= t' →
  (Math_round (Fin t * Fin k) / Fin k
   <=? Math_round (Fin t' * Fin k) / Fin k)%num = true.
Proof.
  intros Hk Hle. rewrite !mul_Fin. unfold Math_round.
  rewrite !div_Fin by lra. rewrite leb_Fin. apply bool_decide_eq_true_2.
  apply Rmult_le_compat_r; [left; by apply Rinv_0_lt_compat|].
  apply IZR_le, Zfloor_le.
  assert (t * k <= t' * k) by (apply Rmult_le_compat_r; lra). lra.
Qed.

Lemma zToPercentile_le (z z' : R) :
  z <= z' → (zToPercentile (Fin z) <=? zToPercentile (Fin z'))%num = true.
Proof.
  intros Hle. rewrite !zToPercentile_Fin, leb_Fin.
  apply bool_decide_eq_true_2, IZR_le, Zfloor_le.
  pose proof (cdfApprox_monotone z z' Hle). lra.
Qed.

Context (lhMap rhMap lhMap' rhMap' : gmap string DKTRegionData).
Hypothesis HL : regionsLe lhMap lhMap'.
Hypothesis HR : regionsLe rhMap rhMap'.

(** The guard passes for the same regions of both datasets. *)
Lemma available_le (regionName : string) :
  match available lhMap rhMap regionName,
        available lhMap' rhMap' regionName with
  | Some (ref, l, r), Some (ref', l', r') =>
      ref = ref' ∧ validRef ref ∧ measurementLe l l' ∧ measurementLe r r'
  | None, None => True
  | _, _ => False
  end.
Proof.
  unfold available. specialize (HL regionName). specialize (HR regionName).
  destruct (REFERENCE_DATA_MALE !! regionName) as [ref|] eqn:Href; [|done].
  apply REFERENCE_DATA_MALE_valid in Href.
  destruct (lhMap !! regionName), (lhMap' !! regionName); try done;
    destruct (rhMap !! regionName), (rhMap' !! regionName); done.
Qed.

(** Two runs of a loop keep a relation between their states when the
    body keeps it on measurements that are in order. *)
Lemma forAvailable_le {C S : Type} (nameOf : C → string)
    (body : C → RefEntry → DKTRegionData → DKTRegionData → S → S)
    (Rel : S → S → Prop) (configs : list C) (init init' : S) :
  Rel init init' →
  (∀ cfg ref l r l' r' acc acc',
     cfg ∈ configs → validRef ref →
     measurementLe l l' → measurementLe r r' →
     Rel acc acc' → Rel (body cfg ref l r acc) (body cfg ref l' r' acc')) →
  Rel (forAvailable nameOf lhMap rhMap body configs init)
      (forAvailable nameOf lhMap' rhMap' body configs init').
Proof.
  intros Hinit Hstep. apply forAvailable_rel; [done|].
  intros c Hc. pose proof (available_le (nameOf c)) as Hav.
  destruct (available lhMap rhMap (nameOf c)) as [[[ref l] r]|],
    (available lhMap' rhMap' (nameOf c)) as [[[ref' l'] r']|]; try done.
  destruct Hav as (<- & Href & Hl & Hr). intros acc acc' Hacc.
  by apply Hstep.
Qed.

Lemma blendBody_loop_le (a b c : R)
    (blend cL cR : num → num → num)
    (regionWeights : list (string * num)) :
  0 <= a → 0 <= b → 0 <= c →
  (∀ x y x' y', x <= x' → y <= y' →
     ∃ z z', blend (Fin x) (Fin y) = Fin z
             ∧ blend (Fin x') (Fin y') = Fin z' ∧ z <= z') →
  Forall (λ cfg, ∃ w : R, cfg.2 = Fin w ∧ 0 <= w) regionWeights →
  ∃ t t',
    (forAvailable fst lhMap rhMap
       (blendBody (Fin a, Fin b, Fin c) blend cL cR)
       regionWeights (Fin 0, [])).1 = Fin t
    ∧ (forAvailable fst lhMap' rhMap'
         (blendBody (Fin a, Fin b, Fin c) blend cL cR)
         regionWeights (Fin 0, [])).1 = Fin t'
    ∧ t <= t'.
Proof.
  intros Ha Hb Hc Hblend Hweights.
  apply (forAvailable_le fst _
           (λ acc acc' : num * list RegionDetail,
              ∃ t t', acc.1 = Fin t ∧ acc'.1 = Fin t' ∧ t <= t')
           regionWeights (Fin 0, []) (Fin 0, [])).
  { exists 0, 0. repeat split; lra. }
  intros [n wt] ref l r l' r' [total ds] [total' ds'] Hcfg Href Hl Hr
    (t & t' & Ht & Ht' & Hle).
  cbn [fst] in Ht, Ht'. subst total total'. cbn [fst blendBody].
  destruct (proj1 (Forall_forall _ _) Hweights _ Hcfg) as (w & Hw & Hpos).
  cbn [snd] in Hw. subst wt.
  destruct (compositeZScore_le l l' ref a b c Href Hl Ha Hb Hc)
    as (zl & zl' & -> & -> & Hzl).
  destruct (compositeZScore_le r r' ref a b c Href Hr Ha Hb Hc)
    as (zr & zr' & -> & -> & Hzr).
  destruct (Hblend zl zr zl' zr' Hzl Hzr) as (z & z' & -> & -> & Hz).
  autorewrite with num_eval. eexists _, _.
  split; [done|]. split; [done|].
  assert (w * z <= w * z') by (apply Rmult_le_compat_l; lra). lra.
Qed.

End Monotone.

Section MonotoneCalculators.
#[local] Open Scope R_scope.

Variables data data' : DKTData.
Hypothesis Hle : dataLe data data'.

Ltac nonneg_weights :=
  repeat (apply Forall_cons_2; [eexists; split; [reflexivity|lra]|]);
  apply Forall_nil_2.

Ltac blend_le :=
  destruct Hle as (HL & HR & _); unfold resultLe; cbv zeta;
  match goal with
  | |- context [forAvailable fst (lh data) (rh data)
                  (blendBody (Fin ?a, Fin ?b, Fin ?c) ?blend ?cL ?cR)
                  ?cfgs (Fin 0, [])] =>
      destruct (blendBody_loop_le (lh data) (rh data) (lh data') (rh data')
                  HL HR a b c blend cL cR cfgs)
        as (t & t' & Ht & Ht' & Htt);
      [lra|lra|lra
      |intros x y x' y' Hx Hy; autorewrite with num_eval; divide_reals;
       eexists _, _; split; [reflexivity|]; split; [reflexivity|]; lra
      |nonneg_weights
      |destruct (forAvailable fst (lh data) (rh data)
                   (blendBody (Fin a, Fin b, Fin c) blend cL cR) cfgs
                   (Fin 0, [])) as [total ds];
       destruct (forAvailable fst (lh data') (rh data')
                   (blendBody (Fin a, Fin b, Fin c) blend cL cR) cfgs
                   (Fin 0, [])) as [total' ds'];
       cbn [fst] in Ht, Ht'; subst total total']
  end;
  cbn [value percentile];
  split; [apply round_scaled_le; lra|by apply zToPercentile_le].

Lemma calculateOlfactoryIndex_le :
  resultLe (calculateOlfactoryIndex data) (calculateOlfactoryIndex data').
Proof. unfold calculateOlfactoryIndex. blend_le. Qed.

Lemma calculateReadingIndex_le :
  resultLe (calculateReadingIndex data) (calculateReadingIndex data').
Proof. unfold calculateReadingIndex. blend_le. Qed.

Lemma calculateEmpathyIndex_le :
  resultLe (calculateEmpathyIndex data) (calculateEmpathyIndex data').
Proof. unfold calculateEmpathyIndex. blend_le. Qed.

Lemma calculateExecutiveIndex_le :
  resultLe (calculateExecutiveIndex data) (calculateExecutiveIndex data').
Proof. unfold calculateExecutiveIndex. blend_le. Qed.

Lemma calculateSpatialIndex_le :
  resultLe (calculateSpatialIndex data) (calculateSpatialIndex data').
Proof. unfold calculateSpatialIndex. blend_le. Qed.

Lemma calculateFluidIntelligenceIndex_le :
  resultLe (calculateFluidIntelligenceIndex data)
    (calculateFluidIntelligenceIndex data').
Proof. unfold calculateFluidIntelligenceIndex. blend_le. Qed.

(** The z-scores written out in a loop body, on measurements in order. *)
Ltac ordered_z Href Hl Hr :=
  let Ht := fresh "Ht" in let Ha := fresh "Ha" in let Hv := fresh "Hv" in
  destruct Href as (Ht & Ha & Hv);
  destruct Hl as (? & ? & ? & ? & ? & ? & -> & -> & -> & -> & -> & ->
                  & Hlt & Hla & Hlv);
  destruct Hr as (? & ? & ? & ? & ? & ? & -> & -> & -> & -> & -> & ->
                  & Hrt & Hra & Hrv);
  destruct (zScore_inline_le _ _ _ Ht Hlt) as (? & ? & -> & -> & ?);
  destruct (zScore_inline_le _ _ _ Ha Hla) as (? & ? & -> & -> & ?);
  destruct (zScore_inline_le _ _ _ Hv Hlv) as (? & ? & -> & -> & ?);
  destruct (zScore_inline_le _ _ _ Ht Hrt) as (? & ? & -> & -> & ?);
  destruct (zScore_inline_le _ _ _ Ha Hra) as (? & ? & -> & -> & ?);
  destruct (zScore_inline_le _ _ _ Hv Hrv) as (? & ? & -> & -> & ?).

Ltac weighted_le_step :=
  cbn [fst snd]; num_eval; eexists _, _, _;
  split; [reflexivity|]; split; [reflexivity|]; split; lra.

Lemma calculateLanguageIndex_le :
  resultLe (calculateLanguageIndex data) (calculateLanguageIndex data').
Proof.
  destruct Hle as (HL & HR & HLBA & HRBA).
  unfold calculateLanguageIndex. cbv zeta.
  match goal with
  | |- context [forAvailable fst (lh data) (rh data) ?body ?cfgs ?init] =>
      pose proof (forAvailable_le (lh data) (rh data) (lh data') (rh data')
                    HL HR fst body weightedLe cfgs init init) as Hdkt;
      feed Hdkt; [exists 0, 0, 0; repeat split; lra|];
      feed Hdkt;
      [intros cfg ref l r l' r' [[ti tw] ds] [[ti' tw'] ds'] Hcfg Href Hl Hr
         (t & t' & W & Ht & Ht' & Htt & HW);
       cbn [fst] in Ht, Ht'; injection Ht as -> ->; injection Ht' as -> ->;
       destruct (compositeZScore_le l l' ref 45 30 25 Href Hl)
         as (zl & zl' & Hzl & Hzl' & ?); [lra..|];
       destruct (compositeZScore_le r r' ref 45 30 25 Href Hr)
         as (zr & zr' & Hzr & Hzr' & ?); [lra..|];
       each_config Hcfg; rewrite Hzl, Hzl', Hzr, Hzr'; weighted_le_step|];
      set (afterDKT := forAvailable fst (lh data) (rh data) body cfgs init)
        in *;
      set (afterDKT' := forAvailable fst (lh data') (rh data') body cfgs init)
        in *
  end.
  assert (Hfinal : ∀ acc acc' : num * num * list RegionDetail,
            weightedLe acc acc' →
            resultLe
              (let '(totalIndex, totalWeight, details) := acc in
               let totalIndex :=
                 if ((totalWeight >? Fin 0) && (totalWeight <? Fin 1))%num
                 then (totalIndex / totalWeight)%num else totalIndex in
               {| name := "Language Composite Index";
                  value := (Math_round (totalIndex * Fin 100) / Fin 100)%num;
                  percentile := zToPercentile totalIndex;
                  zScore_field := None; details := details |})
              (let '(totalIndex, totalWeight, details) := acc' in
               let totalIndex :=
                 if ((totalWeight >? Fin 0) && (totalWeight <? Fin 1))%num
                 then (totalIndex / totalWeight)%num else totalIndex in
               {| name := "Language Composite Index";
                  value := (Math_round (totalIndex * Fin 100) / Fin 100)%num;
                  percentile := zToPercentile totalIndex;
                  zScore_field := None; details := details |})).
  { intros [[ti tw] ds] [[ti' tw'] ds'] (t & t' & W & Ht & Ht' & Htt & HW).
    cbn [fst] in Ht, Ht'. injection Ht as -> ->. injection Ht' as -> ->.
    unfold resultLe. cbv zeta. cbn [value percentile].
    rewrite gtb_Fin, ltb_Fin.
    destruct (bool_decide (0 < W)) eqn:Hgt; cbn [andb];
      [apply bool_decide_eq_true in Hgt; destruct (bool_decide (W < 1));
       [rewrite !div_Fin by lra;
        pose proof (quotient_le (t + 0) (t' + 0) 0 W Hgt) as Hq;
        feed Hq; [lra|];
        replace (t + 0 - 0) with t in Hq by lra;
        replace (t' + 0 - 0) with t' in Hq by lra|]|];
      (split; [apply round_scaled_le; lra|by apply zToPercentile_le]). }
  destruct (lhBA data) as [lhBAMap|], (lhBA data') as [lhBAMap'|];
    try done;
    destruct (rhBA data) as [rhBAMap|], (rhBA data') as [rhBAMap'|];
    try done; try by apply Hfinal.
  cbn [subregionsLe] in HLBA, HRBA.
  apply Hfinal.
  apply (forAvailable_le lhBAMap rhBAMap lhBAMap' rhBAMap' HLBA HRBA);
    [done|].
  intros cfg ref l r l' r' [[ti tw] ds] [[ti' tw'] ds'] Hcfg Href Hl Hr
    (t & t' & W & Ht & Ht' & Htt & HW).
  cbn [fst] in Ht, Ht'. injection Ht as -> ->. injection Ht' as -> ->.
  destruct (compositeZScore_le l l' ref 45 30 25 Href Hl)
    as (zl & zl' & Hzl & Hzl' & ?); [lra..|].
  destruct (compositeZScore_le r r' ref 45 30 25 Href Hr)
    as (zr & zr' & Hzr & Hzr' & ?); [lra..|].
  each_config Hcfg; rewrite Hzl, Hzl', Hzr, Hzr'; weighted_le_step.
Qed.

Lemma calculateParietalIQIndex_le :
  resultLe (calculateParietalIQIndex data) (calculateParietalIQIndex data').
Proof.
  destruct Hle as (HL & HR & _).
  unfold calculateParietalIQIndex. cbv zeta.
  match goal with
  | |- context [forAvailable cfg_name (lh data) (rh data) ?body ?cfgs ?init] =>
      pose proof (forAvailable_le (lh data) (rh data) (lh data') (rh data')
                    HL HR cfg_name body weightedLe cfgs init init) as Hloop;
      feed Hloop; [exists 0, 0, 0; repeat split; lra|];
      feed Hloop;
      [intros cfg ref l r l' r' [[ti tw] ds] [[ti' tw'] ds'] Hcfg Href Hl Hr
         (t & t' & W & Ht & Ht' & Htt & HW);
       cbn [fst] in Ht, Ht'; injection Ht as -> ->; injection Ht' as -> ->;
       ordered_z Href Hl Hr;
       each_config Hcfg; cbn [cfg_weight wThick wArea wThird regionConfig];
       weighted_le_step|];
      destruct (forAvailable cfg_name (lh data) (rh data) body cfgs init)
        as [[ti tw] ds];
      destruct (forAvailable cfg_name (lh data') (rh data') body cfgs init)
        as [[ti' tw'] ds']
  end.
  destruct Hloop as (t & t' & W & Ht & Ht' & Htt & HW).
  cbn [fst] in Ht, Ht'. injection Ht as -> ->. injection Ht' as -> ->.
  unfold resultLe. cbn [value percentile]. rewrite gtb_Fin.
  assert (Hz : ∃ z z',
            (if bool_decide (0 < W) then (Fin t / Fin W)%num else Fin 0)
            = Fin z
            ∧ (if bool_decide (0 < W) then (Fin t' / Fin W)%num else Fin 0)
              = Fin z'
            ∧ z <= z').
  { case_bool_decide as Hgt.
    - rewrite !div_Fin by lra. eexists _, _.
      split; [done|]. split; [done|].
      pose proof (quotient_le (t + 0) (t' + 0) 0 W Hgt) as Hq.
      feed Hq; [lra|].
      replace (t + 0 - 0) with t in Hq by lra.
      replace (t' + 0 - 0) with t' in Hq by lra. done.
    - exists 0, 0. repeat split; lra. }
  destruct Hz as (z & z' & -> & -> & Hzz).
  split; [|by apply zToPercentile_le].
  autorewrite with num_eval. unfold Math_round.
  autorewrite with num_eval. apply bool_decide_eq_true_2.
  assert (Hr : IZR (Zfloor (100 + z * 15 * 0.40 + 1 / 2))
               <= IZR (Zfloor (100 + z' * 15 * 0.40 + 1 / 2)))
    by (apply IZR_le, Zfloor_le; lra).
  unfold Rmax, Rmin. repeat destruct (Rle_dec _ _); lra.
Qed.

End MonotoneCalculators.

Section MonotoneExample.
#[local] Open Scope R_scope.

Lemma measurementLe_plainRegion (t a v t' a' v' : R) :
  t <= t' → a <= a' → v <= v' →
  measurementLe (plainRegion t a v) (plainRegion t' a' v').
Proof. intros. by exists t, a, v, t', a', v'. Qed.

Lemma regionsLe_singleton (regionName : string) (d d' : DKTRegionData) :
  measurementLe d d' →
  regionsLe {[ regionName := d ]} {[ regionName := d' ]}.
Proof.
  intros Hd n. destruct (decide (n = regionName)) as [-> | Hne].
  - by rewrite !lookup_singleton_eq.
  - by rewrite !lookup_singleton_ne.
Qed.

Lemma moderateData_superiorTemporalThicker :
  moderateData superiorTemporalThicker.
Proof.
  split; [|split; [|split; exact I]];
    apply map_Forall_singleton, moderateRegion_plainRegion;
    split_reals; lra.
Qed.

Lemma dataLe_superiorTemporal :
  dataLe superiorTemporalOnly superiorTemporalThicker.
Proof.
  split; [|split; [|split; exact I]];
    apply regionsLe_singleton, measurementLe_plainRegion; lra.
Qed.

End MonotoneExample.

(** X20.  More cortex never scores lower.  When two datasets hold the
    same regions, their measurements are finite and of magnitude at most
    one hundred thousand, and the second is at least the first in
    thickness, surface area and volume everywhere, then value and
    percentile of each of the eight cognitive indices on the second are
    at least those on the first. *)
Theorem cognitive_indices_monotone (data data' : DKTData) :
  moderateData data → moderateData data' → dataLe data data' →
  resultLe (calculateOlfactoryIndex data) (calculateOlfactoryIndex data')
  ∧ resultLe (calculateLanguageIndex data) (calculateLanguageIndex data')
  ∧ resultLe (calculateReadingIndex data) (calculateReadingIndex data')
  ∧ resultLe (calculateEmpathyIndex data) (calculateEmpathyIndex data')
  ∧ resultLe (calculateExecutiveIndex data) (calculateExecutiveIndex data')
  ∧ resultLe (calculateSpatialIndex data) (calculateSpatialIndex data')
  ∧ resultLe (calculateFluidIntelligenceIndex data)
      (calculateFluidIntelligenceIndex data')
  ∧ resultLe (calculateParietalIQIndex data)
      (calculateParietalIQIndex data').
Proof.
  intros _ _ Hle.
  split; [by apply calculateOlfactoryIndex_le|].
  split; [by apply calculateLanguageIndex_le|].
  split; [by apply calculateReadingIndex_le|].
  split; [by apply calculateEmpathyIndex_le|].
  split; [by apply calculateExecutiveIndex_le|].
  split; [by apply calculateSpatialIndex_le|].
  split; [by apply calculateFluidIntelligenceIndex_le|].
  by apply calculateParietalIQIndex_le.
Qed.

Lemma cognitive_indices_monotone_witness :
  resultLe (calculateOlfactoryIndex superiorTemporalOnly)
    (calculateOlfactoryIndex superiorTemporalThicker)
  ∧ resultLe (calculateLanguageIndex superiorTemporalOnly)
      (calculateLanguageIndex superiorTemporalThicker)
  ∧ resultLe (calculateReadingIndex superiorTemporalOnly)
      (calculateReadingIndex superiorTemporalThicker)
  ∧ resultLe (calculateEmpathyIndex superiorTemporalOnly)
      (calculateEmpathyIndex superiorTemporalThicker)
  ∧ resultLe (calculateExecutiveIndex superiorTemporalOnly)
      (calculateExecutiveIndex superiorTemporalThicker)
  ∧ resultLe (calculateSpatialIndex superiorTemporalOnly)
      (calculateSpatialIndex superiorTemporalThicker)
  ∧ resultLe (calculateFluidIntelligenceIndex superiorTemporalOnly)
      (calculateFluidIntelligenceIndex superiorTemporalThicker)
  ∧ resultLe (calculateParietalIQIndex superiorTemporalOnly)
      (calculateParietalIQIndex superiorTemporalThicker).
Proof.
  apply (cognitive_indices_monotone superiorTemporalOnly
           superiorTemporalThicker).
  - apply moderateData_superiorTemporalOnly.
  - apply moderateData_superiorTemporalThicker.
  - apply dataLe_superiorTemporal.
Defined.
